(** * Hajo: pool lifecycle coordinator

    A shallow embedding of the TypeScript units that make up the
    coordinator:

    - [frontend/hooks/useHajoContracts.ts]: [extractPoolAddress], the
      receipt log scanner, and the round duration and the pool address of
      [useCreateRotational];
    - [frontend/app/api/pools/route.ts]: the [GET] and [POST] handlers of
      the pool record manager, with [generatePoolId], [readDataFile],
      [writeDataFile] and [ensureDataDir];
    - the wallet label of the dashboard header.

    Conventions of the embedding.

    - A JavaScript string is a Rocq [string]; its characters are read as the
      code units U+0000..U+00FF.  On that range [toLowerCase] is a
      character-wise map and is modelled exactly.
    - [undefined] and [null] are both [None].
    - The numbers the handlers do arithmetic on (clock readings in
      milliseconds, the round duration in seconds, lengths) are integers.
      The number [parseFloat] reads is a double, a [spec_float] of the
      Standard Library with 53 bits of precision: the double nearest to the
      decimal literal, an infinity beyond the largest double.
    - An object used as a map is a [gmap] of its own properties; a property
      read also finds what the object inherits from [Object.prototype].
    - An exception is a value: [Throw e] of the type [Outcome]; [try]/[catch]
      is [try_catch].
    - The clock ([Date.now], [new Date]), the random source ([Math.random])
      and the [.data] directory are fields of an explicit [World]; the
      handlers are functions from worlds to an outcome and a new world.
    - The three JSON files hold typed collections.  What is written goes
      through [JSON.stringify] and what is read through [JSON.parse]: a
      number that JSON text cannot hold is stored as [null].  A file that is
      not there reads as the default value.
    - Making the directory and writing a file may fail, as a [FileSystem]
      says.  The handlers take the file system as an implicit argument:
      a statement made in a section with a file system in its context holds
      for every file system, and every other statement is about the
      handlers on the file system [reliable], on which nothing fails.
    - [console.log] and [console.error] have no effect on any value the
      handlers return or store and are left out. *)

From Stdlib Require Import ZArith Ascii String List Lia SpecFloat.
From stdpp Require Import base tactics option list strings pretty gmap.

Local Open Scope string_scope.
Local Open Scope list_scope.
Local Open Scope Z_scope.

(** ** JavaScript strings *)

Module JsString.

(** Code unit of a character. *)
Definition code (c : ascii) : Z := Z.of_N (N_of_ascii c).

Definition char_of_code (n : Z) : ascii := ascii_of_N (Z.to_N n).

(** Lower-casing of one code unit below U+0100: [A-Z], and the Latin-1
    capitals U+00C0..U+00DE without the multiplication sign U+00D7, move
    up by 32; every other code unit is its own lower case. *)
Definition lower_char (c : ascii) : ascii :=
  let n := code c in
  if ((65 <=? n) && (n <=? 90))
     || ((192 <=? n) && (n <=? 222) && negb (n =? 215))
  then char_of_code (n + 32)
  else c.

(** [s.toLowerCase()] *)
Fixpoint toLowerCase (s : string) : string :=
  match s with
  | EmptyString => EmptyString
  | String c s' => String (lower_char c) (toLowerCase s')
  end.

Fixpoint string_drop (n : nat) (s : string) : string :=
  match n, s with
  | O, _ => s
  | S _, EmptyString => EmptyString
  | S n', String _ s' => string_drop n' s'
  end.

Fixpoint string_take (n : nat) (s : string) : string :=
  match n, s with
  | O, _ => EmptyString
  | S _, EmptyString => EmptyString
  | S n', String c s' => String c (string_take n' s')
  end.

(** [s.slice(start)]: a negative [start] counts from the end of the string
    and is clamped at 0; a non-negative one is clamped at the length. *)
Definition slice (start : Z) (s : string) : string :=
  let len := Z.of_nat (String.length s) in
  let from := if start <? 0 then Z.max (len + start) 0
              else Z.min start len in
  string_drop (Z.to_nat from) s.

(** [s.substr(start, length)] for non-negative arguments. *)
Definition substr (start length : nat) (s : string) : string :=
  string_take length (string_drop start s).

(** The character class [[a-fA-F0-9]]. *)
Definition is_hex_digit (c : ascii) : bool :=
  let n := code c in
  ((97 <=? n) && (n <=? 102))
  || ((65 <=? n) && (n <=? 70))
  || ((48 <=? n) && (n <=? 57)).

(** [{n}] repetitions of the class, then the end of the input. *)
Fixpoint hex_digits_then_end (n : nat) (s : string) : bool :=
  match n, s with
  | O, EmptyString => true
  | S n', String c s' => is_hex_digit c && hex_digits_then_end n' s'
  | _, _ => false
  end.

(** [s.match(/^0x[a-fA-F0-9]{40}$/)] as a truth value. *)
Definition matches_address_pattern (s : string) : bool :=
  match s with
  | String c0 (String c1 rest) =>
      Ascii.eqb c0 "0" && Ascii.eqb c1 "x" && hex_digits_then_end 40 rest
  | _ => false
  end.

(** [!x] for a value that is a string or [undefined]. *)
Definition falsy (x : option string) : bool :=
  match x with
  | None => true
  | Some EmptyString => true
  | Some (String _ _) => false
  end.

(** [x || d] for a value that is a string or [undefined]. *)
Definition or_else (x : option string) (d : string) : string :=
  match x with
  | Some (String c s) => String c s
  | _ => d
  end.

End JsString.

Import JsString.

(** ** Exceptions *)

Inductive JsError : Type :=
| TypeError        (* a property read on [undefined] or [null] *)
| RangeError       (* [toISOString] of an invalid date *)
| Rejected.        (* a rejected promise of an external collaborator *)

Inductive Outcome (A : Type) : Type :=
| Ok (a : A)
| Throw (e : JsError).

Arguments Ok {A} a.
Arguments Throw {A} e.

#[global] Instance Outcome_ret : MRet Outcome := fun A a => Ok a.

#[global] Instance Outcome_bind : MBind Outcome := fun A B f m =>
  match m with
  | Ok a => f a
  | Throw e => Throw e
  end.

(** [try { m } catch (e) { handler e }] *)
Definition try_catch {A} (m : Outcome A) (handler : JsError -> Outcome A)
  : Outcome A :=
  match m with
  | Ok a => Ok a
  | Throw e => handler e
  end.

(** [x.p] and [x.m()] on a value that may be [undefined]: the receiver. *)
Definition receiver {A} (x : option A) : Outcome A :=
  match x with
  | Some a => Ok a
  | None => Throw TypeError
  end.

(** ** The receipt log scanner (hooks/useHajoContracts.ts) *)

Module Scanner.

(** A log of a receipt.  A field the object does not have is [None]. *)
Record Log : Type := {
  address : option string;
  topics : option (list string)
}.

(** A receipt; an entry of [logs] that is [null] is [None]. *)
Record Receipt : Type := {
  logs : option (list (option Log))
}.

(** [publicClient.getTransactionReceipt({ hash })]: the promise is
    rejected, or resolves to a receipt or to nothing. *)
Definition PublicClient : Type := string -> Outcome (option Receipt).

Section WithEnvironment.

(** [process.env.NEXT_PUBLIC_FACTORY_ADDRESS] *)
Variable NEXT_PUBLIC_FACTORY_ADDRESS : option string.

Definition FACTORY_ADDRESS : string :=
  or_else NEXT_PUBLIC_FACTORY_ADDRESS "0x0".

(** The body of the inner [try] for one log: [Some a] is [return a],
    [None] reaches the end of the iteration (or [continue]). *)
Definition scan_log (log : option Log) : Outcome (option string) :=
  l ← receiver log;
  addr ← receiver (address l);
  if decide (toLowerCase addr <> toLowerCase FACTORY_ADDRESS)
  then mret None
  else
    ts ← receiver (topics l);
    if (2 <=? length ts)%nat then
      t1 ← receiver (ts !! 1%nat);
      let poolAddr := "0x" +:+ slice (-40) t1 in
      if matches_address_pattern poolAddr
      then mret (Some poolAddr)
      else mret None
    else mret None.

(** [for (const log of receipt.logs) { try { ... } catch (e) { continue } }] *)
Fixpoint for_of_logs (ls : list (option Log)) : Outcome (option string) :=
  match ls with
  | [] => mret None
  | log :: rest =>
      r ← try_catch (scan_log log) (fun _ => mret None);
      match r with
      | Some poolAddr => mret (Some poolAddr)
      | None => for_of_logs rest
      end
  end.

Definition extractPoolAddress (publicClient : PublicClient)
    (txHash : string) : Outcome (option string) :=
  try_catch
    (receipt ← publicClient txHash;
     match receipt with
     | None => mret None
     | Some r =>
         match logs r with
         | None => mret None
         | Some [] => mret None
         | Some ls => for_of_logs ls
         end
     end)
    (fun _ => mret None).

End WithEnvironment.

End Scanner.


(** ** Property reads on plain objects *)

Module JsObject.

(** The properties every plain object inherits from [Object.prototype]:
    an object literal and a result of [JSON.parse] both have it as their
    prototype. *)
Definition Object_prototype : list string :=
  ["constructor"; "__defineGetter__"; "__defineSetter__"; "hasOwnProperty";
   "__lookupGetter__"; "__lookupSetter__"; "isPrototypeOf";
   "propertyIsEnumerable"; "toString"; "valueOf"; "__proto__";
   "toLocaleString"].

(** What [o[key]] evaluates to, for an object [o] used as a map with values
    in [A].  An inherited property is a function, or for [__proto__] the
    prototype object itself: a truthy value that is not an [A]. *)
Inductive Property (A : Type) : Type :=
| Own (a : A)
| Inherited (name : string)
| Undefined.

Arguments Own {A} a.
Arguments Inherited {A} name.
Arguments Undefined {A}.

(** [o[key]]: an own property first, then the prototype. *)
Definition get {A} (o : gmap string A) (key : string) : Property A :=
  match o !! key with
  | Some a => Own a
  | None =>
      if bool_decide (key ∈ Object_prototype) then Inherited key
      else Undefined
  end.

(** [o[key] = a]: the setter of the inherited [__proto__] replaces the
    prototype and adds no property; every other assignment defines or
    updates an own property. *)
Definition set {A} (o : gmap string A) (key : string) (a : A)
  : gmap string A :=
  match o !! key with
  | None => if bool_decide (key = "__proto__") then o else <[key := a]> o
  | Some _ => <[key := a]> o
  end.

End JsObject.

(** ** JavaScript numbers: [parseFloat] *)

Module JsNumber.

(** A Number value is an IEEE 754 double: a [spec_float] read with 53 bits
    of precision and the exponent bound 1024.  [S754_finite s m e] is
    [(-1)^s * m * 2^e]. *)
Definition JsNumber : Type := spec_float.

Definition prec : Z := 53.
Definition emax : Z := 1024.

Definition NaN : JsNumber := S754_nan.
Definition Infinity (neg : bool) : JsNumber := S754_infinity neg.

(** The double of an integer: the integer itself up to [2^53], the nearest
    double beyond, an infinity past the largest double. *)
Definition of_Z (z : Z) : JsNumber := binary_normalize prec emax z 0 false.

(** The double nearest to [(-1)^neg * m * 10^e], ties to the even
    mantissa: the Number value of a decimal literal with the digits [m]
    and the exponent [e]. *)
Definition nearest (neg : bool) (m e : Z) : JsNumber :=
  match m with
  | Zpos p =>
      if 0 <=? e then binary_round prec emax neg (p * Z.to_pos (10 ^ e)) 0
      else
        let '(q, e', l) :=
          SFdiv_core_binary prec emax (Zpos p) 0 (10 ^ (- e)) 0 in
        binary_round_aux prec emax neg q e' l
  | _ => S754_zero neg
  end.

(** White space and line terminators below U+0100. *)
Definition is_white_space (c : ascii) : bool :=
  let n := code c in
  ((9 <=? n) && (n <=? 13)) || (n =? 32) || (n =? 160).

Fixpoint trim_start (s : string) : string :=
  match s with
  | String c s' => if is_white_space c then trim_start s' else s
  | EmptyString => EmptyString
  end.

Definition is_digit (c : ascii) : bool :=
  let n := code c in (48 <=? n) && (n <=? 57).

Definition digit_value (c : ascii) : Z := code c - 48.

(** Reads the longest run of decimal digits: the value of [acc] followed
    by the digits, how many were read on top of [n], and the rest. *)
Fixpoint read_digits (s : string) (acc n : Z) : Z * Z * string :=
  match s with
  | String c s' =>
      if is_digit c then read_digits s' (10 * acc + digit_value c) (n + 1)
      else (acc, n, s)
  | EmptyString => (acc, n, s)
  end.

Definition read_sign (s : string) : bool * string :=
  match s with
  | String c r =>
      if Ascii.eqb c "-" then (true, r)
      else if Ascii.eqb c "+" then (false, r)
      else (false, s)
  | EmptyString => (false, s)
  end.

(** The value of an [ExponentPart] at the head of [s]; an incomplete one
    does not belong to the literal. *)
Definition read_exponent (s : string) : Z :=
  match s with
  | String c r =>
      if (code c =? 101) || (code c =? 69) then
        let '(neg, r') := read_sign r in
        let '(v, n, _) := read_digits r' 0 0 in
        if n =? 0 then 0 else if (neg : bool) then - v else v
      else 0
  | EmptyString => 0
  end.

Fixpoint starts_with (p s : string) : bool :=
  match p, s with
  | EmptyString, _ => true
  | String a p', String b s' => (code a =? code b) && starts_with p' s'
  | String _ _, EmptyString => false
  end.

(** [parseFloat(s)]: leading white space is dropped and the longest
    prefix that is a [StrDecimalLiteral] is read; the result is the double
    nearest to the value of that literal, [NaN] when there is none. *)
Definition parseFloat (s : string) : JsNumber :=
  let '(neg, u) := read_sign (trim_start s) in
  if starts_with "Infinity" u then Infinity neg
  else
    let '(ip, ni, r1) := read_digits u 0 0 in
    let '(m, nf, r2) :=
      match r1 with
      | String c r => if Ascii.eqb c "." then read_digits r ip 0 else (ip, 0, r1)
      | EmptyString => (ip, 0, r1)
      end in
    if ni + nf =? 0 then NaN
    else nearest neg m (read_exponent r2 - nf).

(** [Number.isFinite(x)] *)
Definition is_finite (x : JsNumber) : bool :=
  match x with
  | S754_nan | S754_infinity _ => false
  | S754_zero _ | S754_finite _ _ _ => true
  end.

(** [x >= 0] *)
Definition is_non_negative (x : JsNumber) : bool :=
  SFleb (S754_zero false) x.

(** The integer a double is, when it is one. *)
Definition to_Z (x : JsNumber) : option Z :=
  match x with
  | S754_zero _ => Some 0
  | S754_finite s m e =>
      let v := if (s : bool) then Zneg m else Zpos m in
      if 0 <=? e then Some (v * 2 ^ e)
      else if v mod 2 ^ (- e) =? 0 then Some (v / 2 ^ (- e)) else None
  | _ => None
  end.

End JsNumber.

(** ** JavaScript dates: [toISOString] *)

Module JsDate.

(** A time value is valid when it is within 8.64e15 ms of the epoch. *)
Definition valid_time (t : Z) : bool :=
  (-8640000000000000 <=? t) && (t <=? 8640000000000000).

Definition msPerDay : Z := 86400000.

Definition digit (n : Z) : ascii := char_of_code (48 + n mod 10).

Definition digits2 (n : Z) : string :=
  String (digit (n / 10)) (String (digit n) "").

Definition digits3 (n : Z) : string :=
  String (digit (n / 100)) (digits2 n).

Definition digits4 (n : Z) : string :=
  String (digit (n / 1000)) (digits3 n).

Definition digits6 (n : Z) : string :=
  String (digit (n / 100000)) (String (digit (n / 10000)) (digits4 n)).

(** Year, month and day of the month of a day number (days since the
    epoch), in the proleptic Gregorian calendar. *)
Definition civil (day : Z) : Z * Z * Z :=
  let z := day + 719468 in
  let era := z / 146097 in
  let doe := z mod 146097 in
  let yoe := (doe - doe / 1460 + doe / 36524 - doe / 146096) / 365 in
  let doy := doe - (365 * yoe + yoe / 4 - yoe / 100) in
  let mp := (5 * doy + 2) / 153 in
  let d := doy - (153 * mp + 2) / 5 + 1 in
  let m := if mp <? 10 then mp + 3 else mp - 9 in
  let y := yoe + era * 400 + (if m <=? 2 then 1 else 0) in
  (y, m, d).

(** Four digits for the years 0 to 9999, a sign and six digits otherwise. *)
Definition year_string (y : Z) : string :=
  if (0 <=? y) && (y <=? 9999) then digits4 y
  else (if y <? 0 then "-" else "+") +:+ digits6 (Z.abs y).

Definition iso_string (t : Z) : string :=
  let '(y, m, d) := civil (t / msPerDay) in
  let ms := t mod msPerDay in
  year_string y +:+ "-" +:+ digits2 m +:+ "-" +:+ digits2 d +:+ "T"
    +:+ digits2 (ms / 3600000) +:+ ":" +:+ digits2 (ms / 60000 mod 60)
    +:+ ":" +:+ digits2 (ms / 1000 mod 60) +:+ "." +:+ digits3 (ms mod 1000)
    +:+ "Z".

(** [new Date(t).toISOString()]: a [RangeError] for an invalid date. *)
Definition toISOString (t : Z) : Outcome string :=
  if valid_time t then Ok (iso_string t) else Throw RangeError.

(** The shape [YYYY-MM-DDTHH:mm:ss.sssZ], or with [+YYYYYY] or [-YYYYYY]
    for the year. *)
Fixpoint all_digits (n : nat) (s : string) : option string :=
  match n, s with
  | O, _ => Some s
  | S n', String c s' =>
      if JsNumber.is_digit c then all_digits n' s' else None
  | S _, EmptyString => None
  end.

Inductive Piece : Type :=
| Lit (c : ascii)
| Digits (n : nat).

Fixpoint match_pieces (ps : list Piece) (s : string) : bool :=
  match ps with
  | [] => match s with EmptyString => true | _ => false end
  | Lit c :: ps' =>
      match s with
      | String c' s' => if decide (c = c') then match_pieces ps' s' else false
      | EmptyString => false
      end
  | Digits n :: ps' =>
      match all_digits n s with
      | Some r => match_pieces ps' r
      | None => false
      end
  end.

Definition iso_tail : list Piece :=
  [Lit "-"; Digits 2; Lit "-"; Digits 2; Lit "T"; Digits 2; Lit ":";
   Digits 2; Lit ":"; Digits 2; Lit "."; Digits 3; Lit "Z"]%char.

Definition is_iso_string (s : string) : bool :=
  match s with
  | String "+" r | String "-" r => match_pieces (Digits 6 :: iso_tail) r
  | _ => match_pieces (Digits 4 :: iso_tail) s
  end.

End JsDate.

(** ** The pool record manager (app/api/pools/route.ts) *)

Module Pool.
Inductive Status : Type := active | completed | paused.

(** [interface Pool].  [type] is declared as a union of three literals,
    but [POST] stores whatever string the request carries, so it is a
    string here. *)
Record t : Type := {
  id : string;
  name : string;
  description : option string;
  type : string;
  status : Status;
  creator_address : string;
  contract_address : string;
  token_address : string;
  members_count : Z;
  total_saved : Z;
  progress : Z;
  frequency : option string;
  next_payout : option string;
  created_at : string;
  tx_hash : option string
}.
End Pool.

Module Member.
Inductive Status : Type := pending | paid | late.

(** [interface Member].  The amount is a number in a record that [POST]
    builds; in a record read from a file it may be [null], which is
    [None]. *)
Record t : Type := {
  id : string;
  member_address : string;
  contribution_amount : option JsNumber.JsNumber;
  status : Status;
  joined_at : string
}.
End Member.

Module Activity.
(** The object literal [activity] of [POST]. *)
Record t : Type := {
  id : string;
  pool_id : string;
  activity_type : string;
  user_address : string;
  amount : option JsNumber.JsNumber;
  description : string;
  created_at : string;
  tx_hash : option string
}.
End Activity.

Module Body.
(** The JSON body of a [POST] request, as the handler destructures it. *)
Record t : Type := {
  name : option string;
  description : option string;
  poolType : option string;
  creatorAddress : option string;
  poolAddress : option string;
  tokenAddress : option string;
  members : option (list string);
  contributionAmount : option string;
  roundDuration : option Z;
  frequency : option string;
  txHash : option string
}.
End Body.

Module Query.
(** [searchParams.get('id')] and [searchParams.get('creator')] *)
Record t : Type := {
  id : option string;
  creator : option string
}.
End Query.

(** ** Values in JSON text *)

Module JSON.

(** [JSON.parse(JSON.stringify(x))] for a value that is a number or [null]:
    [NaN] and the infinities are written as [null], [-0] is written as [0],
    and every other double is written with digits that read back as the
    same double. *)
Definition number (x : option JsNumber.JsNumber) : option JsNumber.JsNumber :=
  match x with
  | Some (S754_finite s m e) => Some (S754_finite s m e)
  | Some (S754_zero _) => Some (S754_zero false)
  | Some S754_nan | Some (S754_infinity _) | None => None
  end.

(** The strings of a record are written and read back unchanged; so are
    the integers of a pool. *)
Definition member (m : Member.t) : Member.t :=
  {| Member.id := Member.id m;
     Member.member_address := Member.member_address m;
     Member.contribution_amount := number (Member.contribution_amount m);
     Member.status := Member.status m;
     Member.joined_at := Member.joined_at m |}.

Definition activity (a : Activity.t) : Activity.t :=
  {| Activity.id := Activity.id a;
     Activity.pool_id := Activity.pool_id a;
     Activity.activity_type := Activity.activity_type a;
     Activity.user_address := Activity.user_address a;
     Activity.amount := number (Activity.amount a);
     Activity.description := Activity.description a;
     Activity.created_at := Activity.created_at a;
     Activity.tx_hash := Activity.tx_hash a |}.

Definition activities (l : list Activity.t) : list Activity.t :=
  activity <$> l.

Definition members (o : gmap string (list Member.t))
  : gmap string (list Member.t) :=
  fmap (M := list) member <$> o.

End JSON.

Module PoolsRoute.

(** *** The world the handlers run in *)

(** The [.data] directory.  A file that does not exist is [None]. *)
Record Disk : Type := {
  data_dir : bool;
  pools_file : option (list Pool.t);
  activities_file : option (list Activity.t);
  members_file : option (gmap string (list Member.t))
}.

(** The [n]-th reading of the clock is [clock n], the [n]-th value of
    [Math.random().toString(36)] is [random n]; [ticks] and [draws] count
    the readings taken so far. *)
Record World : Type := {
  disk : Disk;
  clock : nat -> Z;
  ticks : nat;
  random : nat -> string;
  draws : nat
}.

Definition with_disk (d : Disk) (w : World) : World :=
  {| disk := d; clock := clock w; ticks := ticks w;
     random := random w; draws := draws w |}.

Definition IO (A : Type) : Type := World -> Outcome A * World.

#[global] Instance IO_ret : MRet IO := fun A a w => (Ok a, w).

#[global] Instance IO_bind : MBind IO := fun A B f m w =>
  match m w with
  | (Ok a, w') => f a w'
  | (Throw e, w') => (Throw e, w')
  end.

Definition lift {A} (o : Outcome A) : IO A := fun w => (o, w).

Definition io_try_catch {A} (m : IO A) (handler : JsError -> IO A) : IO A :=
  fun w =>
    match m w with
    | (Ok a, w') => (Ok a, w')
    | (Throw e, w') => handler e w'
    end.

(** [Date.now()], and the time value of [new Date()] *)
Definition Date_now : IO Z := fun w =>
  (Ok (clock w (ticks w)),
   {| disk := disk w; clock := clock w; ticks := S (ticks w);
      random := random w; draws := draws w |}).

(** [Math.random().toString(36)] *)
Definition Math_random_toString36 : IO string := fun w =>
  (Ok (random w (draws w)),
   {| disk := disk w; clock := clock w; ticks := ticks w;
      random := random w; draws := S (draws w) |}).

(** [new Date().toISOString()] *)
Definition new_Date_toISOString : IO string :=
  now ← Date_now;
  lift (JsDate.toISOString now).

(** *** The file-based data store *)

Inductive File : Type -> Type :=
| POOLS_FILE : File (list Pool.t)
| ACTIVITIES_FILE : File (list Activity.t)
| MEMBERS_FILE : File (gmap string (list Member.t)).

Definition file_content {T} (f : File T) (d : Disk) : option T :=
  match f in File T' return option T' with
  | POOLS_FILE => pools_file d
  | ACTIVITIES_FILE => activities_file d
  | MEMBERS_FILE => members_file d
  end.

Definition file_store {T} (f : File T) (data : T) (d : Disk) : Disk :=
  match f in File T' return T' -> Disk with
  | POOLS_FILE => fun x =>
      {| data_dir := data_dir d; pools_file := Some x;
         activities_file := activities_file d;
         members_file := members_file d |}
  | ACTIVITIES_FILE => fun x =>
      {| data_dir := data_dir d; pools_file := pools_file d;
         activities_file := Some x;
         members_file := members_file d |}
  | MEMBERS_FILE => fun x =>
      {| data_dir := data_dir d; pools_file := pools_file d;
         activities_file := activities_file d;
         members_file := Some x |}
  end data.

(** The disk with the file [f] holding [content], or with no such file
    that can be read: what a failed write leaves. *)
Definition file_put {T} (f : File T) (content : option T) (d : Disk) : Disk :=
  match f in File T' return option T' -> Disk with
  | POOLS_FILE => fun x =>
      {| data_dir := data_dir d; pools_file := x;
         activities_file := activities_file d;
         members_file := members_file d |}
  | ACTIVITIES_FILE => fun x =>
      {| data_dir := data_dir d; pools_file := pools_file d;
         activities_file := x;
         members_file := members_file d |}
  | MEMBERS_FILE => fun x =>
      {| data_dir := data_dir d; pools_file := pools_file d;
         activities_file := activities_file d;
         members_file := x |}
  end content.

(** A file holds a JSON text, and the disk keeps a text as a value of the
    collection it is the text of.  The text that [JSON.stringify] gives of
    some data is kept as the value that reads back from it, and
    [JSON.parse] reads a kept value as the value its text stands for: both
    are the round trip through the text, which changes nothing in what
    [JSON.stringify] has written. *)
Definition JSON_round_trip {T} (f : File T) : T -> T :=
  match f in File T' return T' -> T' with
  | POOLS_FILE => fun pools => pools
  | ACTIVITIES_FILE => JSON.activities
  | MEMBERS_FILE => JSON.members
  end.

Definition JSON_stringify {T} (f : File T) (data : T) : T :=
  JSON_round_trip f data.

Definition JSON_parse {T} (f : File T) (text : T) : T :=
  JSON_round_trip f text.

(** What can go wrong in the file system: [fs.mkdir] may be rejected, and
    [fs.writeFile] may be rejected and then leaves behind some content, or
    none that can be read. *)
Class FileSystem : Type := {
  mkdir_fails : World -> bool;
  writeFile_fails : forall T, File T -> T -> World -> option (option T)
}.

(** [fs.access(DATA_DIR)] *)
Definition fs_access : IO unit := fun w =>
  if data_dir (disk w) then (Ok tt, w) else (Throw Rejected, w).

(** [fs.readFile(filePath, 'utf-8')] *)
Definition fs_readFile {T} (filePath : File T) : IO T := fun w =>
  match file_content filePath (disk w) with
  | Some text => (Ok text, w)
  | None => (Throw Rejected, w)
  end.

(** The [catch] of [readDataFile] turns a missing file into the default. *)
Definition readDataFile {T} (filePath : File T) (defaultValue : T) : IO T :=
  io_try_catch
    (data ← fs_readFile filePath;
     mret (JSON_parse filePath data))
    (fun _ => mret defaultValue).

Section WithFileSystem.

Context {fs : FileSystem}.

(** [fs.mkdir(DATA_DIR, { recursive: true })] *)
Definition fs_mkdir : IO unit := fun w =>
  if mkdir_fails w then (Throw Rejected, w)
  else
    (Ok tt,
     with_disk {| data_dir := true; pools_file := pools_file (disk w);
                  activities_file := activities_file (disk w);
                  members_file := members_file (disk w) |} w).

(** [fs.writeFile(filePath, text, 'utf-8')] *)
Definition fs_writeFile {T} (filePath : File T) (text : T) : IO unit :=
  fun w =>
    match writeFile_fails T filePath text w with
    | None => (Ok tt, with_disk (file_store filePath text (disk w)) w)
    | Some remains =>
        (Throw Rejected, with_disk (file_put filePath remains (disk w)) w)
    end.

(** [fs.access], and [fs.mkdir] when the directory is not there. *)
Definition ensureDataDir : IO unit :=
  io_try_catch fs_access (fun _ => fs_mkdir).

Definition writeDataFile {T} (filePath : File T) (data : T) : IO unit :=
  fs_writeFile filePath (JSON_stringify filePath data).

End WithFileSystem.

(** The collection a handler sees when it reads [filePath]. *)
Definition pools_of (w : World) : list Pool.t :=
  default [] (JSON_parse POOLS_FILE <$> pools_file (disk w)).
Definition activities_of (w : World) : list Activity.t :=
  default [] (JSON_parse ACTIVITIES_FILE <$> activities_file (disk w)).
Definition members_of (w : World) : gmap string (list Member.t) :=
  default ∅ (JSON_parse MEMBERS_FILE <$> members_file (disk w)).

(** *** Responses *)

(** The value handed to [NextResponse.json].  In [PoolDetailInherited] the
    property [pool_members] is not a list but the member of
    [Object.prototype] of that name; the JSON text of the response leaves a
    function out and writes the prototype object as [{}]. *)
Inductive ResponseBody : Type :=
| ErrorBody (error : string)
| PoolRecord (pool : Pool.t)
| PoolDetail (pool : Pool.t) (pool_activity : list Activity.t)
    (pool_members : list Member.t)
| PoolDetailInherited (pool : Pool.t) (pool_activity : list Activity.t)
    (pool_members : string)
| PoolList (pools : list Pool.t).

Record Response : Type := {
  status : Z;
  body : ResponseBody
}.

(** [NextResponse.json(body, { status })] *)
Definition json (b : ResponseBody) (s : Z) : Response :=
  {| status := s; body := b |}.

(** A string that is neither [undefined] nor empty. *)
Definition truthy (x : option string) : option string :=
  if falsy x then None else x.

(** [x || d] for a value that is a number or [undefined]: zero is falsy. *)
Definition number_or_else (x : option Z) (d : Z) : Z :=
  match x with
  | Some 0 | None => d
  | Some n => n
  end.

(** *** Handlers *)

(** [`pool_${Date.now()}_${Math.random().toString(36).substr(2, 9)}`] *)
Definition generatePoolId : IO string :=
  now ← Date_now;
  r ← Math_random_toString36;
  mret ("pool_" +:+ pretty now +:+ "_" +:+ substr 2 9 r).

Section WithFileSystem.

Context {fs : FileSystem}.

Definition GET (request : Query.t) : IO Response :=
  io_try_catch
    (_ ← ensureDataDir;
     poolsData ← readDataFile POOLS_FILE [];
     poolActivityData ← readDataFile ACTIVITIES_FILE [];
     poolMembersData ← readDataFile MEMBERS_FILE ∅;
     match truthy (Query.id request) with
     | Some poolId =>
         match List.find (fun p => bool_decide (Pool.id p = poolId)) poolsData with
         | None => mret (json (ErrorBody "Pool not found") 404)
         | Some pool =>
             let activities :=
               filter (fun a => Activity.pool_id a = poolId) poolActivityData in
             (* [poolMembersData[poolId] || []] *)
             match JsObject.get poolMembersData poolId with
             | JsObject.Own members =>
                 mret (json (PoolDetail pool activities members) 200)
             | JsObject.Inherited name =>
                 mret (json (PoolDetailInherited pool activities name) 200)
             | JsObject.Undefined =>
                 mret (json (PoolDetail pool activities []) 200)
             end
         end
     | None =>
         match truthy (Query.creator request) with
         | Some creator =>
             let pools :=
               filter (fun p => toLowerCase (Pool.creator_address p)
                                = toLowerCase creator) poolsData in
             mret (json (PoolList pools) 200)
         | None => mret (json (PoolList poolsData) 200)
         end
     end)
    (fun _ => mret (json (ErrorBody "Internal server error") 500)).

Section WithEnvironment.

(** [process.env.NEXT_PUBLIC_TOKEN_ADDRESS] *)
Variable NEXT_PUBLIC_TOKEN_ADDRESS : option string.

(** [members.map((memberAddress, index) => ({ ... }))] *)
Fixpoint memberEntries (poolId : string) (contributionAmount : option string)
    (members : list string) (index : nat) : IO (list Member.t) :=
  match members with
  | [] => mret []
  | memberAddress :: rest =>
      joined ← new_Date_toISOString;
      entries ← memberEntries poolId contributionAmount rest (S index);
      mret ({| Member.id := "member_" +:+ poolId +:+ "_" +:+ pretty index;
               Member.member_address := toLowerCase memberAddress;
               Member.contribution_amount :=
                 Some (JsNumber.parseFloat (or_else contributionAmount "0"));
               Member.status := Member.pending;
               Member.joined_at := joined |} :: entries)
  end.

Definition POST (body : Body.t) : IO Response :=
  io_try_catch
    (_ ← ensureDataDir;
     match truthy (Body.name body), truthy (Body.creatorAddress body),
           truthy (Body.poolAddress body) with
     | Some name, Some creatorAddress, Some poolAddress =>
         poolsData ← readDataFile POOLS_FILE [];
         poolActivityData ← readDataFile ACTIVITIES_FILE [];
         poolMembersData ← readDataFile MEMBERS_FILE ∅;
         let members := default [] (Body.members body) in
         id ← generatePoolId;
         now ← Date_now;
         next_payout ←
           lift (JsDate.toISOString
                   (now + number_or_else (Body.roundDuration body) 604800 * 1000));
         created_at ← new_Date_toISOString;
         let newPool :=
           {| Pool.id := id;
              Pool.name := name;
              Pool.description := Body.description body;
              Pool.type := or_else (Body.poolType body) "rotational";
              Pool.status := Pool.active;
              Pool.creator_address := toLowerCase creatorAddress;
              Pool.contract_address := poolAddress;
              Pool.token_address :=
                or_else (Body.tokenAddress body)
                  (or_else NEXT_PUBLIC_TOKEN_ADDRESS "");
              Pool.members_count := Z.of_nat (length members);
              Pool.total_saved := 0;
              Pool.progress := 0;
              Pool.frequency := Some (or_else (Body.frequency body) "weekly");
              Pool.next_payout := Some next_payout;
              Pool.created_at := created_at;
              Pool.tx_hash := truthy (Body.txHash body) |} in
         let poolsData := poolsData ++ [newPool] in
         '(poolMembersData, poolActivityData) ←
           match members with
           | [] => mret (poolMembersData, poolActivityData)
           | _ :: _ =>
               entries ← memberEntries id (Body.contributionAmount body)
                           members 0;
               activityTime ← Date_now;
               activityCreated ← new_Date_toISOString;
               let activity :=
                 {| Activity.id := "activity_" +:+ pretty activityTime;
                    Activity.pool_id := id;
                    Activity.activity_type := "created";
                    Activity.user_address := creatorAddress;
                    Activity.amount := None;
                    Activity.description :=
                      "Pool created with " +:+ pretty (length members)
                        +:+ " members";
                    Activity.created_at := activityCreated;
                    Activity.tx_hash := Body.txHash body |} in
               mret (JsObject.set poolMembersData id entries,
                     poolActivityData ++ [activity])
           end;
         _ ← writeDataFile POOLS_FILE poolsData;
         _ ← writeDataFile ACTIVITIES_FILE poolActivityData;
         _ ← writeDataFile MEMBERS_FILE poolMembersData;
         mret (json (PoolRecord newPool) 201)
     | _, _, _ => mret (json (ErrorBody "Missing required fields") 400)
     end)
    (fun _ => mret (json (ErrorBody "Internal server error") 500)).

End WithEnvironment.

End WithFileSystem.

(** The file system on which every operation succeeds.  A handler that is
    not given another file system runs on this one. *)
#[global] Instance reliable : FileSystem :=
  {| mkdir_fails := fun _ => false;
     writeFile_fails := fun _ _ _ _ => None |}.

End PoolsRoute.

(** ** The pool creation hook (hooks/useHajoContracts.ts) *)

Module Hooks.
Import Scanner.

(** [const frequencyMap: Record<string, number>] of [useCreateRotational] *)
Definition frequencyMap : gmap string Z :=
  {[ "daily" := 86400; "weekly" := 604800; "biweekly" := 1209600;
     "monthly" := 2592000 ]}.

(** [const roundDuration = frequencyMap[frequency] || 604800]: a number of
    seconds, or, for a name that [frequencyMap] inherits from
    [Object.prototype], the inherited member, which is no number. *)
Inductive RoundDuration : Type :=
| Seconds (n : Z)
| NotANumber (inherited : string).

Definition roundDuration (frequency : string) : RoundDuration :=
  match JsObject.get frequencyMap frequency with
  | JsObject.Own n => Seconds (PoolsRoute.number_or_else (Some n) 604800)
  | JsObject.Inherited name => NotANumber name
  | JsObject.Undefined => Seconds 604800
  end.

(** What one render of [useCreateRotational] hands to its effect:
    [isSuccess] and [data] of the transaction, and the public client. *)
Record Render : Type := {
  isSuccess : bool;
  data : option string;
  publicClient : option PublicClient
}.

Section WithEnvironment.

(** [process.env.NEXT_PUBLIC_FACTORY_ADDRESS] *)
Variable NEXT_PUBLIC_FACTORY_ADDRESS : option string.

(** The effect of one render, run until the promise of [extractPoolAddress]
    settles: [setPoolAddress(addr)] when it resolves, nothing when the guard
    [isSuccess && data && publicClient] fails or the promise is rejected. *)
Definition effect (poolAddress : option string) (render : Render)
  : option string :=
  if isSuccess render then
    match PoolsRoute.truthy (data render), publicClient render with
    | Some hash, Some client =>
        match extractPoolAddress NEXT_PUBLIC_FACTORY_ADDRESS client hash with
        | Ok addr => addr
        | Throw _ => poolAddress
        end
    | _, _ => poolAddress
    end
  else poolAddress.

(** The state [poolAddress] after a sequence of renders, from
    [useState(null)]. *)
Definition poolAddress_after (renders : list Render) : option string :=
  fold_left effect renders None.

End WithEnvironment.

End Hooks.

(** ** The dashboard header *)

Module DashboardHeader.

(** [s.slice(start, end)]: each bound counts from the end when negative and
    is clamped to the string; the result is empty when the bounds cross. *)
Definition slice_range (start stop : Z) (s : string) : string :=
  let len := Z.of_nat (String.length s) in
  let clamp := fun i => if i <? 0 then Z.max (len + i) 0 else Z.min i len in
  let from := clamp start in
  let to := clamp stop in
  string_take (Z.to_nat (to - from)) (string_drop (Z.to_nat from) s).

(** The text of the wallet button,
    [{address?.slice(0, 6)}...{address?.slice(-4)}]: an [undefined] child
    renders as nothing. *)
Definition wallet_label (address : option string) : string :=
  match address with
  | Some a => slice_range 0 6 a +:+ "..." +:+ slice (-4) a
  | None => "..."
  end.

End DashboardHeader.

(** * Vocabulary of the specification *)

(** The characters of the class [[a-fA-F0-9]], one by one. *)
Definition hex_digits : list ascii :=
  ["0"; "1"; "2"; "3"; "4"; "5"; "6"; "7"; "8"; "9";
   "a"; "b"; "c"; "d"; "e"; "f"; "A"; "B"; "C"; "D"; "E"; "F"]%char.

Definition IsHexDigit (c : ascii) : Prop := c ∈ hex_digits.

(** A strict 20-byte hex address: the marker [0x], then exactly 40
    hexadecimal characters. *)
Definition StrictAddress (a : string) : Prop :=
  exists h, a = "0x" +:+ h /\ String.length h = 40%nat
            /\ Forall IsHexDigit (list_ascii_of_string h).

(** The log was emitted by the factory: it has an address, equal to the
    factory address up to letter case. *)
Definition from_factory (factory : string) (log : option Scanner.Log) : Prop :=
  exists l a, log = Some l /\ Scanner.address l = Some a
              /\ toLowerCase a = toLowerCase factory.

(** The second topic of a log with at least two topics. *)
Definition second_topic (log : option Scanner.Log) : option string :=
  l ← log; ts ← Scanner.topics l; ts !! 1%nat.

(** [suffix] is the last 40 characters of [topic], all hexadecimal. *)
Definition ends_in_address (topic suffix : string) : Prop :=
  exists prefix, topic = prefix +:+ suffix /\ String.length suffix = 40%nat
                 /\ Forall IsHexDigit (list_ascii_of_string suffix).

(** A log the scanner passes over: not from the factory, or with fewer than
    two topics, or with a second topic that does not end in an address. *)
Definition passed_over (factory : string) (log : option Scanner.Log) : Prop :=
  ~ from_factory factory log
  \/ second_topic log = None
  \/ exists t1, second_topic log = Some t1
                /\ forall suffix, ~ ends_in_address t1 suffix.

(** A malformed log: a [null] entry, or one without [address] or without
    [topics]. *)
Definition malformed (log : option Scanner.Log) : Prop :=
  log = None
  \/ exists l, log = Some l
               /\ (Scanner.address l = None \/ Scanner.topics l = None).

(** A required field of a request is present: it is there and not empty. *)
Definition present (x : option string) : Prop :=
  exists s, x = Some s /\ s <> "".

Definition missing_or_empty (x : option string) : Prop :=
  x = None \/ x = Some "".

(** A request that passes the validation of [POST]. *)
Definition valid_request (body : Body.t) : Prop :=
  present (Body.name body) /\ present (Body.creatorAddress body)
  /\ present (Body.poolAddress body).

(** The members a request supplies; none when the list is absent. *)
Definition supplied_members (body : Body.t) : list string :=
  default [] (Body.members body).

Definition ValidTime (t : Z) : Prop :=
  -8640000000000000 <= t <= 8640000000000000.

(** Every reading of the clock is a valid time value. *)
Definition sane_clock (w : PoolsRoute.World) : Prop :=
  forall n, ValidTime (PoolsRoute.clock w n).

(** The time value of [next_payout]: the second clock reading of [POST]
    plus the round duration in milliseconds. *)
Definition payout_time (body : Body.t) (w : PoolsRoute.World) : Z :=
  PoolsRoute.clock w (S (PoolsRoute.ticks w))
  + PoolsRoute.number_or_else (Body.roundDuration body) 604800 * 1000.

(** The id [generatePoolId] assigns in the world [w]. *)
Definition assigned_id (w : PoolsRoute.World) : string :=
  "pool_" +:+ pretty (PoolsRoute.clock w (PoolsRoute.ticks w)) +:+ "_"
    +:+ substr 2 9 (PoolsRoute.random w (PoolsRoute.draws w)).

(** Two strings that differ at most in the case of their letters. *)
Inductive same_up_to_case : string -> string -> Prop :=
| same_empty : same_up_to_case "" ""
| same_char (c1 c2 : ascii) (s1 s2 : string) :
    lower_char c1 = lower_char c2 -> same_up_to_case s1 s2 ->
    same_up_to_case (String c1 s1) (String c2 s2).

(** ** What a successful [POST] creates, as functions of the request and of
    the world the handler starts in *)

Module Created.
Import PoolsRoute.

(** The world after [n] more clock readings and [d] more random draws. *)
Definition elapsed (n d : nat) (w : World) : World :=
  {| disk := disk w; clock := clock w; ticks := (n + ticks w)%nat;
     random := random w; draws := (d + draws w)%nat |}.

(** The [.data] directory once [ensureDataDir] has run. *)
Definition with_data_dir (d : Disk) : Disk :=
  {| data_dir := true; pools_file := pools_file d;
     activities_file := activities_file d; members_file := members_file d |}.

Definition pool (env : option string) (body : Body.t) (w : World) : Pool.t :=
  {| Pool.id := assigned_id w;
     Pool.name := default "" (Body.name body);
     Pool.description := Body.description body;
     Pool.type := or_else (Body.poolType body) "rotational";
     Pool.status := Pool.active;
     Pool.creator_address := toLowerCase (default "" (Body.creatorAddress body));
     Pool.contract_address := default "" (Body.poolAddress body);
     Pool.token_address := or_else (Body.tokenAddress body) (or_else env "");
     Pool.members_count := Z.of_nat (length (supplied_members body));
     Pool.total_saved := 0;
     Pool.progress := 0;
     Pool.frequency := Some (or_else (Body.frequency body) "weekly");
     Pool.next_payout := Some (JsDate.iso_string (payout_time body w));
     Pool.created_at := JsDate.iso_string (clock w (S (S (ticks w))));
     Pool.tx_hash := truthy (Body.txHash body) |}.

(** The member records of the addresses [ms], the first of them with the
    ordinal [index] and the clock reading number [tick]. *)
Fixpoint member_records (poolId : string) (contributionAmount : option string)
    (clk : nat -> Z) (tick index : nat) (ms : list string) : list Member.t :=
  match ms with
  | [] => []
  | memberAddress :: rest =>
      {| Member.id := "member_" +:+ poolId +:+ "_" +:+ pretty index;
         Member.member_address := toLowerCase memberAddress;
         Member.contribution_amount :=
           Some (JsNumber.parseFloat (or_else contributionAmount "0"));
         Member.status := Member.pending;
         Member.joined_at := JsDate.iso_string (clk tick) |}
      :: member_records poolId contributionAmount clk (S tick) (S index) rest
  end.

(** The member records of a request as [POST] builds them, and as the
    members file holds them. *)
Definition built_members (body : Body.t) (w : World) : list Member.t :=
  member_records (assigned_id w) (Body.contributionAmount body) (clock w)
    (S (S (S (ticks w)))) 0 (supplied_members body).

Definition members (body : Body.t) (w : World) : list Member.t :=
  JSON.member <$> built_members body w.

Definition activity (body : Body.t) (w : World) : Activity.t :=
  let n := length (supplied_members body) in
  {| Activity.id :=
       "activity_" +:+ pretty (clock w (n + S (S (S (ticks w))))%nat);
     Activity.pool_id := assigned_id w;
     Activity.activity_type := "created";
     Activity.user_address := default "" (Body.creatorAddress body);
     Activity.amount := None;
     Activity.description := "Pool created with " +:+ pretty n +:+ " members";
     Activity.created_at :=
       JsDate.iso_string (clock w (S (n + S (S (S (ticks w)))))%nat);
     Activity.tx_hash := Body.txHash body |}.

(** The clock readings a successful [POST] takes. *)
Definition readings (body : Body.t) : nat :=
  match supplied_members body with
  | [] => 3
  | _ :: _ => 2 + (length (supplied_members body) + 3)
  end.

(** The store after a successful [POST]. *)
Definition store (env : option string) (body : Body.t) (w : World) : Disk :=
  {| data_dir := true;
     pools_file := Some (pools_of w ++ [pool env body w]);
     activities_file :=
       Some (match supplied_members body with
             | [] => activities_of w
             | _ :: _ => activities_of w ++ [activity body w]
             end);
     members_file :=
       Some (match supplied_members body with
             | [] => members_of w
             | _ :: _ => <[assigned_id w := members body w]> (members_of w)
             end) |}.

End Created.

(** The characters of a printed integer. *)
Definition decimal_chars : list ascii :=
  ["0"; "1"; "2"; "3"; "4"; "5"; "6"; "7"; "8"; "9"; "-"]%char.


(** The number is written with a minus sign: [-] is the first character
    after the leading white space. *)
Definition has_minus_sign (s : string) : Prop :=
  exists r, JsNumber.trim_start s = String "-" r.

(** [typeof x === 'number' && x >= 0] for a stored amount. *)
Definition non_negative_number (x : option JsNumber.JsNumber) : bool :=
  match x with
  | Some n => JsNumber.is_non_negative n
  | None => false
  end.

(** ** Further vocabulary *)

(** The log carries an address equal to the factory's up to letter case. *)
Definition emitted_by (factory : string) (log : option Scanner.Log) : bool :=
  match log with
  | Some l =>
      match Scanner.address l with
      | Some a => bool_decide (toLowerCase a = toLowerCase factory)
      | None => false
      end
  | None => false
  end.

(** A 32-byte topic: [0x] and 64 hexadecimal characters, [h]. *)
Definition is_word32 (topic h : string) : Prop :=
  topic = "0x" +:+ h /\ String.length h = 64%nat
  /\ Forall IsHexDigit (list_ascii_of_string h).

(** The keywords of [frequencyMap]. *)
Definition frequency_keywords : list string :=
  ["daily"; "weekly"; "biweekly"; "monthly"].

(** Every date a [POST] formats is a valid one: the payout date, the
    creation date and, when members are supplied, the join date of each
    member and the date of the activity. *)
Definition dates_valid (body : Body.t) (w : PoolsRoute.World) : Prop :=
  let n := length (supplied_members body) in
  let t := PoolsRoute.ticks w in
  ValidTime (payout_time body w)
  /\ ValidTime (PoolsRoute.clock w (S (S t)))
  /\ (supplied_members body <> [] ->
      (forall i, (i < n)%nat -> ValidTime (PoolsRoute.clock w (i + S (S (S t)))%nat))
      /\ ValidTime (PoolsRoute.clock w (S (n + S (S (S t))))%nat)).

(** The state [poolAddress] of the hook holds nothing or a strict address. *)
Definition null_or_address (poolAddress : option string) : Prop :=
  poolAddress = None \/ exists a, poolAddress = Some a /\ StrictAddress a.

(** ** The ways a [POST] ends on a file system that may fail *)

Module Written.
Import PoolsRoute.

(** What a [POST] that gets as far as its writes hands to [writeDataFile]. *)
Definition pools (env : option string) (body : Body.t) (w : World)
  : list Pool.t :=
  pools_of w ++ [Created.pool env body w].

Definition activities (body : Body.t) (w : World) : list Activity.t :=
  match supplied_members body with
  | [] => activities_of w
  | _ :: _ => activities_of w ++ [Created.activity body w]
  end.

Definition members (body : Body.t) (w : World)
  : gmap string (list Member.t) :=
  match supplied_members body with
  | [] => members_of w
  | _ :: _ =>
      JsObject.set (members_of w) (assigned_id w)
        (Created.built_members body w)
  end.

(** The world in which the first write runs, and the worlds after the
    first and after the second write. *)
Definition first (body : Body.t) (w : World) : World :=
  with_disk (Created.with_data_dir (disk w))
    (Created.elapsed (Created.readings body) 1 w).

Definition second (env : option string) (body : Body.t) (w : World) : World :=
  with_disk
    (file_store POOLS_FILE (JSON_stringify POOLS_FILE (pools env body w))
       (disk (first body w)))
    (first body w).

Definition third (env : option string) (body : Body.t) (w : World) : World :=
  with_disk
    (file_store ACTIVITIES_FILE
       (JSON_stringify ACTIVITIES_FILE (activities body w))
       (disk (second env body w)))
    (second env body w).

End Written.

Section Outcomes.

Import PoolsRoute.

Context {fs : FileSystem}.

Variable env : option string.

(** How [POST] answers the request [body] in the world [w], and the disk it
    leaves: the directory cannot be made; a required field is missing; a
    date is out of range; one of the three writes fails, after the writes
    before it have been done; or the pool is created. *)
Inductive PostOutcome (body : Body.t) (w : World) : Response -> Disk -> Prop :=
| no_directory :
    data_dir (disk w) = false -> mkdir_fails w = true ->
    PostOutcome body w (json (ErrorBody "Internal server error") 500) (disk w)
| missing_field :
    ~ valid_request body ->
    PostOutcome body w (json (ErrorBody "Missing required fields") 400)
      (Created.with_data_dir (disk w))
| invalid_date :
    valid_request body -> ~ dates_valid body w ->
    PostOutcome body w (json (ErrorBody "Internal server error") 500)
      (Created.with_data_dir (disk w))
| pools_not_written (remains : option (list Pool.t)) :
    valid_request body -> dates_valid body w ->
    writeFile_fails _ POOLS_FILE
      (JSON_stringify POOLS_FILE (Written.pools env body w))
      (Written.first body w) = Some remains ->
    PostOutcome body w (json (ErrorBody "Internal server error") 500)
      (file_put POOLS_FILE remains (disk (Written.first body w)))
| activities_not_written (remains : option (list Activity.t)) :
    valid_request body -> dates_valid body w ->
    writeFile_fails _ POOLS_FILE
      (JSON_stringify POOLS_FILE (Written.pools env body w))
      (Written.first body w) = None ->
    writeFile_fails _ ACTIVITIES_FILE
      (JSON_stringify ACTIVITIES_FILE (Written.activities body w))
      (Written.second env body w) = Some remains ->
    PostOutcome body w (json (ErrorBody "Internal server error") 500)
      (file_put ACTIVITIES_FILE remains (disk (Written.second env body w)))
| members_not_written (remains : option (gmap string (list Member.t))) :
    valid_request body -> dates_valid body w ->
    writeFile_fails _ POOLS_FILE
      (JSON_stringify POOLS_FILE (Written.pools env body w))
      (Written.first body w) = None ->
    writeFile_fails _ ACTIVITIES_FILE
      (JSON_stringify ACTIVITIES_FILE (Written.activities body w))
      (Written.second env body w) = None ->
    writeFile_fails _ MEMBERS_FILE
      (JSON_stringify MEMBERS_FILE (Written.members body w))
      (Written.third env body w) = Some remains ->
    PostOutcome body w (json (ErrorBody "Internal server error") 500)
      (file_put MEMBERS_FILE remains (disk (Written.third env body w)))
| created :
    valid_request body -> dates_valid body w ->
    writeFile_fails _ POOLS_FILE
      (JSON_stringify POOLS_FILE (Written.pools env body w))
      (Written.first body w) = None ->
    writeFile_fails _ ACTIVITIES_FILE
      (JSON_stringify ACTIVITIES_FILE (Written.activities body w))
      (Written.second env body w) = None ->
    writeFile_fails _ MEMBERS_FILE
      (JSON_stringify MEMBERS_FILE (Written.members body w))
      (Written.third env body w) = None ->
    PostOutcome body w (json (PoolRecord (Created.pool env body w)) 201)
      (Created.store env body w).

End Outcomes.


(** * Concrete receipts, requests and worlds *)

Module Fixtures.
Import Scanner PoolsRoute.

Definition factory : option string :=
  Some "0x5FbDB2315678afecb367f032d93F642f64180aa3".

Definition topic0 : string :=
  "0x1111111111111111111111111111111111111111111111111111111111111111".

(** The [PoolCreated] log of the factory: the pool address is the second
    topic, right-aligned in 32 bytes. *)
Definition pool_created : Log :=
  {| address := Some "0x5fbdb2315678AFECB367f032d93f642f64180aa3";
     topics := Some [topic0;
       "0x000000000000000000000000abc1230000000000000000000000000000000def";
       "0x0000000000000000000000002222222222222222222222222222222222222222"] |}.

(** A second log of the factory, for another pool. *)
Definition pool_created_again : Log :=
  {| address := Some "0x5FbDB2315678afecb367f032d93F642f64180aa3";
     topics := Some [topic0;
       "0x0000000000000000000000004444444444444444444444444444444444444444"] |}.

(** A token transfer: a log of another contract. *)
Definition transfer : Log :=
  {| address := Some "0x9fE46736679d2D9a65F0992F2272dE9f3c7fa6e0";
     topics := Some [topic0;
       "0x0000000000000000000000003333333333333333333333333333333333333333"] |}.

(** A log without topics. *)
Definition no_topics : Log :=
  {| address := Some "0x5FbDB2315678afecb367f032d93F642f64180aa3";
     topics := None |}.

Definition client (r : Outcome (option Receipt)) : PublicClient :=
  fun _ => r.

Definition receipt (ls : list (option Log)) : Outcome (option Receipt) :=
  Ok (Some {| logs := Some ls |}).

Definition empty_disk : Disk :=
  {| data_dir := false; pools_file := None; activities_file := None;
     members_file := None |}.

(** A clock that advances by a millisecond at every reading, up to the
    last instant a date can hold. *)
Definition world0 : World :=
  {| disk := empty_disk;
     clock := fun n => Z.min (1700000000000 + Z.of_nat n) 8640000000000000;
     ticks := 0;
     random := fun _ => "0.4fzyo82mvyr";
     draws := 0 |}.

(** Calls within one millisecond, and two random numbers whose base-36
    expansions agree on the nine characters that [substr(2, 9)] keeps. *)
Definition same_millisecond : World :=
  {| disk := empty_disk;
     clock := fun _ => 1700000000000;
     ticks := 0;
     random := fun n => match n with
                        | O => "0.4fzyo82mvyr"
                        | S _ => "0.4fzyo82mvk7"
                        end;
     draws := 0 |}.

Definition request (name : string) (members : option (list string))
    (contributionAmount : option string) : Body.t :=
  {| Body.name := Some name;
     Body.description := Some "Monthly savings circle";
     Body.poolType := None;
     Body.creatorAddress := Some "0xABC";
     Body.poolAddress := Some "0xDEF";
     Body.tokenAddress := None;
     Body.members := members;
     Body.contributionAmount := contributionAmount;
     Body.roundDuration := None;
     Body.frequency := None;
     Body.txHash := None |}.

Definition without_members : Body.t := request "Test" None None.

Definition with_members (contributionAmount : option string) : Body.t :=
  request "Test" (Some ["0xAA"; "0xBb"]) contributionAmount.

Definition without_pool_address : Body.t :=
  {| Body.name := Some "Test";
     Body.description := None;
     Body.poolType := None;
     Body.creatorAddress := Some "0xABC";
     Body.poolAddress := None;
     Body.tokenAddress := None;
     Body.members := Some ["0xAA"];
     Body.contributionAmount := Some "10";
     Body.roundDuration := None;
     Body.frequency := None;
     Body.txHash := None |}.

(** The world after [POST] has served [body] in [w]. *)
Definition after (body : Body.t) (w : World) : World :=
  (POST None body w).2.

End Fixtures.

(** * Further requests and receipts *)

Module MoreFixtures.
Import Scanner PoolsRoute Fixtures.

(** The factory address as a deployment script prints it, in lower case. *)
Definition factory_lower : option string :=
  Some "0x5fbdb2315678afecb367f032d93f642f64180aa3".

(** The 64 hexadecimal characters of the second topic of [pool_created]. *)
Definition pool_word : string :=
  "000000000000000000000000abc1230000000000000000000000000000000def".

(** A round of ten million million seconds: the payout date is past the
    last instant a date can hold. *)
Definition far_payout : Body.t :=
  {| Body.name := Some "Test";
     Body.description := None;
     Body.poolType := None;
     Body.creatorAddress := Some "0xABC";
     Body.poolAddress := Some "0xDEF";
     Body.tokenAddress := None;
     Body.members := Some ["0xAA"];
     Body.contributionAmount := Some "10";
     Body.roundDuration := Some 10000000000000;
     Body.frequency := None;
     Body.txHash := None |}.

Definition created : Pool.t :=
  Created.pool None (with_members (Some "10")) world0.

(** A store whose only pool has the id [constructor], the name of a
    property that every object inherits; no members file. *)
Definition named_constructor : Pool.t :=
  {| Pool.id := "constructor";
     Pool.name := "Test";
     Pool.description := None;
     Pool.type := "rotational";
     Pool.status := Pool.active;
     Pool.creator_address := "0xabc";
     Pool.contract_address := "0xDEF";
     Pool.token_address := "";
     Pool.members_count := 0;
     Pool.total_saved := 0;
     Pool.progress := 0;
     Pool.frequency := Some "weekly";
     Pool.next_payout := None;
     Pool.created_at := "2023-11-14T22:13:20.002Z";
     Pool.tx_hash := None |}.

Definition inherited_id : World :=
  with_disk
    {| data_dir := true; pools_file := Some [named_constructor];
       activities_file := None; members_file := None |}
    world0.



(** A file system on which the activities file cannot be written: the
    write is rejected and the file is left as it was. *)
Definition activities_rejected : FileSystem :=
  {| mkdir_fails := fun _ => false;
     writeFile_fails := fun T f _ w =>
       match f in File T' return option (option T') with
       | ACTIVITIES_FILE => Some (activities_file (disk w))
       | POOLS_FILE | MEMBERS_FILE => None
       end |}.

(** A file system on which the directory cannot be made. *)
Definition no_directory_made : FileSystem :=
  {| mkdir_fails := fun _ => true;
     writeFile_fails := fun _ _ _ _ => None |}.

End MoreFixtures.
(** * Evaluation of the model on concrete inputs *)

Example toLowerCase_hex : toLowerCase "0xAbCDeF12" = "0xabcdef12".
Proof. reflexivity. Qed.

Example slice_short : slice (-40) "0xabc" = "0xabc".
Proof. reflexivity. Qed.

Example slice_topic :
  slice (-40) "0x000000000000000000000000abc1230000000000000000000000000000000def"
  = "abc1230000000000000000000000000000000def".
Proof. reflexivity. Qed.

Example substr_random : substr 2 9 "0.4fzyo82mvyr" = "4fzyo82mv".
Proof. reflexivity. Qed.

Example substr_zero : substr 2 9 "0" = "".
Proof. reflexivity. Qed.

Module ScannerExamples.
Import Scanner Fixtures.

Example scan_finds_pool :
  extractPoolAddress factory
    (client (Ok (Some {| logs := Some [Some transfer; None; Some pool_created] |})))
    "0xfeed"
  = Ok (Some "0xabc1230000000000000000000000000000000def").
Proof. reflexivity. Qed.

Example scan_rejected :
  extractPoolAddress factory (client (Throw Rejected)) "0xfeed" = Ok None.
Proof. reflexivity. Qed.

End ScannerExamples.

Module NumberExamples.
Import JsNumber.

Example parseFloat_plain : parseFloat "100" = of_Z 100.
Proof. reflexivity. Qed.

Example parseFloat_fraction :
  parseFloat "  0.25eth" = S754_finite false 4503599627370496 (-54).
Proof. reflexivity. Qed.

Example parseFloat_tenth :
  parseFloat "0.1" = S754_finite false 7205759403792794 (-56).
Proof. reflexivity. Qed.

Example parseFloat_exponent : parseFloat "-.5e-3x" = nearest true 5 (-4).
Proof. reflexivity. Qed.

Example parseFloat_dangling_exponent : parseFloat "1e+" = of_Z 1.
Proof. reflexivity. Qed.

Example parseFloat_dot : parseFloat "." = NaN.
Proof. reflexivity. Qed.

Example parseFloat_text : parseFloat "ten" = NaN.
Proof. reflexivity. Qed.

Example parseFloat_infinity : parseFloat "-Infinity" = Infinity true.
Proof. reflexivity. Qed.

Example parseFloat_overflow : parseFloat "1e400" = Infinity false.
Proof. reflexivity. Qed.

Example parseFloat_largest :
  parseFloat "1.7976931348623157e308"
  = S754_finite false 9007199254740991 971.
Proof. reflexivity. Qed.

Example parseFloat_underflow : parseFloat "2e-324" = S754_zero false.
Proof. reflexivity. Qed.

Example parseFloat_least : parseFloat "5e-324" = S754_finite false 1 (-1074).
Proof. reflexivity. Qed.

Example parseFloat_tie_to_even :
  parseFloat "9007199254740993" = of_Z 9007199254740992.
Proof. reflexivity. Qed.

Example to_Z_of_Z : to_Z (of_Z (-5)) = Some (-5).
Proof. reflexivity. Qed.

Example to_Z_fraction : to_Z (parseFloat "0.5") = None.
Proof. reflexivity. Qed.

Example minus_zero_is_non_negative :
  is_non_negative (parseFloat "-0") = true.
Proof. reflexivity. Qed.

Example json_nan : JSON.number (Some (parseFloat "abc")) = None.
Proof. reflexivity. Qed.

Example json_infinity : JSON.number (Some (parseFloat "1e400")) = None.
Proof. reflexivity. Qed.

Example json_minus_zero :
  JSON.number (Some (parseFloat "-0")) = Some (of_Z 0).
Proof. reflexivity. Qed.

Example json_number :
  JSON.number (Some (parseFloat "-2.5")) = Some (parseFloat "-2.5").
Proof. reflexivity. Qed.

End NumberExamples.

Module DateExamples.
Import JsDate.

Example iso_epoch : toISOString 0 = Ok "1970-01-01T00:00:00.000Z".
Proof. reflexivity. Qed.

Example iso_2023 :
  toISOString 1700000000123 = Ok "2023-11-14T22:13:20.123Z".
Proof. reflexivity. Qed.

Example iso_leap_day :
  toISOString 1709164800000 = Ok "2024-02-29T00:00:00.000Z".
Proof. reflexivity. Qed.

Example iso_before_epoch :
  toISOString (-1) = Ok "1969-12-31T23:59:59.999Z".
Proof. reflexivity. Qed.

Example iso_last_instant :
  toISOString 8640000000000000 = Ok "+275760-09-13T00:00:00.000Z".
Proof. reflexivity. Qed.

Example iso_first_instant :
  toISOString (-8640000000000000) = Ok "-271821-04-20T00:00:00.000Z".
Proof. reflexivity. Qed.

Example iso_out_of_range :
  toISOString 8640000000000001 = Throw RangeError.
Proof. reflexivity. Qed.

Example iso_shape : is_iso_string "2023-11-14T22:13:20.123Z" = true.
Proof. reflexivity. Qed.

End DateExamples.

Module RouteExamples.
Import PoolsRoute Fixtures.

Example post_assigns_id :
  (POST None without_members world0).1
  = Ok (json (PoolRecord (Created.pool None without_members world0)) 201)
  /\ Pool.id (Created.pool None without_members world0)
     = "pool_1700000000000_4fzyo82mv"
  /\ Pool.creator_address (Created.pool None without_members world0) = "0xabc"
  /\ Pool.next_payout (Created.pool None without_members world0)
     = Some "2023-11-21T22:13:20.001Z"
  /\ Pool.created_at (Created.pool None without_members world0)
     = "2023-11-14T22:13:20.002Z".
Proof. by vm_compute. Qed.

Example post_out_of_range :
  (POST None
     {| Body.name := Some "Test"; Body.description := None;
        Body.poolType := None; Body.creatorAddress := Some "0xABC";
        Body.poolAddress := Some "0xDEF"; Body.tokenAddress := None;
        Body.members := None; Body.contributionAmount := None;
        Body.roundDuration := Some 10000000000000; Body.frequency := None;
        Body.txHash := None |} world0).1
  = Ok (json (ErrorBody "Internal server error") 500).
Proof. by vm_compute. Qed.

Example get_lists_all :
  (GET {| Query.id := None; Query.creator := None |}
     (after without_members world0)).1
  = Ok (json (PoolList [Created.pool None without_members world0]) 200).
Proof. by vm_compute. Qed.

(** The amount ["abc"] is stored as [null], and ["1e400"] too. *)
Example post_stores_null :
  members_of (after (with_members (Some "abc")) world0)
  = members_of (after (with_members (Some "1e400")) world0)
  /\ Member.contribution_amount
       <$> default [] (members_of (after (with_members (Some "abc")) world0)
                        !! "pool_1700000000000_4fzyo82mv")
     = [None; None].
Proof. by vm_compute. Qed.

(** A stored pool with the id [constructor] and no member list: the lookup
    finds the property that the object inherits. *)
Example get_inherited_id :
  (GET {| Query.id := Some "constructor"; Query.creator := None |}
     MoreFixtures.inherited_id).1
  = Ok (json (PoolDetailInherited MoreFixtures.named_constructor []
                "constructor") 200).
Proof. by vm_compute. Qed.

(** The directory is missing and cannot be made: the [catch] of [GET]
    answers. *)
Example get_without_directory :
  (GET (fs := MoreFixtures.no_directory_made)
     {| Query.id := None; Query.creator := None |} world0).1
  = Ok (json (ErrorBody "Internal server error") 500).
Proof. by vm_compute. Qed.

(** The write of the activities file is rejected: the answer is a 500, and
    the pool is in the pools file. *)
Example post_partial_write :
  (POST (fs := MoreFixtures.activities_rejected) None
     (with_members (Some "10")) world0).1
  = Ok (json (ErrorBody "Internal server error") 500)
  /\ pools_file
       (disk (POST (fs := MoreFixtures.activities_rejected) None
                (with_members (Some "10")) world0).2)
     = Some [Created.pool None (with_members (Some "10")) world0]
  /\ members_file
       (disk (POST (fs := MoreFixtures.activities_rejected) None
                (with_members (Some "10")) world0).2)
     = None.
Proof. by vm_compute. Qed.

End RouteExamples.

Module HookExamples.
Import Hooks DashboardHeader.

Example roundDuration_monthly : roundDuration "monthly" = Seconds 2592000.
Proof. reflexivity. Qed.

Example roundDuration_unknown : roundDuration "yearly" = Seconds 604800.
Proof. reflexivity. Qed.

Example roundDuration_inherited :
  roundDuration "constructor" = NotANumber "constructor".
Proof. reflexivity. Qed.

Example wallet_label_address :
  wallet_label (Some "0x5FbDB2315678afecb367f032d93F642f64180aa3")
  = "0x5FbD...0aa3".
Proof. reflexivity. Qed.

Example wallet_label_short : wallet_label (Some "0xab") = "0xab...0xab".
Proof. reflexivity. Qed.

Example slice_range_crossed : slice_range 4 2 "abcdef" = "".
Proof. reflexivity. Qed.

End HookExamples.

(** * Properties of the strings the handlers build *)

#[global] Arguments matches_address_pattern : simpl never.
#[global] Arguments slice : simpl never.
#[global] Arguments substr : simpl never.

Section StringFacts.

Lemma length_append (s1 s2 : string) :
  String.length (s1 +:+ s2) = (String.length s1 + String.length s2)%nat.
Proof. induction s1 as [|c s1 IH]; simpl; [reflexivity | by rewrite IH]. Qed.

Lemma drop_append (s1 s2 : string) :
  string_drop (String.length s1) (s1 +:+ s2) = s2.
Proof. induction s1 as [|c s1 IH]; simpl; [by destruct s2 | exact IH]. Qed.

Lemma drop_all (s : string) : string_drop 0 s = s.
Proof. by destruct s. Qed.

(** [slice(-n)] keeps a suffix of [n] characters. *)
Lemma slice_suffix (n : nat) (prefix suffix : string) :
  (0 < n)%nat -> String.length suffix = n ->
  slice (- Z.of_nat n) (prefix +:+ suffix) = suffix.
Proof.
  intros Hn Hlen. unfold slice.
  destruct (Z.ltb_spec (- Z.of_nat n) 0) as [_|?]; [|lia].
  rewrite length_append, Hlen.
  replace (Z.to_nat (Z.max (Z.of_nat (String.length prefix + n) + - Z.of_nat n) 0))
    with (String.length prefix) by lia.
  apply drop_append.
Qed.

(** A string shorter than [n] is its own [slice(-n)]. *)
Lemma slice_short_string (n : nat) (s : string) :
  (String.length s <= n)%nat -> (0 < n)%nat -> slice (- Z.of_nat n) s = s.
Proof.
  intros Hlen Hn. unfold slice.
  destruct (Z.ltb_spec (- Z.of_nat n) 0) as [_|?]; [|lia].
  replace (Z.to_nat (Z.max (Z.of_nat (String.length s) + - Z.of_nat n) 0))
    with 0%nat by lia.
  apply drop_all.
Qed.

(** What [slice] returns is a suffix of its argument. *)
Lemma drop_is_suffix (n : nat) (s : string) :
  exists prefix, s = prefix +:+ string_drop n s.
Proof.
  revert s. induction n as [|n IH]; intros s.
  - exists "". by destruct s.
  - destruct s as [|c s]; [by exists ""|].
    destruct (IH s) as [p Hp]. exists (String c p). rewrite Hp at 1. reflexivity.
Qed.

Lemma toLowerCase_length (s : string) :
  String.length (toLowerCase s) = String.length s.
Proof. induction s as [|c s IH]; simpl; [reflexivity | by rewrite IH]. Qed.

End StringFacts.

Lemma is_hex_digit_decides (c : ascii) :
  is_hex_digit c = bool_decide (IsHexDigit c).
Proof. by destruct c as [[] [] [] [] [] [] [] []]; vm_compute. Qed.

Lemma is_hex_digit_spec (c : ascii) :
  is_hex_digit c = true <-> IsHexDigit c.
Proof. rewrite is_hex_digit_decides. apply bool_decide_eq_true. Qed.

Lemma hex_digits_then_end_spec (n : nat) (s : string) :
  hex_digits_then_end n s = true
  <-> String.length s = n /\ Forall IsHexDigit (list_ascii_of_string s).
Proof.
  revert s. induction n as [|n IH]; intros [|c s]; simpl.
  - split; [by split; [|constructor] | done].
  - split; [done | intros [? _]; done].
  - split; [done | intros [? _]; done].
  - rewrite andb_true_iff, is_hex_digit_spec, IH. split.
    + intros [Hc [Hlen Hs]]. split; [by rewrite Hlen | by constructor].
    + intros [Hlen Hs]. inversion Hs; subst. split; [done|]. split; [lia | done].
Qed.

(** The regular expression accepts exactly the strict addresses. *)
Lemma matches_address_pattern_spec (a : string) :
  matches_address_pattern a = true <-> StrictAddress a.
Proof.
  unfold matches_address_pattern, StrictAddress. split.
  - destruct a as [|c0 [|c1 rest]]; try done.
    rewrite !andb_true_iff, !Ascii.eqb_eq, hex_digits_then_end_spec.
    intros [[-> ->] H]. by exists rest.
  - intros (h & -> & Hlen & Hh).
    change ("0x" +:+ h) with (String "0" (String "x" h)).
    rewrite !andb_true_iff, !Ascii.eqb_eq, hex_digits_then_end_spec. done.
Qed.

(** * The receipt log scanner *)

Section ScannerProperties.

Import Scanner.

Variable env : option string.

Local Abbreviation factory := (FACTORY_ADDRESS env).

Lemma slice_is_suffix (z : Z) (t : string) :
  exists prefix, t = prefix +:+ slice z t.
Proof. unfold slice. apply drop_is_suffix. Qed.

(** One iteration of the loop, with its [catch]. *)
Lemma for_of_logs_cons (log : option Log) (rest : list (option Log)) :
  for_of_logs env (log :: rest)
  = match try_catch (scan_log env log) (fun _ => Ok None) with
    | Ok (Some a) => Ok (Some a)
    | Ok None => for_of_logs env rest
    | Throw e => Throw e
    end.
Proof.
  simpl. unfold mbind, Outcome_bind, mret, Outcome_ret.
  by destruct (try_catch _ _) as [[a|]|e].
Qed.

Lemma catch_never_throws (log : option Log) :
  exists r, try_catch (scan_log env log) (fun _ => Ok None) = Ok r.
Proof. destruct (scan_log env log) as [r|e]; simpl; eauto. Qed.

Lemma for_of_logs_never_throws (ls : list (option Log)) :
  exists r, for_of_logs env ls = Ok r.
Proof.
  induction ls as [|log rest [r IH]]; [by exists None|].
  rewrite for_of_logs_cons.
  destruct (catch_never_throws log) as [[a|] ->]; eauto.
Qed.

Lemma scan_log_passed_over (log : option Log) :
  passed_over factory log ->
  try_catch (scan_log env log) (fun _ => Ok None) = Ok None.
Proof.
  intros H. destruct log as [[[a|] ts]|]; [| done | done].
  unfold scan_log; simpl.
  destruct (decide (toLowerCase a <> toLowerCase (FACTORY_ADDRESS env)))
    as [Hne|Heq]; [done|].
  apply dec_stable in Heq.
  destruct H as [H|[H|(t1 & Ht1 & H)]].
  - destruct H. by exists {| address := Some a; topics := ts |}, a.
  - destruct ts as [[|t0 [|t1 ts]]|]; try done.
  - destruct ts as [[|t0 [|t1' ts]]|]; try done.
    simpl in Ht1; injection Ht1 as ->. simpl.
    destruct (matches_address_pattern ("0x" +:+ slice (-40) t1)) eqn:Hm; [|done].
    apply matches_address_pattern_spec in Hm as (h & Hh & Hlen & Hhex).
    injection Hh as Hh. destruct (slice_is_suffix (-40) t1) as [p Hp].
    change (slice (-40) t1 = h) in Hh. subst h.
    destruct (H (slice (-40) t1)). by exists p.
Qed.

Lemma scan_log_match (l : Log) (t1 suffix : string) :
  from_factory factory (Some l) ->
  second_topic (Some l) = Some t1 ->
  ends_in_address t1 suffix ->
  scan_log env (Some l) = Ok (Some ("0x" +:+ suffix)).
Proof.
  intros (l' & a & [= <-] & Ha & Hlow) Ht1 (p & -> & Hlen & Hhex).
  destruct l as [a' ts]; simpl in *. subst a'.
  unfold scan_log; simpl.
  destruct (decide (toLowerCase a <> toLowerCase (FACTORY_ADDRESS env)))
    as [Hne|_]; [done|].
  destruct ts as [[|t0 [|t1' ts]]|]; try done.
  simpl in Ht1; injection Ht1 as ->. simpl.
  change (-40) with (- Z.of_nat 40).
  rewrite slice_suffix by (done || lia).
  assert (matches_address_pattern ("0x" +:+ suffix) = true) as ->; [|done].
  apply matches_address_pattern_spec. by exists suffix.
Qed.

(** A log that is passed over does not change the result of the scan. *)
Lemma for_of_logs_skip (pre post : list (option Log)) (log : option Log) :
  passed_over factory log ->
  for_of_logs env (pre ++ log :: post) = for_of_logs env (pre ++ post).
Proof.
  intros H. induction pre as [|o pre IH].
  - simpl app. rewrite for_of_logs_cons. by rewrite scan_log_passed_over.
  - rewrite <- !app_comm_cons, !for_of_logs_cons, IH. done.
Qed.

Lemma malformed_passed_over (log : option Log) :
  malformed log -> passed_over factory log.
Proof.
  intros [->|(l & -> & [H|H])].
  - left. by intros (l & a & [=] & _).
  - left. intros (l' & a & [= <-] & Ha & _). congruence.
  - right; left. unfold second_topic. simpl. by rewrite H.
Qed.

(** The iterations that raise an error are those of the malformed logs the
    address check lets through. *)
Lemma scan_log_throws (log : option Log) (e : JsError) :
  scan_log env log = Throw e -> malformed log.
Proof.
  destruct log as [[[a|] [ts|]]|]; unfold malformed; try by eauto 6.
  unfold scan_log; simpl.
  destruct (decide _); [done|].
  destruct ts as [|t0 [|t1 ts]]; simpl; try done.
  by destruct (matches_address_pattern _).
Qed.

(** An iteration that returns an address does so for a log of the factory
    whose second topic ends in an address. *)
Lemma scan_log_returns (log : option Log) (a : string) :
  scan_log env log = Ok (Some a) ->
  from_factory factory log
  /\ exists t1 suffix, second_topic log = Some t1
                       /\ ends_in_address t1 suffix /\ a = "0x" +:+ suffix.
Proof.
  destruct log as [[[addr|] ts]|]; [| done | done].
  unfold scan_log; simpl.
  destruct (decide (toLowerCase addr <> toLowerCase (FACTORY_ADDRESS env)))
    as [Hne|Heq]; [done|].
  apply dec_stable in Heq.
  destruct ts as [[|t0 [|t1 ts]]|]; try done. simpl.
  destruct (matches_address_pattern ("0x" +:+ slice (-40) t1)) eqn:Hm; [|done].
  intros [= <-]. split.
  { by exists {| address := Some addr; topics := Some (t0 :: t1 :: ts) |}, addr. }
  apply matches_address_pattern_spec in Hm as (h & Hh & Hlen & Hhex).
  injection Hh as Hh. change (slice (-40) t1 = h) in Hh. subst h.
  exists t1, (slice (-40) t1). split; [done|]. split; [|done].
  destruct (slice_is_suffix (-40) t1) as [p Hp]. by exists p.
Qed.

(** An iteration that returns nothing, or raises an error, is that of a log
    the scan passes over. *)
Lemma scan_log_continues (log : option Log) :
  try_catch (scan_log env log) (fun _ => Ok None) = Ok None ->
  passed_over factory log.
Proof.
  destruct log as [[[addr|] ts]|].
  - unfold scan_log; simpl.
    destruct (decide (toLowerCase addr <> toLowerCase (FACTORY_ADDRESS env)))
      as [Hne|Heq].
    { intros _. left. intros (l & a & [= <-] & [= <-] & Hlow). done. }
    destruct ts as [[|t0 [|t1 ts]]|]; try (intros _; right; left; done).
    simpl.
    destruct (matches_address_pattern ("0x" +:+ slice (-40) t1)) eqn:Hm; [done|].
    intros _. right; right. exists t1. split; [done|].
    intros suffix (p & Hp & Hlen & Hhex).
    assert (matches_address_pattern ("0x" +:+ slice (-40) t1) = true) as Hm';
      [|congruence].
    apply matches_address_pattern_spec. exists suffix. split; [|done].
    rewrite Hp. change (-40) with (- Z.of_nat 40).
    by rewrite slice_suffix by (done || lia).
  - intros _. left. intros (l & a & [= <-] & Ha & _). done.
  - intros _. left. by intros (l & a & [=] & _).
Qed.

(** Whatever address the loop returns is that of the first log not passed
    over. *)
Lemma for_of_logs_returns (ls : list (option Log)) (a : string) :
  for_of_logs env ls = Ok (Some a) ->
  exists pre l post t1 suffix,
    ls = pre ++ Some l :: post
    /\ Forall (passed_over factory) pre
    /\ from_factory factory (Some l)
    /\ second_topic (Some l) = Some t1
    /\ ends_in_address t1 suffix
    /\ a = "0x" +:+ suffix.
Proof.
  induction ls as [|log rest IH]; [done|].
  rewrite for_of_logs_cons.
  destruct (scan_log env log) as [[a'|]|e] eqn:Hlog; simpl.
  - intros [= <-]. apply scan_log_returns in Hlog as (Hfrom & t1 & sfx & H1 & H2 & ->).
    destruct log as [l|]; [|by destruct Hfrom as (? & ? & [=] & _)].
    by exists [], l, rest, t1, sfx.
  - intros (pre & l & post & t1 & sfx & -> & Hpre & Hrest)%IH.
    exists (log :: pre), l, post, t1, sfx. split; [done|].
    split; [|done]. constructor; [|done].
    apply scan_log_continues. by rewrite Hlog.
  - intros (pre & l & post & t1 & sfx & -> & Hpre & Hrest)%IH.
    exists (log :: pre), l, post, t1, sfx. split; [done|].
    split; [|done]. constructor; [|done].
    apply scan_log_continues. by rewrite Hlog.
Qed.

(** With a receipt that has logs, the operation is the loop. *)
Lemma extract_on_logs (publicClient : PublicClient) (txHash : string)
    (ls : list (option Log)) :
  publicClient txHash = Ok (Some {| logs := Some ls |}) ->
  extractPoolAddress env publicClient txHash = for_of_logs env ls.
Proof.
  intros H. unfold extractPoolAddress. rewrite H. simpl.
  destruct ls as [|o ls]; [done|].
  by destruct (for_of_logs_never_throws (o :: ls)) as [r ->].
Qed.

(** C1. Logs are processed in receipt order; logs that are not from the
    factory (address compared without regard to letter case), that have
    fewer than two topics, or whose second topic does not end in 40
    hexadecimal characters are passed over; the first log that remains
    decides the result, which is [0x] followed by the last 40 characters of
    its second topic, whatever the logs after it contain. *)
Theorem extractPoolAddress_first_match
    (publicClient : PublicClient) (txHash : string)
    (pre post : list (option Log)) (l : Log) (t1 suffix : string) :
  publicClient txHash = Ok (Some {| logs := Some (pre ++ Some l :: post) |}) ->
  Forall (passed_over (FACTORY_ADDRESS env)) pre ->
  from_factory (FACTORY_ADDRESS env) (Some l) ->
  second_topic (Some l) = Some t1 ->
  ends_in_address t1 suffix ->
  extractPoolAddress env publicClient txHash = Ok (Some ("0x" +:+ suffix))
  /\ "0x" +:+ suffix = "0x" +:+ slice (-40) t1
  /\ StrictAddress ("0x" +:+ suffix).
Proof.
  intros Hrec Hpre Hfrom Ht1 Hend. split; [|split].
  - rewrite (extract_on_logs _ _ _ Hrec). clear Hrec.
    induction Hpre as [|o pre Ho _ IH].
    + simpl app. rewrite for_of_logs_cons.
      by rewrite (scan_log_match l t1 suffix).
    + rewrite <- app_comm_cons, for_of_logs_cons.
      rewrite (scan_log_passed_over o Ho). exact IH.
  - destruct Hend as (p & -> & Hlen & _).
    change (-40) with (- Z.of_nat 40). by rewrite slice_suffix by (done || lia).
  - destruct Hend as (p & _ & Hlen & Hhex). by exists suffix.
Qed.

(** C3. The operation returns for every client and every receipt, never
    raising an error: a rejected receipt fetch gives [null], and a
    malformed log, or any log whose iteration raises an error, is skipped
    and the scan goes on with the logs after it. *)
Theorem extractPoolAddress_never_throws
    (publicClient : PublicClient) (txHash : string) :
  (exists r, extractPoolAddress env publicClient txHash = Ok r)
  /\ (forall e, publicClient txHash = Throw e ->
        extractPoolAddress env publicClient txHash = Ok None)
  /\ (forall pre bad post,
        publicClient txHash = Ok (Some {| logs := Some (pre ++ bad :: post) |}) ->
        malformed bad \/ (exists e, scan_log env bad = Throw e) ->
        extractPoolAddress env publicClient txHash
        = for_of_logs env (pre ++ post)
        /\ exists r, for_of_logs env (pre ++ post) = Ok r).
Proof.
  split; [|split].
  - destruct (publicClient txHash) as [[[[ls|]]|]|e] eqn:Hc.
    + rewrite (extract_on_logs _ _ _ Hc). apply for_of_logs_never_throws.
    + unfold extractPoolAddress. rewrite Hc. by exists None.
    + unfold extractPoolAddress. rewrite Hc. by exists None.
    + unfold extractPoolAddress. rewrite Hc. by exists None.
  - intros e H. unfold extractPoolAddress. by rewrite H.
  - intros pre bad post Hrec Hbad. split; [|apply for_of_logs_never_throws].
    rewrite (extract_on_logs _ _ _ Hrec). apply for_of_logs_skip.
    apply malformed_passed_over.
    destruct Hbad as [H|[e H]]; [done | by eapply scan_log_throws].
Qed.

(** C4. A receipt without logs, and a receipt none of whose logs was
    emitted by the factory, give [null]. *)
Theorem extractPoolAddress_no_factory_log
    (publicClient : PublicClient) (txHash : string)
    (ls : list (option Log)) :
  publicClient txHash = Ok (Some {| logs := Some ls |}) ->
  ls = [] \/ Forall (fun log => ~ from_factory (FACTORY_ADDRESS env) log) ls ->
  extractPoolAddress env publicClient txHash = Ok None.
Proof.
  intros Hrec H. rewrite (extract_on_logs _ _ _ Hrec).
  assert (Forall (fun log => ~ from_factory (FACTORY_ADDRESS env) log) ls) as Hall.
  { destruct H as [->|H]; [constructor | done]. }
  clear H Hrec. induction Hall as [|o ls Ho _ IH]; [done|].
  rewrite for_of_logs_cons, scan_log_passed_over; [done | by left].
Qed.

End ScannerProperties.

(** * Pool ids *)

Section PoolIds.

Import PoolsRoute.

Local Abbreviation chars := list_ascii_of_string.

Lemma chars_app (s1 s2 : string) : chars (s1 +:+ s2) = chars s1 ++ chars s2.
Proof.
  induction s1 as [|c s1 IH]; [done|].
  change (String c s1 +:+ s2) with (String c (s1 +:+ s2)).
  simpl. by rewrite IH.
Qed.

Lemma pretty_N_char_decimal (x : N) : pretty_N_char x ∈ decimal_chars.
Proof.
  unfold pretty_N_char, decimal_chars.
  repeat case_match;
    repeat first [ apply list_elem_of_here | apply list_elem_of_further ].
Qed.

Lemma pretty_N_go_decimal (x : N) (s : string) :
  Forall (fun c => c ∈ decimal_chars) (chars s) ->
  Forall (fun c => c ∈ decimal_chars) (chars (pretty_N_go x s)).
Proof.
  revert s. induction (N.lt_wf_0 x) as [x _ IH]; intros s Hs.
  destruct (decide (x = 0%N)) as [->|Hx]; [by rewrite pretty_N_go_0|].
  rewrite pretty_N_go_step by lia.
  apply IH; [apply N.div_lt; lia|].
  simpl. constructor; [apply pretty_N_char_decimal | done].
Qed.

Lemma pretty_Z_decimal (z : Z) :
  Forall (fun c => c ∈ decimal_chars) (chars (pretty z)).
Proof.
  assert (forall x : N, Forall (fun c => c ∈ decimal_chars) (chars (pretty x)))
    as HN.
  { intros x. unfold pretty, pretty_N. case_decide.
    - repeat constructor.
    - apply pretty_N_go_decimal. constructor. }
  destruct z as [|p|p]; unfold pretty, pretty_Z.
  - repeat constructor.
  - apply (HN (Npos p)).
  - rewrite chars_app. apply Forall_app. split; [|apply (HN (Npos p))].
    repeat constructor.
Qed.

Lemma pretty_Z_no_underscore (z : Z) : "_"%char ∉ chars (pretty z).
Proof.
  intros H. pose proof (pretty_Z_decimal z) as Hz.
  rewrite Forall_forall in Hz. apply Hz in H. unfold decimal_chars in H.
  repeat (apply elem_of_cons in H as [H|H]; [discriminate|]).
  by apply elem_of_nil in H.
Qed.

(** A separator that occurs in neither prefix splits a string in one way. *)
Lemma separator_splits (a b s s' : string) :
  "_"%char ∉ chars a -> "_"%char ∉ chars b ->
  a +:+ String "_" s = b +:+ String "_" s' -> a = b /\ s = s'.
Proof.
  revert b. induction a as [|c a IH]; intros [|d b] Ha Hb H.
  - by injection H as ->.
  - injection H as <- _. destruct Hb. apply list_elem_of_here.
  - injection H as -> _. destruct Ha. apply list_elem_of_here.
  - injection H as -> H. apply IH in H as [-> ->]; [done|..].
    + intros ?. apply Ha. by apply list_elem_of_further.
    + intros ?. apply Hb. by apply list_elem_of_further.
Qed.

(** Two assigned ids are the same exactly when the clock readings and the
    nine characters kept of the random strings are. *)
Lemma assigned_id_inj (w1 w2 : World) :
  assigned_id w1 = assigned_id w2
  <-> clock w1 (ticks w1) = clock w2 (ticks w2)
      /\ substr 2 9 (random w1 (draws w1)) = substr 2 9 (random w2 (draws w2)).
Proof.
  unfold assigned_id. split; [|by intros [-> ->]].
  intros H. apply (inj (String.app "pool_")) in H.
  apply separator_splits in H as [H1 H2]; try apply pretty_Z_no_underscore.
  split; [by apply (inj pretty) | done].
Qed.

Lemma assigned_id_not_empty (w : World) : assigned_id w <> "".
Proof. done. Qed.

(** An assigned id starts with [pool_]: it is not the name of a property
    that an object inherits. *)
Lemma assigned_id_not_inherited (w : World) :
  assigned_id w ∉ JsObject.Object_prototype.
Proof.
  unfold assigned_id, JsObject.Object_prototype.
  rewrite !not_elem_of_cons. repeat split; try done. apply not_elem_of_nil.
Qed.

Lemma assigned_id_not_proto (w : World) : assigned_id w <> "__proto__".
Proof. done. Qed.

End PoolIds.

(** * Dates and numbers *)

Section DateShape.

Import JsDate.

Lemma digit_cases (n : Z) :
  digit n ∈ ["0"; "1"; "2"; "3"; "4"; "5"; "6"; "7"; "8"; "9"]%char.
Proof.
  unfold digit.
  assert (0 <= n mod 10 < 10) as H by (apply Z.mod_pos_bound; lia).
  assert (n mod 10 = 0 \/ n mod 10 = 1 \/ n mod 10 = 2 \/ n mod 10 = 3
          \/ n mod 10 = 4 \/ n mod 10 = 5 \/ n mod 10 = 6 \/ n mod 10 = 7
          \/ n mod 10 = 8 \/ n mod 10 = 9) as Hcases by lia.
  repeat (destruct Hcases as [->|Hcases];
          [repeat first [ apply list_elem_of_here
                        | apply list_elem_of_further ]|]).
  rewrite Hcases.
  repeat first [ apply list_elem_of_here | apply list_elem_of_further ].
Qed.

Lemma digit_is_digit (n : Z) : JsNumber.is_digit (digit n) = true.
Proof.
  pose proof (digit_cases n) as H.
  repeat (apply elem_of_cons in H as [->|H]; [reflexivity|]).
  by apply elem_of_nil in H.
Qed.

Lemma match_digit (k : nat) (ps : list Piece) (n : Z) (s : string) :
  match_pieces (Digits (S k) :: ps) (String (digit n) s)
  = match_pieces (Digits k :: ps) s.
Proof. simpl. by rewrite digit_is_digit. Qed.

Lemma match_digits_done (ps : list Piece) (s : string) :
  match_pieces (Digits 0 :: ps) s = match_pieces ps s.
Proof. reflexivity. Qed.

Lemma match_lit (c : ascii) (ps : list Piece) (s : string) :
  match_pieces (Lit c :: ps) (String c s) = match_pieces ps s.
Proof. simpl. by rewrite decide_True. Qed.

Lemma is_iso_string_digit (n : Z) (s : string) :
  is_iso_string (String (digit n) s)
  = match_pieces (Digits 4 :: iso_tail) (String (digit n) s).
Proof.
  pose proof (digit_cases n) as H.
  repeat (apply elem_of_cons in H as [->|H]; [reflexivity|]).
  by apply elem_of_nil in H.
Qed.

Lemma string_app_cons (c : ascii) (s t : string) :
  String c s +:+ t = String c (s +:+ t).
Proof. reflexivity. Qed.

Lemma string_app_nil (t : string) : "" +:+ t = t.
Proof. reflexivity. Qed.

(** What [toISOString] returns has the shape of an ISO 8601 timestamp. *)
Lemma iso_string_shape (t : Z) : is_iso_string (iso_string t) = true.
Proof.
  unfold iso_string. destruct (civil (t / msPerDay)) as [[y m] d].
  unfold year_string, digits6, digits4, digits3, digits2.
  rewrite !string_app_cons, !string_app_nil.
  destruct ((0 <=? y) && (y <=? 9999)).
  - rewrite !string_app_cons, !string_app_nil, is_iso_string_digit. unfold iso_tail.
    by repeat first [ rewrite match_digit | rewrite match_digits_done
                    | rewrite match_lit ].
  - destruct (y <? 0); rewrite !string_app_cons, !string_app_nil; unfold is_iso_string, iso_tail;
      by repeat first [ rewrite match_digit | rewrite match_digits_done
                      | rewrite match_lit | rewrite string_app_cons
                      | rewrite string_app_nil ].
Qed.

End DateShape.

Section ParseFloat.

Import JsNumber.

Lemma read_sign_minus (s u : string) :
  read_sign s = (true, u) -> s = String "-" u.
Proof.
  unfold read_sign. destruct s as [|c r]; [done|].
  destruct (Ascii.eqb c "-") eqn:Hc.
  - apply Ascii.eqb_eq in Hc as ->. by intros [= ->].
  - by destruct (Ascii.eqb c "+").
Qed.

(** Rounding keeps the sign of the literal. *)
Lemma binary_round_aux_sign (neg : bool) (mx ex : Z) (lx : location) :
  match binary_round_aux prec emax neg mx ex lx with
  | S754_zero s | S754_infinity s | S754_finite s _ _ => s = neg
  | S754_nan => True
  end.
Proof.
  unfold binary_round_aux.
  destruct (shr_fexp prec emax mx ex lx) as [mrs' e'].
  destruct (shr_fexp prec emax _ e' loc_Exact) as [mrs'' e''].
  destruct (shr_m mrs''); [done | | done].
  by destruct (e'' <=? emax - prec).
Qed.

Lemma nearest_sign (neg : bool) (m e : Z) :
  match nearest neg m e with
  | S754_zero s | S754_infinity s | S754_finite s _ _ => s = neg
  | S754_nan => True
  end.
Proof.
  unfold nearest. destruct m as [|p|p]; [done | | done].
  destruct (0 <=? e).
  - unfold binary_round. destruct (shl_align _ _ _) as [mz ez].
    apply binary_round_aux_sign.
  - destruct (SFdiv_core_binary _ _ _ _ _ _) as [[q e'] l].
    apply binary_round_aux_sign.
Qed.

(** A number read by [parseFloat] and stored is negative only when it is
    written with a minus sign. *)
Lemma parseFloat_sign (s : string) :
  non_negative_number (JSON.number (Some (parseFloat s))) = true
  \/ JSON.number (Some (parseFloat s)) = None
  \/ has_minus_sign s.
Proof.
  unfold parseFloat, has_minus_sign.
  destruct (read_sign (trim_start s)) as [[] u] eqn:Hsign.
  { right; right. exists u. by apply read_sign_minus. }
  destruct (starts_with "Infinity" u); [by right; left|].
  destruct (read_digits u 0 0) as [[ip ni] r1].
  destruct (match r1 with String c r => _ | EmptyString => _ end)
    as [[m nf] r2].
  destruct (ni + nf =? 0); [by right; left|].
  pose proof (nearest_sign false m (read_exponent r2 - nf)) as Hsign'.
  destruct (nearest false m (read_exponent r2 - nf)) as [z|i| |f mf ef];
    [by left | by right; left | by right; left |].
  left. by rewrite Hsign'.
Qed.

Lemma parseFloat_default : parseFloat "0" = of_Z 0.
Proof. reflexivity. Qed.

End ParseFloat.

(** * The pool record manager *)

#[global] Arguments JsDate.iso_string : simpl never.
#[global] Arguments JsDate.toISOString : simpl never.
#[global] Arguments JsNumber.parseFloat : simpl never.
#[global] Arguments pretty : simpl never.
#[global] Arguments toLowerCase : simpl never.
#[global] Arguments or_else : simpl never.
#[global] Arguments PoolsRoute.truthy : simpl never.
#[global] Arguments String.app : simpl never.

Section RunningHandlers.

Import PoolsRoute.

Lemma world_eq (w1 w2 : World) :
  disk w1 = disk w2 -> clock w1 = clock w2 -> ticks w1 = ticks w2 ->
  random w1 = random w2 -> draws w1 = draws w2 -> w1 = w2.
Proof. destruct w1, w2; simpl; congruence. Qed.

(** Sequencing: the second computation runs in the world the first one
    leaves, unless the first one raises an error. *)
Lemma run_bind {A B} (m : IO A) (f : A -> IO B) (w : World) :
  (m ≫= f) w
  = match m w with
    | (Ok a, w') => f a w'
    | (Throw e, w') => (Throw e, w')
    end.
Proof. reflexivity. Qed.

Lemma run_ok {A B} (m : IO A) (f : A -> IO B) (w w' : World) (a : A) :
  m w = (Ok a, w') -> (m ≫= f) w = f a w'.
Proof. intros H. by rewrite run_bind, H. Qed.

Lemma run_throw {A B} (m : IO A) (f : A -> IO B) (w w' : World) (e : JsError) :
  m w = (Throw e, w') -> (m ≫= f) w = (Throw e, w').
Proof. intros H. by rewrite run_bind, H. Qed.

Lemma run_ret {A} (a : A) (w : World) : (mret a : IO A) w = (Ok a, w).
Proof. reflexivity. Qed.

Lemma readDataFile_run {T} (f : File T) (d : T) (w : World) :
  readDataFile f d w
  = (Ok (default d (JSON_parse f <$> file_content f (disk w))), w).
Proof.
  unfold readDataFile, io_try_catch, fs_readFile. rewrite run_bind.
  by destruct (file_content f (disk w)).
Qed.

(** The round trip through JSON text changes nothing in what has been read
    from a file. *)
Lemma JSON_number_idemp (x : option JsNumber.JsNumber) :
  JSON.number (JSON.number x) = JSON.number x.
Proof. by destruct x as [[]|]. Qed.

Lemma JSON_member_idemp (m : Member.t) :
  JSON.member (JSON.member m) = JSON.member m.
Proof. unfold JSON.member. simpl. by rewrite JSON_number_idemp. Qed.

Lemma JSON_activity_idemp (a : Activity.t) :
  JSON.activity (JSON.activity a) = JSON.activity a.
Proof. unfold JSON.activity. simpl. by rewrite JSON_number_idemp. Qed.

Lemma JSON_activities_idemp (l : list Activity.t) :
  JSON.activities (JSON.activities l) = JSON.activities l.
Proof.
  unfold JSON.activities. rewrite <- list_fmap_compose.
  apply list_fmap_ext. intros i a _. apply JSON_activity_idemp.
Qed.

Lemma JSON_member_list_idemp (l : list Member.t) :
  JSON.member <$> (JSON.member <$> l) = JSON.member <$> l.
Proof.
  rewrite <- list_fmap_compose.
  apply list_fmap_ext. intros i a _. apply JSON_member_idemp.
Qed.

Lemma JSON_members_idemp (o : gmap string (list Member.t)) :
  JSON.members (JSON.members o) = JSON.members o.
Proof.
  unfold JSON.members. rewrite <- map_fmap_compose.
  apply map_fmap_ext. intros k l _. apply JSON_member_list_idemp.
Qed.


Lemma JSON_activities_of (w : World) :
  JSON.activities (activities_of w) = activities_of w.
Proof.
  unfold activities_of. destruct (activities_file (disk w)); [|done].
  apply JSON_activities_idemp.
Qed.

Lemma JSON_members_of (w : World) :
  JSON.members (members_of w) = members_of w.
Proof.
  unfold members_of. destruct (members_file (disk w)).
  - apply JSON_members_idemp.
  - apply (fmap_empty (M := gmap string)).
Qed.

Lemma JSON_activities_snoc (l : list Activity.t) (a : Activity.t) :
  Activity.amount a = None ->
  JSON.activities (l ++ [a]) = JSON.activities l ++ [a].
Proof.
  intros Ha. unfold JSON.activities. rewrite fmap_app. f_equal. simpl.
  f_equal. destruct a. simpl in Ha. subst. reflexivity.
Qed.

(** An assignment to a key other than [__proto__] defines the property. *)
Lemma JsObject_set_insert {A} (o : gmap string A) (key : string) (a : A) :
  key <> "__proto__" -> JsObject.set o key a = <[key := a]> o.
Proof.
  intros Hkey. unfold JsObject.set. destruct (o !! key); [done|].
  by rewrite bool_decide_eq_false_2.
Qed.

Lemma JSON_members_insert (o : gmap string (list Member.t)) (key : string)
    (l : list Member.t) :
  JSON.members (<[key := l]> o) = <[key := JSON.member <$> l]> (JSON.members o).
Proof. unfold JSON.members. apply fmap_insert. Qed.

Lemma Date_now_run (w : World) :
  Date_now w = (Ok (clock w (ticks w)), Created.elapsed 1 0 w).
Proof. reflexivity. Qed.

Lemma generatePoolId_run (w : World) :
  generatePoolId w = (Ok (assigned_id w), Created.elapsed 1 1 w).
Proof.
  reflexivity.
Qed.

Lemma elapsed_elapsed (a b c d : nat) (w : World) :
  Created.elapsed a b (Created.elapsed c d w) = Created.elapsed (a + c) (b + d) w.
Proof. apply world_eq; simpl; (reflexivity || lia). Qed.

Lemma elapsed_with_disk (a b : nat) (d : Disk) (w : World) :
  Created.elapsed a b (with_disk d w) = with_disk d (Created.elapsed a b w).
Proof. reflexivity. Qed.

Lemma valid_time_spec (t : Z) : JsDate.valid_time t = true <-> ValidTime t.
Proof. unfold JsDate.valid_time, ValidTime. lia. Qed.

Lemma toISOString_valid (t : Z) :
  ValidTime t -> JsDate.toISOString t = Ok (JsDate.iso_string t).
Proof.
  intros H. apply valid_time_spec in H. unfold JsDate.toISOString. by rewrite H.
Qed.

Lemma toISOString_ok (t : Z) (s : string) :
  JsDate.toISOString t = Ok s -> s = JsDate.iso_string t /\ ValidTime t.
Proof.
  unfold JsDate.toISOString. destruct (JsDate.valid_time t) eqn:H; [|done].
  intros [= <-]. split; [done | by apply valid_time_spec].
Qed.

Lemma new_Date_toISOString_run (w : World) :
  new_Date_toISOString w
  = (JsDate.toISOString (clock w (ticks w)), Created.elapsed 1 0 w).
Proof.
  unfold new_Date_toISOString. rewrite (run_ok _ _ _ _ _ (Date_now_run w)).
  reflexivity.
Qed.

End RunningHandlers.

Section MemberEntries.

Import PoolsRoute.

Lemma memberEntries_run (poolId : string) (ca : option string)
    (ms : list string) (index : nat) (w : World) :
  (forall n, ValidTime (clock w n)) ->
  memberEntries poolId ca ms index w
  = (Ok (Created.member_records poolId ca (clock w) (ticks w) index ms),
     Created.elapsed (length ms) 0 w).
Proof.
  revert index w. induction ms as [|m ms IH]; intros index w Hsane.
  - simpl. rewrite run_ret. f_equal. apply world_eq; simpl; (reflexivity || lia).
  - simpl memberEntries. rewrite run_bind, new_Date_toISOString_run.
    rewrite toISOString_valid by done.
    rewrite run_bind, IH by done. rewrite run_ret, elapsed_elapsed.
    f_equal. apply world_eq; simpl; (reflexivity || lia).
Qed.

Lemma memberEntries_disk (poolId : string) (ca : option string)
    (ms : list string) (index : nat) (w w' : World) (o : Outcome (list Member.t)) :
  memberEntries poolId ca ms index w = (o, w') -> disk w' = disk w.
Proof.
  revert index w o w'. induction ms as [|m ms IH]; intros index w o w'.
  - simpl. rewrite run_ret. by intros [= <- <-].
  - simpl memberEntries. rewrite run_bind, new_Date_toISOString_run.
    destruct (JsDate.toISOString _) as [s|e]; [|by intros [= <- <-]].
    rewrite run_bind.
    destruct (memberEntries _ _ _ _ _) as [[es|e] w''] eqn:Hrec;
      apply IH in Hrec; rewrite ?run_ret; by intros [= <- <-].
Qed.

Lemma memberEntries_ok (poolId : string) (ca : option string)
    (ms : list string) (index : nat) (w w' : World) (es : list Member.t) :
  memberEntries poolId ca ms index w = (Ok es, w') ->
  es = Created.member_records poolId ca (clock w) (ticks w) index ms
  /\ w' = Created.elapsed (length ms) 0 w.
Proof.
  revert index w es w'. induction ms as [|m ms IH]; intros index w es w'.
  - simpl. rewrite run_ret. intros [= <- <-]. split; [done|].
    apply world_eq; simpl; (reflexivity || lia).
  - simpl memberEntries. rewrite run_bind, new_Date_toISOString_run.
    destruct (JsDate.toISOString _) as [s|e] eqn:Hs; [|done].
    apply toISOString_ok in Hs as [-> _].
    rewrite run_bind.
    destruct (memberEntries _ _ _ _ _) as [[es'|e] w''] eqn:Hrec; [|done].
    apply IH in Hrec as [-> ->]. rewrite run_ret. intros [= <- <-].
    split; [done|]. rewrite elapsed_elapsed. apply world_eq; simpl; (reflexivity || lia).
Qed.

Lemma truthy_present (x : option string) :
  present x -> truthy x = Some (default "" x).
Proof. intros (s & -> & Hs). destruct s; [done | reflexivity]. Qed.

Lemma truthy_missing (x : option string) :
  missing_or_empty x -> truthy x = None.
Proof. intros [->| ->]; reflexivity. Qed.

Lemma truthy_cases (x : option string) :
  (present x /\ truthy x = x) \/ (missing_or_empty x /\ truthy x = None).
Proof.
  destruct x as [[|c s]|].
  - right. split; [by right | done].
  - left. split; [by exists (String c s) | done].
  - right. split; [by left | done].
Qed.

Lemma run_lift {A} (o : Outcome A) (w : World) : lift o w = (o, w).
Proof. reflexivity. Qed.

(** On the file system whose operations succeed. *)
Lemma ensureDataDir_run (w : World) :
  ensureDataDir w = (Ok tt, with_disk (Created.with_data_dir (disk w)) w).
Proof.
  unfold ensureDataDir, io_try_catch, fs_access, fs_mkdir.
  destruct w as [[[] pools activities members] clk t rnd d]; reflexivity.
Qed.

Lemma writeDataFile_run {T} (f : File T) (data : T) (w : World) :
  writeDataFile f data w
  = (Ok tt, with_disk (file_store f (JSON_stringify f data) (disk w)) w).
Proof. reflexivity. Qed.

End MemberEntries.

Ltac valid_date H :=
  match goal with
  | |- context [JsDate.toISOString ?t] =>
      let Hv := fresh in
      assert (ValidTime t) as Hv by exact H;
      rewrite (toISOString_valid t Hv); clear Hv
  end.

Ltac run_step :=
  first [ rewrite run_bind | rewrite ensureDataDir_run
        | rewrite readDataFile_run | rewrite generatePoolId_run
        | rewrite Date_now_run | rewrite new_Date_toISOString_run
        | rewrite run_lift | rewrite run_ret | rewrite writeDataFile_run ];
  cbv beta iota.

Ltac run := repeat run_step.

(** In this section [POST] runs on the file system [reliable]: nothing
    fails in it. *)
Section PostProperties.

Import PoolsRoute.

Variable env : option string.

(** What the three writes of a successful [POST] leave on the disk. *)
Lemma stored_activities (body : Body.t) (w : World) :
  JSON_stringify ACTIVITIES_FILE
    (match supplied_members body with
     | [] => activities_of w
     | _ :: _ => activities_of w ++ [Created.activity body w]
     end)
  = match supplied_members body with
    | [] => activities_of w
    | _ :: _ => activities_of w ++ [Created.activity body w]
    end.
Proof.
  unfold JSON_stringify. cbn [JSON_round_trip].
  destruct (supplied_members body); [apply JSON_activities_of|].
  by rewrite JSON_activities_snoc, JSON_activities_of.
Qed.

Lemma stored_members (body : Body.t) (w : World) :
  JSON_stringify MEMBERS_FILE
    (match supplied_members body with
     | [] => members_of w
     | _ :: _ =>
         JsObject.set (members_of w) (assigned_id w)
           (Created.built_members body w)
     end)
  = match supplied_members body with
    | [] => members_of w
    | _ :: _ => <[assigned_id w := Created.members body w]> (members_of w)
    end.
Proof.
  unfold JSON_stringify. cbn [JSON_round_trip].
  destruct (supplied_members body); [apply JSON_members_of|].
  rewrite JsObject_set_insert by apply assigned_id_not_proto.
  by rewrite JSON_members_insert, JSON_members_of.
Qed.

Lemma stored (body : Body.t) (w : World) :
  file_store MEMBERS_FILE
    (JSON_stringify MEMBERS_FILE
       (match supplied_members body with
        | [] => members_of w
        | _ :: _ =>
            JsObject.set (members_of w) (assigned_id w)
              (Created.built_members body w)
        end))
    (file_store ACTIVITIES_FILE
       (JSON_stringify ACTIVITIES_FILE
          (match supplied_members body with
           | [] => activities_of w
           | _ :: _ => activities_of w ++ [Created.activity body w]
           end))
       (file_store POOLS_FILE
          (JSON_stringify POOLS_FILE (pools_of w ++ [Created.pool env body w]))
          (Created.with_data_dir (disk w))))
  = Created.store env body w.
Proof.
  rewrite stored_activities, stored_members. reflexivity.
Qed.

Lemma POST_created (body : Body.t) (w : World) :
  valid_request body -> sane_clock w -> ValidTime (payout_time body w) ->
  POST env body w
  = (Ok (json (PoolRecord (Created.pool env body w)) 201),
     with_disk (Created.store env body w)
       (Created.elapsed (Created.readings body) 1 w)).
Proof.
  intros (Hn & Hc & Hp) Hsane Hpay.
  unfold POST, io_try_catch.
  rewrite (truthy_present _ Hn), (truthy_present _ Hc), (truthy_present _ Hp).
  run. valid_date Hpay. run. valid_date (Hsane (S (S (ticks w)))). run.
  rewrite <- (stored body w).
  unfold Created.readings, Created.pool, Created.built_members,
    Created.activity.
  fold (supplied_members body).
  destruct (supplied_members body) as [|m ms] eqn:Hms.
  - run. reflexivity.
  - run. rewrite memberEntries_run by exact Hsane. run.
    valid_date (Hsane (S (length (m :: ms) + S (S (S (ticks w)))))). run.
    f_equal. apply world_eq; simpl; try reflexivity; lia.
Qed.

Lemma POST_invalid (body : Body.t) (w : World) :
  missing_or_empty (Body.name body)
  \/ missing_or_empty (Body.creatorAddress body)
  \/ missing_or_empty (Body.poolAddress body) ->
  POST env body w
  = (Ok (json (ErrorBody "Missing required fields") 400),
     with_disk (Created.with_data_dir (disk w)) w).
Proof.
  intros H. unfold POST, io_try_catch. run.
  destruct H as [H|[H|H]]; rewrite (truthy_missing _ H);
    repeat (destruct (truthy _)); by run.
Qed.

Lemma valid_or_not (body : Body.t) :
  valid_request body
  \/ (missing_or_empty (Body.name body)
      \/ missing_or_empty (Body.creatorAddress body)
      \/ missing_or_empty (Body.poolAddress body)).
Proof.
  unfold valid_request.
  destruct (truthy_cases (Body.name body)) as [[? _]|[? _]]; [|by auto].
  destruct (truthy_cases (Body.creatorAddress body)) as [[? _]|[? _]]; [|by auto].
  destruct (truthy_cases (Body.poolAddress body)) as [[? _]|[? _]]; by auto.
Qed.

Lemma present_not_missing (x : option string) :
  present x -> missing_or_empty x -> False.
Proof. intros (s & -> & Hs) [?|[= ->]]; done. Qed.

(** The three ways a [POST] ends: the validation fails; an error is raised
    before anything is written; or the pool is created. *)
Lemma POST_cases (body : Body.t) (w : World) :
  (~ valid_request body
   /\ POST env body w
      = (Ok (json (ErrorBody "Missing required fields") 400),
         with_disk (Created.with_data_dir (disk w)) w))
  \/ (valid_request body
      /\ exists w',
          POST env body w
          = (Ok (json (ErrorBody "Internal server error") 500), w')
          /\ disk w' = Created.with_data_dir (disk w))
  \/ (valid_request body
      /\ POST env body w
         = (Ok (json (PoolRecord (Created.pool env body w)) 201),
            with_disk (Created.store env body w)
              (Created.elapsed (Created.readings body) 1 w))).
Proof.
  destruct (valid_or_not body) as [Hvalid|Hmissing].
  2: { left. split; [|by apply POST_invalid].
       intros (Hn & Hc & Hp).
       destruct Hmissing as [H|[H|H]]; eauto using present_not_missing. }
  right. pose proof Hvalid as (Hn & Hc & Hp).
  unfold POST, io_try_catch.
  rewrite (truthy_present _ Hn), (truthy_present _ Hc), (truthy_present _ Hp).
  run.
  destruct (JsDate.toISOString _) as [payout|e] eqn:Hpayout;
    [|left; split; [done|]; run; by eexists].
  apply toISOString_ok in Hpayout as [-> _]. run.
  destruct (JsDate.toISOString _) as [created|e] eqn:Hcreated;
    [|left; split; [done|]; run; by eexists].
  apply toISOString_ok in Hcreated as [-> _]. run.
  rewrite <- (stored body w).
  unfold Created.readings, Created.pool, Created.built_members,
    Created.activity.
  fold (supplied_members body).
  destruct (supplied_members body) as [|m ms] eqn:Hms.
  - right. split; [done|]. run. reflexivity.
  - run.
    destruct (memberEntries _ _ _ _ _) as [[entries|e] w1] eqn:Hentries.
    2: { left. split; [done|]. run. eexists. split; [reflexivity|].
         by apply memberEntries_disk in Hentries. }
    apply memberEntries_ok in Hentries as [-> ->]. run.
    destruct (JsDate.toISOString _) as [activityCreated|e] eqn:Hactivity;
      [|left; split; [done|]; run; by eexists].
    apply toISOString_ok in Hactivity as [-> _]. run.
    right. split; [done|].
    f_equal. apply world_eq; simpl; try reflexivity; lia.
Qed.

(** A [201] is the answer of the creating run only. *)
Lemma POST_201 (body : Body.t) (w w' : World) (p : Pool.t) :
  POST env body w = (Ok (json (PoolRecord p) 201), w') ->
  valid_request body /\ p = Created.pool env body w
  /\ w' = with_disk (Created.store env body w)
            (Created.elapsed (Created.readings body) 1 w).
Proof.
  destruct (POST_cases body w) as [[_ H]|[(_ & w1 & H & _)|[Hvalid H]]];
    rewrite H; [done | done |].
  by intros [= <- <-].
Qed.

Lemma POST_never_throws (body : Body.t) (w : World) :
  exists response w', POST env body w = (Ok response, w').
Proof.
  destruct (POST_cases body w) as [[_ H]|[(_ & w1 & H & _)|[Hvalid H]]];
    rewrite H; eauto.
Qed.

End PostProperties.

(** In this section [GET] runs on the file system [reliable]. *)
Section GetProperties.

Import PoolsRoute.

Lemma truthy_some (s : string) : s <> "" -> truthy (Some s) = Some s.
Proof. by destruct s. Qed.

Lemma find_first {A} (f : A -> bool) (pre post : list A) (x : A) :
  (forall y, y ∈ pre -> f y = false) -> f x = true ->
  List.find f (pre ++ x :: post) = Some x.
Proof.
  intros Hpre Hx. induction pre as [|y pre IH]; simpl.
  - by rewrite Hx.
  - rewrite (Hpre y) by apply list_elem_of_here.
    apply IH. intros z Hz. apply Hpre. by apply list_elem_of_further.
Qed.

Lemma find_none {A} (f : A -> bool) (l : list A) :
  (forall y, y ∈ l -> f y = false) -> List.find f l = None.
Proof.
  intros H. induction l as [|y l IH]; [done|]. simpl.
  rewrite (H y) by apply list_elem_of_here.
  apply IH. intros z Hz. apply H. by apply list_elem_of_further.
Qed.

Lemma filter_none {A} (P : A -> Prop) `{forall x, Decision (P x)} (l : list A) :
  (forall x, x ∈ l -> ~ P x) -> filter P l = [].
Proof.
  intros Hl. induction l as [|x l IH]; [done|].
  rewrite filter_cons_False by (apply Hl, list_elem_of_here).
  apply IH. intros y Hy. apply Hl. by apply list_elem_of_further.
Qed.

Lemma GET_by_id (id : string) (creator : option string) (w : World) :
  id <> "" ->
  GET {| Query.id := Some id; Query.creator := creator |} w
  = (Ok match List.find (fun p => bool_decide (Pool.id p = id)) (pools_of w) with
        | None => json (ErrorBody "Pool not found") 404
        | Some pool =>
            let pool_activity :=
              filter (fun a => Activity.pool_id a = id) (activities_of w) in
            match JsObject.get (members_of w) id with
            | JsObject.Own members =>
                json (PoolDetail pool pool_activity members) 200
            | JsObject.Inherited name =>
                json (PoolDetailInherited pool pool_activity name) 200
            | JsObject.Undefined => json (PoolDetail pool pool_activity []) 200
            end
        end,
     with_disk (Created.with_data_dir (disk w)) w).
Proof.
  intros Hid. unfold GET, io_try_catch. cbn [Query.id Query.creator]. run.
  rewrite (truthy_some _ Hid).
  change (default [] (JSON_parse POOLS_FILE <$> file_content POOLS_FILE _))
    with (pools_of w).
  change (default [] (JSON_parse ACTIVITIES_FILE
                        <$> file_content ACTIVITIES_FILE _))
    with (activities_of w).
  change (default ∅ (JSON_parse MEMBERS_FILE <$> file_content MEMBERS_FILE _))
    with (members_of w).
  destruct (List.find _ _); [|by run].
  cbv zeta. by destruct (JsObject.get _ _); run.
Qed.

(** The three ways the lookup [poolMembersData[poolId]] ends. *)
Lemma JsObject_get_own {A} (o : gmap string A) (key : string) (a : A) :
  o !! key = Some a -> JsObject.get o key = JsObject.Own a.
Proof. unfold JsObject.get. by intros ->. Qed.

Lemma JsObject_get_undefined {A} (o : gmap string A) (key : string) :
  o !! key = None -> key ∉ JsObject.Object_prototype ->
  JsObject.get o key = JsObject.Undefined.
Proof.
  unfold JsObject.get. intros -> Hkey. by rewrite bool_decide_eq_false_2.
Qed.

Lemma JsObject_get_inherited {A} (o : gmap string A) (key : string) :
  o !! key = None -> key ∈ JsObject.Object_prototype ->
  JsObject.get o key = JsObject.Inherited key.
Proof.
  unfold JsObject.get. intros -> Hkey. by rewrite bool_decide_eq_true_2.
Qed.

Lemma GET_by_creator (id : option string) (creator : string) (w : World) :
  missing_or_empty id -> creator <> "" ->
  GET {| Query.id := id; Query.creator := Some creator |} w
  = (Ok (json (PoolList
                 (filter (fun p => toLowerCase (Pool.creator_address p)
                                   = toLowerCase creator) (pools_of w))) 200),
     with_disk (Created.with_data_dir (disk w)) w).
Proof.
  intros Hid Hc. unfold GET, io_try_catch. cbn [Query.id Query.creator]. run.
  rewrite (truthy_missing _ Hid).
  rewrite (truthy_some _ Hc). by run.
Qed.

Lemma GET_all (id creator : option string) (w : World) :
  missing_or_empty id -> missing_or_empty creator ->
  GET {| Query.id := id; Query.creator := creator |} w
  = (Ok (json (PoolList (pools_of w)) 200),
     with_disk (Created.with_data_dir (disk w)) w).
Proof.
  intros Hid Hc. unfold GET, io_try_catch. cbn [Query.id Query.creator]. run.
  rewrite (truthy_missing _ Hid).
  rewrite (truthy_missing _ Hc). by run.
Qed.

(** When nothing fails in the file system, [GET] answers every request
    without an error. *)
Lemma GET_never_throws (request : Query.t) (w : World) :
  exists response w', GET request w = (Ok response, w').
Proof.
  destruct request as [id creator].
  destruct (truthy_cases id) as [[(s & -> & Hs) _]|[Hid _]].
  { rewrite GET_by_id by done. eauto. }
  destruct (truthy_cases creator) as [[(c & -> & Hc) _]|[Hcreator _]].
  - rewrite GET_by_creator by done. eauto.
  - rewrite GET_all by done. eauto.
Qed.

Lemma toLowerCase_cons (c : ascii) (s : string) :
  toLowerCase (String c s) = String (lower_char c) (toLowerCase s).
Proof. reflexivity. Qed.

Lemma same_up_to_case_lower (a b : string) :
  same_up_to_case a b <-> toLowerCase a = toLowerCase b.
Proof.
  split.
  - induction 1 as [|c1 c2 s1 s2 Hc _ IH]; [done|].
    by rewrite !toLowerCase_cons, Hc, IH.
  - revert b. induction a as [|c a IH]; intros [|d b]; try done.
    + constructor.
    + rewrite !toLowerCase_cons. intros [= Hc H].
      constructor; [done | by apply IH].
Qed.

Lemma same_up_to_case_empty (b : string) : same_up_to_case "" b -> b = "".
Proof. by inversion 1. Qed.

(** C5, for a non-empty id. [GET] with the query parameter [id] answers 404
    when no stored pool has that id; otherwise it answers with the first
    stored pool that has it, merged with the activities whose [pool_id] is
    that id and with the members recorded under that id.  When none are
    recorded, [pool_members] is the empty list, unless the id is the name of
    a property that the object inherits from [Object.prototype]: the lookup
    then finds the inherited member, and [pool_members] is no list. *)
Theorem getPoolById_non_empty_id
    (w : World) (id : string) (creator : option string) :
  id <> "" ->
  let response :=
    (GET {| Query.id := Some id; Query.creator := creator |} w).1 in
  ((forall p, p ∈ pools_of w -> Pool.id p <> id) ->
     response = Ok (json (ErrorBody "Pool not found") 404))
  /\ (forall pre p post,
        pools_of w = pre ++ p :: post -> Pool.id p = id ->
        (forall q, q ∈ pre -> Pool.id q <> id) ->
        exists pool_activity,
          (forall a, a ∈ pool_activity
             <-> a ∈ activities_of w /\ Activity.pool_id a = id)
          /\ pool_activity
             = filter (fun a => Activity.pool_id a = id) (activities_of w)
          /\ (forall ms, members_of w !! id = Some ms ->
                response = Ok (json (PoolDetail p pool_activity ms) 200))
          /\ (members_of w !! id = None ->
              id ∉ JsObject.Object_prototype ->
              response = Ok (json (PoolDetail p pool_activity []) 200))
          /\ (members_of w !! id = None ->
              id ∈ JsObject.Object_prototype ->
              response
              = Ok (json (PoolDetailInherited p pool_activity id) 200))).
Proof.
  intros Hid response. unfold response. rewrite (GET_by_id _ _ _ Hid).
  cbn [fst]. split.
  - intros Hnone. rewrite find_none; [done|].
    intros p Hp. apply bool_decide_eq_false. by apply Hnone.
  - intros pre p post Hpools Hp Hpre. rewrite Hpools, find_first.
    + cbv zeta. eexists. split; [|split; [reflexivity|]].
      * intros a. rewrite list_elem_of_filter. tauto.
      * split; [|split].
        -- intros ms Hms. by rewrite (JsObject_get_own _ _ _ Hms).
        -- intros Hnone Hkey. by rewrite JsObject_get_undefined.
        -- intros Hnone Hkey. by rewrite JsObject_get_inherited.
    + intros q Hq. apply bool_decide_eq_false. by apply Hpre.
    + by apply bool_decide_eq_true.
Qed.

(** C8, with the selection stated for a non-empty address. Two addresses
    that differ only in letter case get the same answer; a non-empty address
    selects exactly the pools whose stored creator address equals it up to
    letter case, in stored order, and the answer is a 200 with the empty
    list when there is none. *)
Theorem getPoolsByCreator_case_insensitive
    (w : World) (id : option string) (a b : string) :
  missing_or_empty id -> same_up_to_case a b ->
  GET {| Query.id := id; Query.creator := Some a |} w
  = GET {| Query.id := id; Query.creator := Some b |} w
  /\ (a <> "" ->
      exists pools,
        (GET {| Query.id := id; Query.creator := Some a |} w).1
        = Ok (json (PoolList pools) 200)
        /\ pools = filter (fun p => toLowerCase (Pool.creator_address p)
                                    = toLowerCase a) (pools_of w)
        /\ (forall p, p ∈ pools
              <-> p ∈ pools_of w /\ same_up_to_case (Pool.creator_address p) a)
        /\ ((forall p, p ∈ pools_of w ->
               ~ same_up_to_case (Pool.creator_address p) a) -> pools = [])).
Proof.
  intros Hid Hab. split.
  - destruct a as [|c a].
    + by rewrite (same_up_to_case_empty _ Hab).
    + inversion Hab as [|c1 c2 s1 s2 Hc Hs]; subst.
      rewrite !GET_by_creator by done.
      apply same_up_to_case_lower in Hab. by rewrite Hab.
  - intros Ha. rewrite GET_by_creator by done. cbn [fst].
    eexists. split; [reflexivity|]. split; [reflexivity|]. split.
    + intros p. rewrite list_elem_of_filter, same_up_to_case_lower. tauto.
    + intros Hnone. apply filter_none. intros p Hp.
      rewrite <- same_up_to_case_lower. by apply Hnone.
Qed.

End GetProperties.

(** In this section [POST] and [GET] run on the file system [reliable]. *)
Section CreatePool.

Import PoolsRoute.

Variable env : option string.

Lemma member_records_length (poolId : string) (ca : option string)
    (clk : nat -> Z) (tick index : nat) (ms : list string) :
  length (Created.member_records poolId ca clk tick index ms) = length ms.
Proof.
  revert tick index. induction ms as [|m ms IH]; intros tick index; [done|].
  simpl. by rewrite IH.
Qed.

Lemma member_records_amount (poolId : string) (ca : option string)
    (clk : nat -> Z) (tick index : nat) (ms : list string) (m : Member.t) :
  m ∈ Created.member_records poolId ca clk tick index ms ->
  Member.contribution_amount m = Some (JsNumber.parseFloat (or_else ca "0")).
Proof.
  revert tick index. induction ms as [|a ms IH]; intros tick index; simpl.
  - by intros ?%elem_of_nil.
  - intros [->|H]%elem_of_cons; [done | by eapply IH].
Qed.

Lemma members_length (body : Body.t) (w : World) :
  length (Created.members body w) = length (supplied_members body).
Proof.
  unfold Created.members, Created.built_members.
  by rewrite length_fmap, member_records_length.
Qed.

(** The amount of a stored member record is the amount [POST] computes,
    after the round trip through the JSON text. *)
Lemma members_amount (body : Body.t) (w : World) (m : Member.t) :
  m ∈ Created.members body w ->
  Member.contribution_amount m
  = JSON.number
      (Some (JsNumber.parseFloat (or_else (Body.contributionAmount body) "0"))).
Proof.
  unfold Created.members, Created.built_members.
  intros (m' & -> & Hm')%list_elem_of_fmap.
  apply member_records_amount in Hm'. cbn [JSON.member Member.contribution_amount].
  by rewrite Hm'.
Qed.

Lemma or_else_missing (x : option string) (d : string) :
  missing_or_empty x -> or_else x d = d.
Proof. by intros [->| ->]. Qed.

Lemma or_else_cases (x : option string) (d : string) :
  or_else x d = d \/ x = Some (or_else x d).
Proof. destruct x as [[|c s]|]; by auto. Qed.

(** The collections behind the store a successful [POST] leaves. *)
Lemma pools_of_created (body : Body.t) (w w' : World) :
  disk w' = Created.store env body w ->
  pools_of w' = pools_of w ++ [Created.pool env body w].
Proof. unfold pools_of at 1. by intros ->. Qed.

Lemma activities_of_created (body : Body.t) (w w' : World) :
  disk w' = Created.store env body w ->
  activities_of w'
  = match supplied_members body with
    | [] => activities_of w
    | _ :: _ => activities_of w ++ [Created.activity body w]
    end.
Proof.
  unfold activities_of at 1. intros ->. apply (stored_activities body w).
Qed.

Lemma members_of_created (body : Body.t) (w w' : World) :
  disk w' = Created.store env body w ->
  members_of w'
  = match supplied_members body with
    | [] => members_of w
    | _ :: _ => <[assigned_id w := Created.members body w]> (members_of w)
    end.
Proof.
  unfold members_of at 1. intros ->.
  cbn [Created.store members_file fmap option_fmap option_map default].
  unfold JSON_parse. cbn [JSON_round_trip].
  destruct (supplied_members body); [apply JSON_members_of|].
  unfold Created.members.
  by rewrite JSON_members_insert, JSON_member_list_idemp, JSON_members_of.
Qed.

(** C2. A request in which the name, the creator address or the pool address
    is missing or empty is answered with a 400, and the three files are as
    they were. *)
Theorem createPool_missing_field (body : Body.t) (w : World) :
  missing_or_empty (Body.name body)
  \/ missing_or_empty (Body.creatorAddress body)
  \/ missing_or_empty (Body.poolAddress body) ->
  exists w',
    POST env body w = (Ok (json (ErrorBody "Missing required fields") 400), w')
    /\ pools_file (disk w') = pools_file (disk w)
    /\ activities_file (disk w') = activities_file (disk w)
    /\ members_file (disk w') = members_file (disk w).
Proof. intros H. eexists. by rewrite (POST_invalid env body w H). Qed.

(** C6, as the id construction has it. The ids of two created pools are the
    same exactly when the two calls read the same millisecond off the clock
    and keep the same nine characters of their random strings; nothing of
    the request enters the id. *)
Theorem assigned_pool_ids_coincide
    (body1 body2 : Body.t) (w1 w2 w1' w2' : World) (p1 p2 : Pool.t) :
  POST env body1 w1 = (Ok (json (PoolRecord p1) 201), w1') ->
  POST env body2 w2 = (Ok (json (PoolRecord p2) 201), w2') ->
  Pool.id p1 = Pool.id p2
  <-> clock w1 (ticks w1) = clock w2 (ticks w2)
      /\ substr 2 9 (random w1 (draws w1)) = substr 2 9 (random w2 (draws w2)).
Proof.
  intros (_ & -> & _)%POST_201 (_ & -> & _)%POST_201.
  apply assigned_id_inj.
Qed.

(** C7. For a request that passes the validation and supplies no members,
    the member and activity collections are as they were and a created pool
    has [members_count = 0]. When the pool is created, which it is whenever
    the clock is sane and the payout date is representable, one activity of
    type [created] is appended exactly when members were supplied. *)
Theorem createPool_members_and_activity (body : Body.t) (w : World) :
  valid_request body ->
  (supplied_members body = [] ->
     members_of (POST env body w).2 = members_of w
     /\ activities_of (POST env body w).2 = activities_of w
     /\ forall p, (POST env body w).1 = Ok (json (PoolRecord p) 201) ->
                  Pool.members_count p = 0)
  /\ (sane_clock w -> ValidTime (payout_time body w) ->
      exists p,
        (POST env body w).1 = Ok (json (PoolRecord p) 201)
        /\ pools_of (POST env body w).2 = pools_of w ++ [p]
        /\ Pool.members_count p = Z.of_nat (length (supplied_members body))
        /\ ((exists a,
               activities_of (POST env body w).2 = activities_of w ++ [a]
               /\ Activity.activity_type a = "created"
               /\ Activity.pool_id a = Pool.id p)
            <-> supplied_members body <> [])
        /\ (supplied_members body <> [] ->
            exists entries,
              members_of (POST env body w).2
              = <[Pool.id p := entries]> (members_of w)
              /\ length entries = length (supplied_members body))).
Proof.
  intros Hvalid. split.
  - intros Hnone.
    destruct (POST_cases env body w) as [[Hn _]|[(_ & w1 & H & Hd)|[_ H]]];
      [done | |]; rewrite H; cbn [fst snd].
    + unfold members_of, activities_of. rewrite Hd. done.
    + rewrite (members_of_created body w), (activities_of_created body w)
        by done.
      rewrite Hnone. repeat split. intros p [= <-]. simpl. by rewrite Hnone.
  - intros Hsane Hpay. rewrite (POST_created env body w) by done.
    cbn [fst snd]. eexists. split; [reflexivity|].
    rewrite (pools_of_created body w), (activities_of_created body w),
      (members_of_created body w) by done.
    repeat split; try done.
    + intros (a & Ha & _) Hnone. rewrite Hnone in Ha.
      apply (f_equal length) in Ha. rewrite length_app in Ha. simpl in Ha. lia.
    + intros Hsome. destruct (supplied_members body); [done|]. by eexists.
    + intros Hsome. destruct (supplied_members body) eqn:Hms; [done|].
      eexists. split; [reflexivity|].
      by rewrite members_length, Hms.
Qed.


(** C9, for an id that no stored pool has yet. The pool is created and a
    read by its id returns the created record, field for field: the fields
    the request gives are the request's (the creator address lower-cased),
    and [id], [created_at] and [next_payout] are there and well formed. *)
Theorem createPool_then_getPoolById
    (body : Body.t) (w : World) (creator : option string) :
  valid_request body -> sane_clock w -> ValidTime (payout_time body w) ->
  (forall q, q ∈ pools_of w -> Pool.id q <> assigned_id w) ->
  exists p w1,
    POST env body w = (Ok (json (PoolRecord p) 201), w1)
    /\ (exists pool_activity pool_members,
          (GET {| Query.id := Some (Pool.id p); Query.creator := creator |} w1).1
          = Ok (json (PoolDetail p pool_activity pool_members) 200)
          /\ (supplied_members body <> [] ->
              length pool_members = length (supplied_members body)))
    /\ (Body.name body = Some (Pool.name p)
        /\ Pool.description p = Body.description body
        /\ (exists c, Body.creatorAddress body = Some c
                      /\ Pool.creator_address p = toLowerCase c)
        /\ Body.poolAddress body = Some (Pool.contract_address p)
        /\ Pool.type p = or_else (Body.poolType body) "rotational"
        /\ Pool.token_address p
           = or_else (Body.tokenAddress body) (or_else env "")
        /\ Pool.frequency p = Some (or_else (Body.frequency body) "weekly")
        /\ Pool.tx_hash p = truthy (Body.txHash body)
        /\ Pool.members_count p = Z.of_nat (length (supplied_members body))
        /\ Pool.status p = Pool.active
        /\ Pool.total_saved p = 0 /\ Pool.progress p = 0)
    /\ (Pool.id p = assigned_id w
        /\ JsDate.is_iso_string (Pool.created_at p) = true
        /\ exists s, Pool.next_payout p = Some s
                     /\ JsDate.is_iso_string s = true).
Proof.
  intros Hvalid Hsane Hpay Hfresh.
  eexists _, _. split; [by apply POST_created|].
  pose proof Hvalid as ((n & Hn & _) & (c & Hc & _) & (a & Ha & _)).
  split; [|split; [|split; [done|split]]].
  - rewrite GET_by_id by apply assigned_id_not_empty. cbn [fst].
    rewrite (pools_of_created body w) by done.
    rewrite find_first.
    + cbv zeta. rewrite (members_of_created body w) by done.
      cbn [Created.pool Pool.id].
      destruct (supplied_members body) as [|m0 ms0] eqn:Hms.
      * destruct (members_of w !! assigned_id w) as [ms|] eqn:Hlookup.
        -- rewrite (JsObject_get_own _ _ _ Hlookup). by eexists _, _.
        -- rewrite (JsObject_get_undefined _ _ Hlookup)
             by apply assigned_id_not_inherited.
           by eexists _, _.
      * rewrite (JsObject_get_own _ _ (Created.members body w))
          by apply lookup_insert_eq.
        eexists _, _. split; [reflexivity|]. intros _.
        by rewrite members_length, Hms.
    + intros q Hq. apply bool_decide_eq_false. by apply Hfresh.
    + by apply bool_decide_eq_true.
  - cbn [Created.pool Pool.name Pool.description Pool.creator_address
         Pool.contract_address Pool.type Pool.token_address Pool.frequency
         Pool.tx_hash Pool.members_count Pool.status Pool.total_saved
         Pool.progress].
    rewrite Hn, Hc, Ha. repeat split; try done. by exists c.
  - apply iso_string_shape.
  - eexists. split; [reflexivity|]. apply iso_string_shape.
Qed.

(** C10, as the code computes and stores the amount. Each member record
    written for the pool carries [parseFloat(contributionAmount || '0')]
    after the round trip through the JSON text of the file: zero when the
    amount is absent or empty; [null] when the string has no numeric prefix
    ([NaN]) or its value is beyond the doubles (an infinity); and otherwise
    a number that is non-negative unless the string is written with a minus
    sign. *)
Theorem member_contribution_amounts
    (body : Body.t) (w w' : World) (p : Pool.t) :
  POST env body w = (Ok (json (PoolRecord p) 201), w') ->
  supplied_members body <> [] ->
  exists entries,
    members_of w' !! Pool.id p = Some entries
    /\ length entries = length (supplied_members body)
    /\ forall m, m ∈ entries ->
         let parsed :=
           JsNumber.parseFloat (or_else (Body.contributionAmount body) "0") in
         Member.contribution_amount m = JSON.number (Some parsed)
         /\ (missing_or_empty (Body.contributionAmount body) ->
             Member.contribution_amount m = Some (JsNumber.of_Z 0))
         /\ (Member.contribution_amount m = None
             <-> JsNumber.is_finite parsed = false)
         /\ (non_negative_number (Member.contribution_amount m) = true
             <-> JsNumber.is_finite parsed = true
                 /\ JsNumber.is_non_negative parsed = true)
         /\ (non_negative_number (Member.contribution_amount m) = true
             \/ Member.contribution_amount m = None
             \/ exists s, Body.contributionAmount body = Some s
                          /\ has_minus_sign s).
Proof.
  intros (_ & -> & ->)%POST_201 Hsome.
  rewrite (members_of_created body w) by done.
  destruct (supplied_members body) eqn:Hms; [done|].
  cbn [Created.pool Pool.id]. rewrite lookup_insert_eq.
  eexists. split; [reflexivity|]. split.
  { by rewrite members_length, Hms. }
  intros m Hm. apply members_amount in Hm. rewrite Hm.
  set (parsed := JsNumber.parseFloat _).
  split; [done|]. split; [|split; [|split]].
  - intros Hmissing. unfold parsed.
    by rewrite (or_else_missing _ _ Hmissing).
  - by destruct parsed.
  - destruct parsed as [[]|[]| |[] mf ef]; cbn; intuition congruence.
  - unfold parsed.
    destruct (or_else_cases (Body.contributionAmount body) "0") as [->|Hs].
    + by left.
    + destruct (parseFloat_sign (or_else (Body.contributionAmount body) "0"))
        as [?|[?|?]]; eauto.
Qed.

End CreatePool.

(** * The theorems at concrete inputs *)

Section Witnesses.

Import Scanner PoolsRoute Fixtures.

Lemma transfer_not_from_factory :
  ~ from_factory (FACTORY_ADDRESS factory) (Some transfer).
Proof.
  intros (l & a & [= <-] & [= <-] & H). vm_compute in H. discriminate H.
Qed.

Lemma null_not_from_factory (f : string) : ~ from_factory f None.
Proof. by intros (l & a & [=] & _). Qed.

Lemma extractPoolAddress_first_match_witness :
  extractPoolAddress factory
    (client (receipt [Some transfer; None; Some no_topics; Some pool_created;
                      Some pool_created_again]))
    "0xfeed"
  = Ok (Some ("0x" +:+ "abc1230000000000000000000000000000000def"))
  /\ "0x" +:+ "abc1230000000000000000000000000000000def"
     = "0x" +:+ slice (-40)
         "0x000000000000000000000000abc1230000000000000000000000000000000def"
  /\ StrictAddress ("0x" +:+ "abc1230000000000000000000000000000000def").
Proof.
  pose proof (extractPoolAddress_first_match factory
    (client (receipt [Some transfer; None; Some no_topics; Some pool_created;
                      Some pool_created_again]))
    "0xfeed" [Some transfer; None; Some no_topics] [Some pool_created_again]
    pool_created
    "0x000000000000000000000000abc1230000000000000000000000000000000def"
    "abc1230000000000000000000000000000000def") as first_match.
  apply first_match; clear first_match.
  - reflexivity.
  - constructor; [|constructor; [|constructor; [|constructor]]].
    + left. apply transfer_not_from_factory.
    + left. apply null_not_from_factory.
    + right; left. reflexivity.
  - exists pool_created, "0x5fbdb2315678AFECB367f032d93f642f64180aa3".
    by repeat split.
  - reflexivity.
  - exists "0x000000000000000000000000".
    split; [reflexivity|]. split; [reflexivity|].
    unfold IsHexDigit. apply (bool_decide_unpack _). by vm_compute.
Defined.

Lemma extractPoolAddress_never_throws_witness :
  extractPoolAddress factory (client (Throw Rejected)) "0xfeed" = Ok None
  /\ extractPoolAddress factory
       (client (receipt ([Some transfer] ++ None :: [Some pool_created])))
       "0xfeed"
     = for_of_logs factory ([Some transfer] ++ [Some pool_created]).
Proof.
  split.
  - pose proof (extractPoolAddress_never_throws factory
                  (client (Throw Rejected)) "0xfeed") as (_ & rejected & _).
    by apply (rejected Rejected).
  - pose proof (extractPoolAddress_never_throws factory
                  (client (receipt ([Some transfer] ++ None :: [Some pool_created])))
                  "0xfeed") as (_ & _ & skipped).
    apply (skipped [Some transfer] None [Some pool_created]); [reflexivity|].
    left. by left.
Defined.

Lemma extractPoolAddress_no_factory_log_witness :
  extractPoolAddress factory (client (receipt [Some transfer; None])) "0xfeed"
  = Ok None.
Proof.
  pose proof (extractPoolAddress_no_factory_log factory
                (client (receipt [Some transfer; None])) "0xfeed"
                [Some transfer; None]) as no_factory_log.
  apply no_factory_log; clear no_factory_log; [reflexivity|].
  right. constructor; [|constructor; [|constructor]].
  - apply transfer_not_from_factory.
  - apply null_not_from_factory.
Defined.


Lemma valid_fixture (name : string) (members : option (list string))
    (amount : option string) :
  name <> "" -> valid_request (request name members amount).
Proof. intros Hname. repeat split; eexists; by split. Qed.

Lemma after_spec (body : Body.t) (w : World) (r : Outcome Response) :
  (POST None body w).1 = r -> POST None body w = (r, after body w).
Proof. unfold after. destruct (POST None body w). simpl. congruence. Qed.

Lemma sane_world0 : sane_clock world0.
Proof. intros n. unfold ValidTime. simpl. lia. Qed.

Lemma sane_same_millisecond : sane_clock same_millisecond.
Proof. intros n. unfold ValidTime. simpl. lia. Qed.

Lemma createPool_missing_field_witness :
  exists w',
    POST None without_pool_address world0
    = (Ok (json (ErrorBody "Missing required fields") 400), w')
    /\ pools_file (disk w') = pools_file (disk world0)
    /\ activities_file (disk w') = activities_file (disk world0)
    /\ members_file (disk w') = members_file (disk world0).
Proof.
  pose proof (createPool_missing_field None without_pool_address world0)
    as missing_field.
  apply missing_field. right; right. by left.
Defined.


Lemma getPoolById_non_empty_id_witness :
  (GET {| Query.id := Some "pool_0_none"; Query.creator := None |}
     (after (with_members (Some "10")) world0)).1
  = Ok (json (ErrorBody "Pool not found") 404)
  /\ (exists pool_activity,
        (GET {| Query.id := Some "pool_1700000000000_4fzyo82mv";
                Query.creator := None |}
           (after (with_members (Some "10")) world0)).1
        = Ok (json (PoolDetail
                      (Created.pool None (with_members (Some "10")) world0)
                      pool_activity
                      (Created.members (with_members (Some "10")) world0)) 200)
        /\ pool_activity
           = filter (fun a => Activity.pool_id a = "pool_1700000000000_4fzyo82mv")
               (activities_of (after (with_members (Some "10")) world0)))
  /\ (GET {| Query.id := Some "constructor"; Query.creator := None |}
        MoreFixtures.inherited_id).1
     = Ok (json (PoolDetailInherited MoreFixtures.named_constructor []
                   "constructor") 200).
Proof.
  assert (pools_of (after (with_members (Some "10")) world0)
          = [] ++ Created.pool None (with_members (Some "10")) world0 :: [])
    as Hpools by (vm_compute; reflexivity).
  split; [|split].
  - pose proof (getPoolById_non_empty_id
                  (after (with_members (Some "10")) world0)
                  "pool_0_none" None) as by_id.
    cbv zeta in by_id. destruct by_id as [not_found _]; [discriminate|].
    apply not_found. intros p Hp. rewrite Hpools in Hp.
    apply list_elem_of_singleton in Hp as ->. intros H. vm_compute in H.
    discriminate H.
  - pose proof (getPoolById_non_empty_id
                  (after (with_members (Some "10")) world0)
                  "pool_1700000000000_4fzyo82mv" None) as by_id.
    cbv zeta in by_id. destruct by_id as [_ found]; [discriminate|].
    destruct (found [] (Created.pool None (with_members (Some "10")) world0) [])
      as (pool_activity & _ & Hactivity & Hrecorded & _).
    + exact Hpools.
    + vm_compute. reflexivity.
    + intros q Hq. apply elem_of_nil in Hq. destruct Hq.
    + exists pool_activity. split; [|exact Hactivity].
      apply Hrecorded. vm_compute. reflexivity.
  - pose proof (getPoolById_non_empty_id MoreFixtures.inherited_id
                  "constructor" None) as by_id.
    cbv zeta in by_id. destruct by_id as [_ found]; [discriminate|].
    destruct (found [] MoreFixtures.named_constructor [])
      as (pool_activity & _ & Hactivity & _ & _ & Hinherited).
    + reflexivity.
    + reflexivity.
    + intros q Hq. apply elem_of_nil in Hq. destruct Hq.
    + rewrite Hinherited.
      * rewrite Hactivity. reflexivity.
      * reflexivity.
      * unfold JsObject.Object_prototype. apply list_elem_of_here.
Defined.

Lemma assigned_pool_ids_coincide_witness :
  Pool.id (Created.pool None without_members world0)
  = Pool.id (Created.pool None without_members (after without_members world0))
  <-> clock world0 (ticks world0)
      = clock (after without_members world0)
          (ticks (after without_members world0))
      /\ substr 2 9 (random world0 (draws world0))
         = substr 2 9 (random (after without_members world0)
                         (draws (after without_members world0))).
Proof.
  exact (assigned_pool_ids_coincide None without_members without_members
           world0 (after without_members world0)
           (after without_members world0)
           (after without_members (after without_members world0))
           (Created.pool None without_members world0)
           (Created.pool None without_members (after without_members world0))
           (after_spec without_members world0 _
              ltac:(vm_compute; reflexivity))
           (after_spec without_members (after without_members world0) _
              ltac:(vm_compute; reflexivity))).
Defined.

Lemma createPool_members_and_activity_witness :
  members_of (after without_members world0) = members_of world0
  /\ activities_of (after without_members world0) = activities_of world0
  /\ exists p,
       (POST None without_members world0).1 = Ok (json (PoolRecord p) 201)
       /\ Pool.members_count p = 0
       /\ pools_of (after without_members world0) = pools_of world0 ++ [p].
Proof.
  pose proof (createPool_members_and_activity None without_members world0)
    as [unchanged created]; [by apply valid_fixture|].
  destruct unchanged as (Hmembers & Hactivities & Hcount); [done|].
  destruct created as (p & Hp & Hpools & _);
    [apply sane_world0 | unfold ValidTime; by vm_compute|].
  split; [exact Hmembers|]. split; [exact Hactivities|].
  exists p. split; [exact Hp|]. split; [by apply Hcount | exact Hpools].
Defined.

Lemma getPoolsByCreator_case_insensitive_witness :
  GET {| Query.id := None; Query.creator := Some "0xABC" |}
    (after without_members world0)
  = GET {| Query.id := None; Query.creator := Some "0xabc" |}
      (after without_members world0)
  /\ exists pools,
       (GET {| Query.id := None; Query.creator := Some "0xABC" |}
          (after without_members world0)).1
       = Ok (json (PoolList pools) 200)
       /\ pools
          = filter (fun p => toLowerCase (Pool.creator_address p)
                             = toLowerCase "0xABC")
              (pools_of (after without_members world0)).
Proof.
  assert (same_up_to_case "0xABC" "0xabc") as Hcase
    by (apply same_up_to_case_lower; vm_compute; reflexivity).
  pose proof (getPoolsByCreator_case_insensitive
                (after without_members world0) None "0xABC" "0xabc"
                (or_introl eq_refl) Hcase)
    as [same selected].
  split; [exact same|].
  destruct selected as (pools & Hresponse & Hpools & _); [discriminate|].
  exists pools. split; [exact Hresponse | exact Hpools].
Defined.

Lemma createPool_then_getPoolById_witness :
  exists p w1,
    POST None (with_members (Some "10")) world0
    = (Ok (json (PoolRecord p) 201), w1)
    /\ (exists pool_activity pool_members,
          (GET {| Query.id := Some (Pool.id p); Query.creator := None |} w1).1
          = Ok (json (PoolDetail p pool_activity pool_members) 200))
    /\ Body.name (with_members (Some "10")) = Some (Pool.name p)
    /\ Pool.id p = "pool_1700000000000_4fzyo82mv".
Proof.
  pose proof (createPool_then_getPoolById None (with_members (Some "10"))
                world0 None) as read_back.
  destruct read_back
    as (p & w1 & Hpost & (pool_activity & pool_members & Hget & _)
        & (Hname & _) & (Hid & _)).
  - by apply valid_fixture.
  - apply sane_world0.
  - unfold ValidTime. by vm_compute.
  - intros q Hq. apply elem_of_nil in Hq. destruct Hq.
  - exists p, w1. split; [exact Hpost|].
    split; [by exists pool_activity, pool_members|].
    split; [exact Hname|]. rewrite Hid. by vm_compute.
Defined.

Lemma member_contribution_amounts_witness :
  exists entries,
    members_of (after (with_members (Some "10")) world0)
      !! Pool.id (Created.pool None (with_members (Some "10")) world0)
    = Some entries
    /\ length entries = length (supplied_members (with_members (Some "10")))
    /\ forall m, m ∈ entries ->
         Member.contribution_amount m = Some (JsNumber.of_Z 10)
         /\ non_negative_number (Member.contribution_amount m) = true.
Proof.
  pose proof (member_contribution_amounts None (with_members (Some "10"))
                world0 (after (with_members (Some "10")) world0)
                (Created.pool None (with_members (Some "10")) world0)
                (after_spec (with_members (Some "10")) world0 _
                   ltac:(vm_compute; reflexivity)))
    as amounts.
  destruct amounts as (entries & Hentries & Hlength & Hamount);
    [discriminate|].
  exists entries. split; [exact Hentries|]. split; [exact Hlength|].
  intros m Hm. destruct (Hamount m Hm) as (Hm' & _). rewrite Hm'.
  split; vm_compute; reflexivity.
Defined.

(** * Where the specification and the code part ways *)

(** C5 as stated fails for the empty id: no stored pool has it, and the
    answer is the list of all pools, with status 200. *)
Lemma getPoolById_empty_id_counterexample :
  (forall p, p ∈ pools_of (after without_members world0) -> Pool.id p <> "")
  /\ (GET {| Query.id := Some ""; Query.creator := None |}
        (after without_members world0)).1
     = Ok (json (PoolList [Created.pool None without_members world0]) 200).
Proof.
  split; [|by vm_compute].
  assert (pools_of (after without_members world0)
          = [Created.pool None without_members world0]) as ->
    by (by vm_compute).
  intros p ->%list_elem_of_singleton. apply assigned_id_not_empty.
Qed.

(** C6 as stated fails when two calls fall into one millisecond and their
    random strings agree on the nine characters kept: two different random
    numbers, one id. *)
Lemma createPool_same_id_counterexample :
  exists p1 p2,
    (POST None without_members same_millisecond).1
    = Ok (json (PoolRecord p1) 201)
    /\ (POST None without_members (after without_members same_millisecond)).1
       = Ok (json (PoolRecord p2) 201)
    /\ Pool.id p1 = Pool.id p2
    /\ random same_millisecond 0 <> random same_millisecond 1.
Proof.
  exists (Created.pool None without_members same_millisecond),
    (Created.pool None without_members (after without_members same_millisecond)).
  by vm_compute.
Qed.

(** C8 as stated fails for the empty address: no stored creator address
    equals it, and the answer is the list of all pools. *)
Lemma getPoolsByCreator_empty_address_counterexample :
  exists p,
    (GET {| Query.id := None; Query.creator := Some "" |}
       (after without_members world0)).1
    = Ok (json (PoolList [p]) 200)
    /\ Pool.creator_address p = "0xabc"
    /\ ~ same_up_to_case (Pool.creator_address p) "".
Proof.
  exists (Created.pool None without_members world0).
  split; [by vm_compute|]. split; [by vm_compute|].
  intros H. apply same_up_to_case_lower in H. vm_compute in H. discriminate H.
Qed.

(** C9 as stated fails when the assigned id is already taken: the read by
    id returns the older pool. *)
Lemma createPool_read_back_counterexample :
  exists p2 p pool_activity pool_members,
    (POST None (request "Second" None None)
       (after (request "First" None None) same_millisecond)).1
    = Ok (json (PoolRecord p2) 201)
    /\ (GET {| Query.id := Some (Pool.id p2); Query.creator := None |}
          (after (request "Second" None None)
             (after (request "First" None None) same_millisecond))).1
       = Ok (json (PoolDetail p pool_activity pool_members) 200)
    /\ Pool.name p2 = "Second" /\ Pool.name p = "First".
Proof.
  exists (Created.pool None (request "Second" None None)
            (after (request "First" None None) same_millisecond)),
    (Created.pool None (request "First" None None) same_millisecond), [], [].
  by vm_compute.
Qed.

(** C10 as stated fails for the amount ["-5"]: the member records carry the
    negative number.  It fails for ["abc"] too: the records carry [null],
    which is no number. *)
Lemma member_negative_amount_counterexample :
  (exists p entries m,
     (POST None (with_members (Some "-5")) world0).1
     = Ok (json (PoolRecord p) 201)
     /\ members_of (after (with_members (Some "-5")) world0) !! Pool.id p
        = Some entries
     /\ m ∈ entries
     /\ Member.contribution_amount m = Some (JsNumber.of_Z (-5))
     /\ non_negative_number (Member.contribution_amount m) = false)
  /\ (exists p entries m,
        (POST None (with_members (Some "abc")) world0).1
        = Ok (json (PoolRecord p) 201)
        /\ members_of (after (with_members (Some "abc")) world0) !! Pool.id p
           = Some entries
        /\ m ∈ entries
        /\ Member.contribution_amount m = None
        /\ non_negative_number (Member.contribution_amount m) = false).
Proof.
  split.
  - exists (Created.pool None (with_members (Some "-5")) world0),
      (Created.members (with_members (Some "-5")) world0),
      {| Member.id := "member_pool_1700000000000_4fzyo82mv_0";
         Member.member_address := "0xaa";
         Member.contribution_amount := Some (JsNumber.of_Z (-5));
         Member.status := Member.pending;
         Member.joined_at := "2023-11-14T22:13:20.003Z" |}.
    split; [by vm_compute|]. split; [by vm_compute|].
    split; [|done]. vm_compute. apply list_elem_of_here.
  - exists (Created.pool None (with_members (Some "abc")) world0),
      (Created.members (with_members (Some "abc")) world0),
      {| Member.id := "member_pool_1700000000000_4fzyo82mv_0";
         Member.member_address := "0xaa";
         Member.contribution_amount := None;
         Member.status := Member.pending;
         Member.joined_at := "2023-11-14T22:13:20.003Z" |}.
    split; [by vm_compute|]. split; [by vm_compute|].
    split; [|done]. vm_compute. apply list_elem_of_here.
Qed.

End Witnesses.

(** * More on the receipt log scanner *)

Section ScannerResults.

Import Scanner.

Variable env : option string.

Local Abbreviation factory := (FACTORY_ADDRESS env).

Lemma take_drop (n : nat) (s : string) :
  s = string_take n s +:+ string_drop n s.
Proof.
  revert s. induction n as [|n IH]; intros [|c s]; try reflexivity.
  simpl string_take. simpl string_drop. rewrite string_app_cons.
  f_equal. apply IH.
Qed.

Lemma drop_length (n : nat) (s : string) :
  String.length (string_drop n s) = (String.length s - n)%nat.
Proof. revert s. induction n as [|n IH]; intros [|c s]; simpl; auto. Qed.

Lemma take_length (n : nat) (s : string) :
  String.length (string_take n s) = Nat.min n (String.length s).
Proof.
  revert s. induction n as [|n IH]; intros [|c s]; simpl; auto.
Qed.

Lemma drop_chars (P : ascii -> Prop) (n : nat) (s : string) :
  Forall P (list_ascii_of_string s) ->
  Forall P (list_ascii_of_string (string_drop n s)).
Proof.
  revert s. induction n as [|n IH]; intros [|c s] H; simpl; try done.
  apply IH. by inversion H.
Qed.

Lemma strict_address_length (a : string) :
  StrictAddress a -> String.length a = 42%nat.
Proof. intros (h & -> & Hlen & _). rewrite length_append, Hlen. reflexivity. Qed.

Lemma ends_in_address_strict (t1 suffix : string) :
  ends_in_address t1 suffix -> StrictAddress ("0x" +:+ suffix).
Proof. intros (p & _ & Hlen & Hhex). by exists suffix. Qed.

(** The first log not passed over decides what the loop returns. *)
Lemma for_of_logs_first (pre post : list (option Log)) (l : Log)
    (t1 suffix : string) :
  Forall (passed_over factory) pre ->
  from_factory factory (Some l) ->
  second_topic (Some l) = Some t1 ->
  ends_in_address t1 suffix ->
  for_of_logs env (pre ++ Some l :: post) = Ok (Some ("0x" +:+ suffix)).
Proof.
  intros Hpre Hfrom Ht1 Hend. induction Hpre as [|o pre Ho _ IH].
  - simpl app. rewrite for_of_logs_cons.
    by rewrite (scan_log_match env l t1 suffix).
  - rewrite <- app_comm_cons, for_of_logs_cons.
    rewrite (scan_log_passed_over env o Ho). exact IH.
Qed.

Lemma extractPoolAddress_result
    (publicClient : PublicClient) (txHash : string) :
  extractPoolAddress env publicClient txHash = Ok None
  \/ exists a, extractPoolAddress env publicClient txHash = Ok (Some a)
               /\ StrictAddress a /\ String.length a = 42%nat.
Proof.
  destruct (publicClient txHash) as [[[[ls|]]|]|e] eqn:Hc;
    try (left; unfold extractPoolAddress; by rewrite Hc).
  rewrite (extract_on_logs env _ _ _ Hc).
  destruct (for_of_logs_never_throws env ls) as [[a|] Hr]; [|by left].
  right. exists a. split; [done|].
  apply for_of_logs_returns in Hr
    as (pre & l & post & t1 & suffix & _ & _ & _ & _ & Hend & ->).
  apply ends_in_address_strict in Hend.
  split; [done | by apply strict_address_length].
Qed.

(** What the operation returns is [null] or a strict address of 42
    characters: a malformed candidate never leaves the scanner. *)
Theorem extractPoolAddress_null_or_address
    (publicClient : PublicClient) (txHash : string) :
  extractPoolAddress env publicClient txHash = Ok None
  \/ exists a, extractPoolAddress env publicClient txHash = Ok (Some a)
               /\ StrictAddress a /\ String.length a = 42%nat.
Proof. apply extractPoolAddress_result. Qed.

(** A topic of 32 bytes always yields an address: the last 20 bytes, with
    the padding in front of them dropped and the letter case kept. *)
Theorem extractPoolAddress_word32_topic
    (publicClient : PublicClient) (txHash : string)
    (pre post : list (option Log)) (l : Log) (t1 h : string) :
  publicClient txHash = Ok (Some {| logs := Some (pre ++ Some l :: post) |}) ->
  Forall (passed_over (FACTORY_ADDRESS env)) pre ->
  from_factory (FACTORY_ADDRESS env) (Some l) ->
  second_topic (Some l) = Some t1 ->
  is_word32 t1 h ->
  extractPoolAddress env publicClient txHash
  = Ok (Some ("0x" +:+ string_drop 24 h)).
Proof.
  intros Hrec Hpre Hfrom Ht1 (-> & Hlen & Hhex).
  rewrite (extract_on_logs env _ _ _ Hrec).
  apply (for_of_logs_first pre post l ("0x" +:+ h)); try done.
  exists ("0x" +:+ string_take 24 h). split; [|split].
  - rewrite (take_drop 24 h) at 1. by rewrite !string_app_cons, !string_app_nil.
  - rewrite drop_length, Hlen. reflexivity.
  - by apply drop_chars.
Qed.

Lemma scan_log_factory_case (env' : option string) (log : option Log) :
  toLowerCase (FACTORY_ADDRESS env) = toLowerCase (FACTORY_ADDRESS env') ->
  scan_log env log = scan_log env' log.
Proof. intros H. unfold scan_log. by rewrite H. Qed.

Lemma for_of_logs_factory_case (env' : option string) (ls : list (option Log)) :
  toLowerCase (FACTORY_ADDRESS env) = toLowerCase (FACTORY_ADDRESS env') ->
  for_of_logs env ls = for_of_logs env' ls.
Proof.
  intros H. induction ls as [|log rest IH]; [done|].
  by rewrite !for_of_logs_cons, (scan_log_factory_case env' log H), IH.
Qed.

(** The letter case in which the factory address is configured does not
    matter to any result. *)
Theorem extractPoolAddress_factory_case
    (env' : option string) (publicClient : PublicClient) (txHash : string) :
  same_up_to_case (FACTORY_ADDRESS env) (FACTORY_ADDRESS env') ->
  extractPoolAddress env publicClient txHash
  = extractPoolAddress env' publicClient txHash.
Proof.
  intros H%same_up_to_case_lower.
  destruct (publicClient txHash) as [[[[ls|]]|]|e] eqn:Hc;
    try (unfold extractPoolAddress; by rewrite Hc).
  rewrite (extract_on_logs env _ _ _ Hc), (extract_on_logs env' _ _ _ Hc).
  by apply for_of_logs_factory_case.
Qed.

Lemma emitted_by_spec (log : option Log) :
  emitted_by factory log = true <-> from_factory factory log.
Proof.
  unfold emitted_by, from_factory. destruct log as [[[a|] ts]|]; simpl.
  - rewrite bool_decide_eq_true. split.
    + intros H. by eexists _, a.
    + by intros (l & a' & [= <-] & [= <-] & H).
  - split; [done | by intros (l & a' & [= <-] & [=] & _)].
  - split; [done | by intros (l & a' & [=] & _)].
Qed.

Lemma for_of_logs_filter (ls : list (option Log)) :
  for_of_logs env (List.filter (emitted_by factory) ls) = for_of_logs env ls.
Proof.
  induction ls as [|log rest IH]; [done|]. simpl List.filter.
  destruct (emitted_by factory log) eqn:Hlog.
  - by rewrite !for_of_logs_cons, IH.
  - rewrite IH, for_of_logs_cons, scan_log_passed_over; [done|].
    left. intros H%emitted_by_spec. congruence.
Qed.

(** The result depends on the logs of the factory only: the receipt with
    every other log removed gives the same answer. *)
Theorem extractPoolAddress_other_logs_irrelevant
    (publicClient publicClient' : PublicClient) (txHash : string)
    (ls : list (option Log)) :
  publicClient txHash = Ok (Some {| logs := Some ls |}) ->
  publicClient' txHash
  = Ok (Some {| logs := Some (List.filter (emitted_by (FACTORY_ADDRESS env)) ls) |}) ->
  extractPoolAddress env publicClient txHash
  = extractPoolAddress env publicClient' txHash.
Proof.
  intros H H'.
  rewrite (extract_on_logs env _ _ _ H), (extract_on_logs env _ _ _ H').
  symmetry. apply for_of_logs_filter.
Qed.

End ScannerResults.

(** * The pool creation hook and the dashboard header *)

Section HookProperties.

Import Scanner Hooks.

Variable env : option string.

(** The round duration is read off the table for the four keywords.  For
    the name of a property that the table inherits from [Object.prototype]
    it is that inherited member, which is no number; for every other
    string it is a week. *)
Theorem roundDuration_table (frequency : string) :
  (frequency = "daily" /\ roundDuration frequency = Seconds 86400)
  \/ (frequency = "weekly" /\ roundDuration frequency = Seconds 604800)
  \/ (frequency = "biweekly" /\ roundDuration frequency = Seconds 1209600)
  \/ (frequency = "monthly" /\ roundDuration frequency = Seconds 2592000)
  \/ (frequency ∈ JsObject.Object_prototype
      /\ roundDuration frequency = NotANumber frequency)
  \/ ((frequency ∉ frequency_keywords)
      /\ (frequency ∉ JsObject.Object_prototype)
      /\ roundDuration frequency = Seconds 604800).
Proof.
  destruct (decide (frequency = "daily")) as [->|Hd]; [by left|].
  destruct (decide (frequency = "weekly")) as [->|Hw];
    [right; left; done|].
  destruct (decide (frequency = "biweekly")) as [->|Hb];
    [right; right; left; done|].
  destruct (decide (frequency = "monthly")) as [->|Hm];
    [right; right; right; left; done|].
  right; right; right; right.
  assert (frequencyMap !! frequency = None) as Hlookup.
  { unfold frequencyMap.
    rewrite !lookup_insert_ne by done. by rewrite lookup_singleton_ne. }
  unfold roundDuration, JsObject.get. rewrite Hlookup.
  case_bool_decide as Hinherited; [by left|].
  right. split; [|done].
  unfold frequency_keywords. intros H.
  repeat (apply elem_of_cons in H as [H|H]; [done|]).
  by apply elem_of_nil in H.
Qed.

Lemma effect_keeps_address (poolAddress : option string) (render : Render) :
  null_or_address poolAddress -> null_or_address (effect env poolAddress render).
Proof.
  intros H. unfold effect. destruct (isSuccess render); [|done].
  destruct (PoolsRoute.truthy (data render)) as [hash|]; [|done].
  destruct (publicClient render) as [client|]; [|done].
  destruct (extractPoolAddress_result env client hash)
    as [->|(a & -> & Ha & _)]; [by left | right; by exists a].
Qed.

Lemma effect_without_success (poolAddress : option string) (render : Render) :
  isSuccess render = false -> effect env poolAddress render = poolAddress.
Proof. intros H. unfold effect. by rewrite H. Qed.

(** Through any sequence of renders the exposed [poolAddress] is [null] or
    a strict address, and it stays [null] as long as no render reports the
    transaction as successful. *)
Theorem poolAddress_only_after_success (renders : list Render) :
  null_or_address (poolAddress_after env renders)
  /\ (Forall (fun r => isSuccess r = false) renders ->
      poolAddress_after env renders = None).
Proof.
  unfold poolAddress_after. split.
  - assert (null_or_address None) as H by (by left).
    revert H. generalize (@None string).
    induction renders as [|r rs IH]; intros st Hst; [done|].
    simpl. by apply IH, effect_keeps_address.
  - generalize (@None string).
    induction 1 as [|r rs Hr _ IH]; [done|].
    simpl. by rewrite effect_without_success.
Qed.

End HookProperties.

Section HeaderProperties.

Import DashboardHeader.

Lemma take_append (s1 s2 : string) :
  string_take (String.length s1) (s1 +:+ s2) = s1.
Proof.
  induction s1 as [|c s1 IH]; [by destruct s2|].
  rewrite string_app_cons. simpl. by rewrite IH.
Qed.

Lemma string_app_assoc (s1 s2 s3 : string) :
  (s1 +:+ s2) +:+ s3 = s1 +:+ s2 +:+ s3.
Proof.
  induction s1 as [|c s1 IH]; [done|].
  by rewrite !string_app_cons, IH.
Qed.

Lemma slice_length (n : nat) (s : string) :
  (0 < n)%nat ->
  String.length (slice (- Z.of_nat n) s) = Nat.min n (String.length s).
Proof.
  intros Hn. unfold slice.
  destruct (Z.ltb_spec (- Z.of_nat n) 0) as [_|?]; [|lia].
  rewrite drop_length. lia.
Qed.

Lemma take_all (n : nat) (s : string) :
  (String.length s <= n)%nat -> string_take n s = s.
Proof.
  revert n. induction s as [|c s IH]; intros [|n] H; simpl in *;
    try done; try lia.
  by rewrite IH by lia.
Qed.

Lemma take_min (n : nat) (s : string) :
  string_take (Nat.min n (String.length s)) s = string_take n s.
Proof.
  destruct (Nat.le_gt_cases n (String.length s)) as [Hle|Hgt].
  - by rewrite Nat.min_l.
  - rewrite Nat.min_r by lia. rewrite !take_all by lia. done.
Qed.

Lemma slice_range_prefix (n : nat) (s : string) :
  slice_range 0 (Z.of_nat n) s = string_take n s.
Proof.
  unfold slice_range.
  destruct (Z.ltb_spec (Z.of_nat n) 0) as [?|_]; [lia|].
  destruct (Z.ltb_spec 0 0) as [?|_]; [lia|].
  replace (Z.to_nat (Z.min 0 (Z.of_nat (String.length s)))) with 0%nat by lia.
  replace (Z.to_nat (Z.min (Z.of_nat n) (Z.of_nat (String.length s))
                     - Z.min 0 (Z.of_nat (String.length s))))
    with (Nat.min n (String.length s)) by lia.
  by rewrite drop_all, take_min.
Qed.

(** For an address of at least ten characters the wallet button shows its
    first six and its last four characters around three dots, and no
    character twice. *)
Theorem wallet_label_of_address (a first middle last : string) :
  a = first +:+ middle +:+ last ->
  String.length first = 6%nat -> String.length last = 4%nat ->
  wallet_label (Some a) = first +:+ "..." +:+ last.
Proof.
  intros -> Hfirst Hlast. unfold wallet_label.
  change 6 with (Z.of_nat 6). rewrite slice_range_prefix, <- Hfirst, take_append.
  rewrite <- (string_app_assoc first middle last).
  change (-4) with (- Z.of_nat 4).
  by rewrite slice_suffix by (done || lia).
Qed.

(** The label is never longer than thirteen characters; it is the three
    dots alone when no wallet is connected, and a shorter address is shown
    from both ends. *)
Theorem wallet_label_length (address : option string) :
  let n := String.length (default EmptyString address) in
  String.length (wallet_label address) = (Nat.min 6 n + 3 + Nat.min 4 n)%nat
  /\ (String.length (wallet_label address) <= 13)%nat
  /\ (address = None -> wallet_label address = "...").
Proof.
  intros n. unfold n.
  assert (String.length (wallet_label address)
          = (Nat.min 6 (String.length (default EmptyString address)) + 3
             + Nat.min 4 (String.length (default EmptyString address)))%nat)
    as Hlen.
  { destruct address as [a|]; [|reflexivity]. unfold wallet_label.
    change 6 with (Z.of_nat 6). rewrite slice_range_prefix.
    change (-4) with (- Z.of_nat 4).
    rewrite !length_append, take_length, slice_length by lia. simpl. lia. }
  split; [exact Hlen|]. split; [lia|]. by intros ->.
Qed.

End HeaderProperties.

(** * More on the pool record manager *)

(** In this section [POST] runs on the file system [reliable]. *)
Section DatesOfPost.

Import PoolsRoute.

Variable env : option string.

Lemma toISOString_invalid (t : Z) :
  ~ ValidTime t -> JsDate.toISOString t = Throw RangeError.
Proof.
  intros H. unfold JsDate.toISOString.
  destruct (JsDate.valid_time t) eqn:Hv; [|done].
  by apply valid_time_spec in Hv.
Qed.

Lemma memberEntries_run_valid (poolId : string) (ca : option string)
    (ms : list string) (index : nat) (w : World) :
  (forall i, (i < length ms)%nat -> ValidTime (clock w (i + ticks w)%nat)) ->
  memberEntries poolId ca ms index w
  = (Ok (Created.member_records poolId ca (clock w) (ticks w) index ms),
     Created.elapsed (length ms) 0 w).
Proof.
  revert index w. induction ms as [|m ms IH]; intros index w Hvalid.
  - simpl. rewrite run_ret. f_equal. apply world_eq; simpl; (reflexivity || lia).
  - simpl memberEntries. rewrite run_bind, new_Date_toISOString_run.
    rewrite toISOString_valid by (apply (Hvalid 0%nat); simpl; lia).
    rewrite run_bind, IH.
    + rewrite run_ret, elapsed_elapsed.
      f_equal. apply world_eq; simpl; (reflexivity || lia).
    + intros i Hi. simpl.
      replace (i + S (ticks w))%nat with (S i + ticks w)%nat by lia.
      apply Hvalid. simpl. lia.
Qed.

Lemma memberEntries_valid (poolId : string) (ca : option string)
    (ms : list string) (index : nat) (w w' : World) (es : list Member.t) :
  memberEntries poolId ca ms index w = (Ok es, w') ->
  forall i, (i < length ms)%nat -> ValidTime (clock w (i + ticks w)%nat).
Proof.
  revert index w es w'. induction ms as [|m ms IH]; intros index w es w'.
  - intros _ i Hi. simpl in Hi. lia.
  - simpl memberEntries. rewrite run_bind, new_Date_toISOString_run.
    destruct (JsDate.toISOString _) as [s|e] eqn:Hs; [|done].
    apply toISOString_ok in Hs as [_ Hhead].
    rewrite run_bind.
    destruct (memberEntries _ _ _ _ _) as [[es'|e] w''] eqn:Hrec; [|done].
    intros _ [|i] Hi; [exact Hhead|].
    pose proof (IH _ _ _ _ Hrec i) as Htail. simpl in Htail, Hi.
    replace (S i + ticks w)%nat with (i + S (ticks w))%nat by lia.
    apply Htail. lia.
Qed.

(** With a request that passes the validation and dates that are all valid,
    [POST] creates the pool. *)
Lemma POST_created_dates (body : Body.t) (w : World) :
  valid_request body -> dates_valid body w ->
  POST env body w
  = (Ok (json (PoolRecord (Created.pool env body w)) 201),
     with_disk (Created.store env body w)
       (Created.elapsed (Created.readings body) 1 w)).
Proof.
  intros (Hn & Hc & Hp) (Hpay & Hcreated & Hmembers).
  unfold POST, io_try_catch.
  rewrite (truthy_present _ Hn), (truthy_present _ Hc), (truthy_present _ Hp).
  run. valid_date Hpay. run. valid_date Hcreated. run.
  rewrite <- (stored env body w).
  unfold Created.readings, Created.pool, Created.built_members,
    Created.activity.
  fold (supplied_members body).
  destruct (supplied_members body) as [|m ms] eqn:Hms.
  - run. reflexivity.
  - destruct Hmembers as [Hjoined Hactivity]; [done|].
    run. rewrite memberEntries_run_valid by exact Hjoined. run.
    valid_date Hactivity. run.
    f_equal. apply world_eq; simpl; try reflexivity; lia.
Qed.

(** A [201] tells that every date was valid. *)
Lemma POST_201_dates (body : Body.t) (w w' : World) (p : Pool.t) :
  POST env body w = (Ok (json (PoolRecord p) 201), w') -> dates_valid body w.
Proof.
  destruct (valid_or_not body) as [Hvalid|Hmissing];
    [|by rewrite (POST_invalid env body w Hmissing)].
  pose proof Hvalid as (Hn & Hc & Hp).
  unfold POST, io_try_catch.
  rewrite (truthy_present _ Hn), (truthy_present _ Hc), (truthy_present _ Hp).
  run.
  destruct (JsDate.toISOString _) as [payout|e] eqn:Hpayout; [|by run].
  apply toISOString_ok in Hpayout as [-> Hv1]. run.
  destruct (JsDate.toISOString _) as [created|e] eqn:Hcreated; [|by run].
  apply toISOString_ok in Hcreated as [-> Hv2]. run.
  unfold dates_valid. fold (supplied_members body).
  destruct (supplied_members body) as [|m ms] eqn:Hms.
  - intros _. split; [exact Hv1|]. split; [exact Hv2|]. done.
  - run.
    destruct (memberEntries _ _ _ _ _) as [[entries|e] w1] eqn:Hentries;
      [|by run].
    pose proof (memberEntries_valid _ _ _ _ _ _ _ Hentries) as Hv3.
    apply memberEntries_ok in Hentries as [-> ->]. run.
    destruct (JsDate.toISOString _) as [activityCreated|e] eqn:Hactivity;
      [|by run].
    apply toISOString_ok in Hactivity as [_ Hv4]. intros _.
    split; [exact Hv1|]. split; [exact Hv2|]. intros _.
    split; [exact Hv3 | exact Hv4].
Qed.


Lemma POST_500_dates (body : Body.t) (w : World) :
  valid_request body -> ~ dates_valid body w ->
  exists w',
    POST env body w = (Ok (json (ErrorBody "Internal server error") 500), w')
    /\ disk w' = Created.with_data_dir (disk w).
Proof.
  intros Hvalid Hdates.
  destruct (POST_cases env body w) as [[Hn _]|[(_ & w1 & H & Hd)|[_ H]]].
  - done.
  - by exists w1.
  - by apply POST_201_dates in H.
Qed.

(** A round duration that puts the payout date out of the range of [Date]
    is answered with a 500, and the three files are as they were. *)
Theorem POST_payout_out_of_range (body : Body.t) (w : World) :
  valid_request body -> ~ ValidTime (payout_time body w) ->
  exists w',
    POST env body w = (Ok (json (ErrorBody "Internal server error") 500), w')
    /\ pools_file (disk w') = pools_file (disk w)
    /\ activities_file (disk w') = activities_file (disk w)
    /\ members_file (disk w') = members_file (disk w).
Proof.
  intros Hvalid Hpay.
  destruct (POST_500_dates body w Hvalid) as (w' & H & Hd).
  { by intros (? & _). }
  exists w'. rewrite Hd. by split.
Qed.

(** [POST] never looks at what is stored: the answer is the same whatever
    the three files hold, so no request is rejected or merged because of an
    existing pool. *)
Theorem POST_ignores_store (body : Body.t) (w : World) (d : Disk) :
  (POST env body (with_disk d w)).1 = (POST env body w).1.
Proof.
  destruct (POST_cases env body w) as [[Hn H]|[(Hvalid & w1 & H & _)|[Hvalid H]]].
  - rewrite H. destruct (valid_or_not body) as [?|Hmissing]; [done|].
    by rewrite (POST_invalid env body _ Hmissing).
  - rewrite H.
    destruct (POST_cases env body (with_disk d w))
      as [[Hn _]|[(_ & w2 & H2 & _)|[_ H2]]]; [done | by rewrite H2 |].
    apply POST_201_dates in H2.
    rewrite (POST_created_dates body w Hvalid H2) in H. done.
  - rewrite H. apply POST_201_dates in H.
    by rewrite (POST_created_dates body (with_disk d w) Hvalid H).
Qed.

End DatesOfPost.

(** * The pool record manager on a file system that may fail *)

(** In this section the file system is any: the directory may be impossible
    to make and every write may be rejected. *)
Section OnAnyFileSystem.

Import PoolsRoute.

Context {fs : FileSystem}.

Variable env : option string.

(** [ensureDataDir] fails only when the directory is missing and cannot be
    made. *)
Lemma ensureDataDir_cases (w : World) :
  (data_dir (disk w) = false /\ mkdir_fails w = true
   /\ ensureDataDir w = (Throw Rejected, w))
  \/ ((data_dir (disk w) = true \/ mkdir_fails w = false)
      /\ ensureDataDir w = (Ok tt, with_disk (Created.with_data_dir (disk w)) w)).
Proof.
  unfold ensureDataDir, io_try_catch, fs_access, fs_mkdir.
  destruct w as [[[] pools activities members] clk t rnd d];
    cbn [disk data_dir]; [right; split; [by left | reflexivity]|].
  destruct (mkdir_fails _) eqn:Hm; [left | right]; by auto.
Qed.

(** With the directory in place, [GET] does what it does when nothing
    fails. *)
Lemma GET_with_directory (request : Query.t) (w : World) :
  data_dir (disk w) = true \/ mkdir_fails w = false ->
  GET request w = GET (fs := reliable) request w.
Proof.
  intros Hdir. unfold GET, io_try_catch. rewrite !run_bind, ensureDataDir_run.
  destruct (ensureDataDir_cases w) as [(Hd & Hm & _)|[_ ->]]; [|done].
  destruct Hdir; congruence.
Qed.

Lemma GET_without_directory (request : Query.t) (w : World) :
  data_dir (disk w) = false -> mkdir_fails w = true ->
  GET request w = (Ok (json (ErrorBody "Internal server error") 500), w).
Proof.
  intros Hd Hm. unfold GET, io_try_catch. rewrite run_bind.
  destruct (ensureDataDir_cases w) as [(_ & _ & ->)|[[?|?] _]];
    [done | congruence | congruence].
Qed.

Lemma toISOString_throws (t : Z) (e : JsError) :
  JsDate.toISOString t = Throw e -> ~ ValidTime t.
Proof.
  unfold JsDate.toISOString. destruct (JsDate.valid_time t) eqn:H; [done|].
  intros _ Hv. apply valid_time_spec in Hv. congruence.
Qed.

Lemma memberEntries_throws (poolId : string) (ca : option string)
    (ms : list string) (index : nat) (w w' : World) (e : JsError) :
  memberEntries poolId ca ms index w = (Throw e, w') ->
  ~ (forall i, (i < length ms)%nat -> ValidTime (clock w (i + ticks w)%nat)).
Proof.
  intros Hthrow Hvalid.
  by rewrite (memberEntries_run_valid _ _ _ _ _ Hvalid) in Hthrow.
Qed.

(** The three writes, one after the other. *)
Lemma writes_run (response : Response) (pools : list Pool.t)
    (activities : list Activity.t) (members : gmap string (list Member.t))
    (w : World) :
  (_ ← writeDataFile POOLS_FILE pools;
   _ ← writeDataFile ACTIVITIES_FILE activities;
   _ ← writeDataFile MEMBERS_FILE members;
   mret response) w
  = match writeFile_fails _ POOLS_FILE (JSON_stringify POOLS_FILE pools) w with
    | Some remains =>
        (Throw Rejected, with_disk (file_put POOLS_FILE remains (disk w)) w)
    | None =>
        let w2 :=
          with_disk
            (file_store POOLS_FILE (JSON_stringify POOLS_FILE pools) (disk w))
            w in
        match writeFile_fails _ ACTIVITIES_FILE
                (JSON_stringify ACTIVITIES_FILE activities) w2 with
        | Some remains =>
            (Throw Rejected,
             with_disk (file_put ACTIVITIES_FILE remains (disk w2)) w2)
        | None =>
            let w3 :=
              with_disk
                (file_store ACTIVITIES_FILE
                   (JSON_stringify ACTIVITIES_FILE activities) (disk w2))
                w2 in
            match writeFile_fails _ MEMBERS_FILE
                    (JSON_stringify MEMBERS_FILE members) w3 with
            | Some remains =>
                (Throw Rejected,
                 with_disk (file_put MEMBERS_FILE remains (disk w3)) w3)
            | None =>
                (Ok response,
                 with_disk
                   (file_store MEMBERS_FILE
                      (JSON_stringify MEMBERS_FILE members) (disk w3))
                   w3)
            end
        end
    end.
Proof.
  rewrite run_bind. unfold writeDataFile at 1, fs_writeFile at 1.
  destruct (writeFile_fails _ POOLS_FILE _ w); [done|].
  rewrite run_bind. unfold writeDataFile at 1, fs_writeFile at 1. cbv zeta.
  destruct (writeFile_fails _ ACTIVITIES_FILE _ _); [done|].
  rewrite run_bind. unfold writeDataFile at 1, fs_writeFile at 1.
  destruct (writeFile_fails _ MEMBERS_FILE _ _); [done|].
  reflexivity.
Qed.

(** A request that passes the validation is answered with a 500, once the
    directory is there, when one of its dates is out of range. *)
Lemma POST_dates (body : Body.t) (w : World) :
  data_dir (disk w) = true \/ mkdir_fails w = false ->
  valid_request body ->
  dates_valid body w
  \/ (~ dates_valid body w
      /\ exists w',
           POST env body w
           = (Ok (json (ErrorBody "Internal server error") 500), w')
           /\ disk w' = Created.with_data_dir (disk w)).
Proof.
  intros Hdir Hvalid. pose proof Hvalid as (Hn & Hc & Hp).
  unfold POST, io_try_catch. rewrite run_bind.
  destruct (ensureDataDir_cases w) as [(Hd & Hm & _)|[_ ->]];
    [destruct Hdir; congruence|].
  rewrite (truthy_present _ Hn), (truthy_present _ Hc), (truthy_present _ Hp).
  run.
  destruct (JsDate.toISOString _) as [payout|e] eqn:Hpayout.
  2: { right. split; [|run; by eexists].
       apply toISOString_throws in Hpayout. by intros (Hv & _). }
  apply toISOString_ok in Hpayout as [-> Hv1]. run.
  destruct (JsDate.toISOString _) as [created|e] eqn:Hcreated.
  2: { right. split; [|run; by eexists].
       apply toISOString_throws in Hcreated. by intros (_ & Hv & _). }
  apply toISOString_ok in Hcreated as [-> Hv2]. run.
  unfold dates_valid. fold (supplied_members body).
  destruct (supplied_members body) as [|m ms] eqn:Hms.
  - left. by split.
  - run.
    destruct (memberEntries _ _ _ _ _) as [[entries|e] w1] eqn:Hentries.
    2: { right. split.
         - apply memberEntries_throws in Hentries.
           intros (_ & _ & Hjoined). destruct Hjoined as [Hjoined _]; [done|].
           by apply Hentries.
         - run. eexists. split; [reflexivity|].
           by apply memberEntries_disk in Hentries. }
    pose proof (memberEntries_valid _ _ _ _ _ _ _ Hentries) as Hv3.
    apply memberEntries_ok in Hentries as [-> ->]. run.
    destruct (JsDate.toISOString _) as [activityCreated|e] eqn:Hactivity.
    2: { right. split; [|run; by eexists].
         apply toISOString_throws in Hactivity.
         intros (_ & _ & Hjoined). destruct Hjoined as [_ Hv]; [done|].
         by apply Hactivity. }
    apply toISOString_ok in Hactivity as [-> Hv4].
    left. split; [exact Hv1|]. split; [exact Hv2|]. intros _.
    split; [exact Hv3 | exact Hv4].
Qed.

(** With valid dates it is served up to the three writes. *)
Lemma POST_reaches_writes (body : Body.t) (w : World) :
  data_dir (disk w) = true \/ mkdir_fails w = false ->
  valid_request body -> dates_valid body w ->
  POST env body w
  = io_try_catch
      (_ ← writeDataFile POOLS_FILE (Written.pools env body w);
       _ ← writeDataFile ACTIVITIES_FILE (Written.activities body w);
       _ ← writeDataFile MEMBERS_FILE (Written.members body w);
       mret (json (PoolRecord (Created.pool env body w)) 201))
      (fun _ => mret (json (ErrorBody "Internal server error") 500))
      (Written.first body w).
Proof.
  intros Hdir (Hn & Hc & Hp) (Hpay & Hcreated & Hmembers).
  unfold POST, io_try_catch. rewrite run_bind.
  destruct (ensureDataDir_cases w) as [(Hd & Hm & _)|[_ ->]];
    [destruct Hdir; congruence|].
  rewrite (truthy_present _ Hn), (truthy_present _ Hc), (truthy_present _ Hp).
  run. valid_date Hpay. run. valid_date Hcreated. run.
  unfold Written.pools, Written.activities, Written.members,
    Created.pool, Created.built_members, Created.activity.
  fold (supplied_members body).
  destruct (supplied_members body) as [|m ms] eqn:Hms.
  - unfold Written.first, Created.readings. rewrite Hms. reflexivity.
  - destruct Hmembers as [Hjoined Hactivity]; [done|].
    run. rewrite memberEntries_run_valid by exact Hjoined. run.
    valid_date Hactivity. run.
    match goal with
    | |- context [writeDataFile POOLS_FILE _ ?W] =>
        replace W with (Written.first body w); [reflexivity|]
    end.
    unfold Written.first, Created.readings. rewrite Hms.
    apply world_eq; simpl; try reflexivity; lia.
Qed.

(** Every [POST] is answered, in one of the seven ways. *)
Lemma POST_outcome (body : Body.t) (w : World) :
  exists response w',
    POST env body w = (Ok response, w')
    /\ PostOutcome env body w response (disk w').
Proof.
  destruct (ensureDataDir_cases w) as [(Hd & Hm & Hthrow)|[Hdir Hok]].
  { eexists _, _. split; [|by apply no_directory].
    unfold POST, io_try_catch. by rewrite run_bind, Hthrow. }
  destruct (valid_or_not body) as [Hvalid|Hmissing].
  2: { eexists _, _. split.
       - unfold POST, io_try_catch. rewrite run_bind, Hok.
         destruct Hmissing as [H|[H|H]]; rewrite (truthy_missing _ H);
           repeat (destruct (truthy _)); by run.
       - apply missing_field. intros (Hn & Hc & Hp).
         destruct Hmissing as [H|[H|H]]; eauto using present_not_missing. }
  destruct (POST_dates body w Hdir Hvalid)
    as [Hdates|(Hdates & w' & -> & Hdisk)].
  2: { eexists _, _. split; [reflexivity|]. rewrite Hdisk.
       by apply invalid_date. }
  rewrite (POST_reaches_writes body w Hdir Hvalid Hdates).
  unfold io_try_catch. rewrite writes_run. cbv zeta.
  fold (Written.second env body w). fold (Written.third env body w).
  destruct (writeFile_fails _ POOLS_FILE _ _) as [remains|] eqn:Hpools.
  { eexists _, _. split; [reflexivity|]. by apply pools_not_written. }
  destruct (writeFile_fails _ ACTIVITIES_FILE _ _) as [remains|] eqn:Hacts.
  { eexists _, _. split; [reflexivity|]. by apply activities_not_written. }
  destruct (writeFile_fails _ MEMBERS_FILE _ _) as [remains|] eqn:Hmems.
  { eexists _, _. split; [reflexivity|]. by apply members_not_written. }
  eexists _, _. split; [reflexivity|].
  cbn [disk with_disk]. 
  replace (file_store MEMBERS_FILE _ _) with (Created.store env body w)
    by (symmetry; apply stored).
  by apply created.
Qed.

(** Whatever the file system does, a pool is reported as created only for
    a request that passes the validation and whose dates are all in range,
    and only after the three files have been written: the answer is then
    the record of the new pool. *)
Theorem POST_creates_only_if (input : Body.t) (w w' : World) (p : Pool.t) :
  POST env input w = (Ok (json (PoolRecord p) 201), w') ->
  valid_request input /\ dates_valid input w
  /\ p = Created.pool env input w
  /\ pools_of w' = pools_of w ++ [p]
  /\ is_Some (activities_file (disk w'))
  /\ is_Some (members_file (disk w')).
Proof.
  destruct (POST_outcome input w) as (response & w1 & -> & Houtcome).
  intros [= -> <-].
  inversion Houtcome as [| | | | | |Hvalid Hdates _ _ _ Hpool Hdisk].
  symmetry in Hdisk.
  rewrite (pools_of_created env input w w1 Hdisk).
  split; [exact Hvalid|]. split; [exact Hdates|].
  split; [reflexivity|]. split; [reflexivity|].
  split; by eapply mk_is_Some.
Qed.

(** What the failing writes leave readable of the files before them. *)
Lemma pools_of_second (body : Body.t) (w w' : World)
    (activities : option (list Activity.t)) :
  disk w' = file_put ACTIVITIES_FILE activities (disk (Written.second env body w)) ->
  pools_of w' = pools_of w ++ [Created.pool env body w]
  /\ members_file (disk w') = members_file (disk w).
Proof. unfold pools_of at 1. by intros ->. Qed.

Lemma collections_of_third (body : Body.t) (w w' : World)
    (members : option (gmap string (list Member.t))) :
  disk w' = file_put MEMBERS_FILE members (disk (Written.third env body w)) ->
  pools_of w' = pools_of w ++ [Created.pool env body w]
  /\ activities_of w' = Written.activities body w.
Proof.
  unfold pools_of at 1, activities_of at 1. intros ->. split; [done|].
  cbn [Written.third Written.second disk with_disk file_put file_store
       activities_file fmap option_fmap option_map default].
  unfold JSON_parse. cbn [JSON_round_trip].
  change (JSON.activities
            (JSON_stringify ACTIVITIES_FILE (Written.activities body w))
          = Written.activities body w).
  unfold Written.activities. rewrite stored_activities.
  destruct (supplied_members body); [apply JSON_activities_of|].
  by rewrite JSON_activities_snoc, JSON_activities_of.
Qed.

(** [POST] answers every request, with a 201, a 400 or a 500, and it writes
    the three files in the order pools, activities, members: a file is
    touched only when the files before it have been written.  So a 400
    leaves the three files as they were, but a 500 may come after the new
    pool has been stored. *)
Theorem POST_writes_in_order (input : Body.t) (w : World) :
  exists response w',
    POST env input w = (Ok response, w')
    /\ (status response = 201 \/ status response = 400
        \/ status response = 500)
    /\ (status response = 400 ->
        pools_file (disk w') = pools_file (disk w)
        /\ activities_file (disk w') = activities_file (disk w)
        /\ members_file (disk w') = members_file (disk w))
    /\ (activities_file (disk w') <> activities_file (disk w) ->
        pools_of w' = pools_of w ++ [Created.pool env input w])
    /\ (members_file (disk w') <> members_file (disk w) ->
        pools_of w' = pools_of w ++ [Created.pool env input w]
        /\ activities_of w' = Written.activities input w).
Proof.
  destruct (POST_outcome input w) as (response & w' & Hpost & Houtcome).
  exists response, w'. split; [exact Hpost|].
  inversion Houtcome
    as [Hd Hm Hresponse Hdisk|Hn Hresponse Hdisk|Hv Hn Hresponse Hdisk
        |remains Hv Hdates H1 Hresponse Hdisk
        |remains Hv Hdates H1 H2 Hresponse Hdisk
        |remains Hv Hdates H1 H2 H3 Hresponse Hdisk
        |Hv Hdates H1 H2 H3 Hresponse Hdisk];
    cbn [status json].
  - split; [by auto|]. by repeat split.
  - split; [by auto|]. by repeat split.
  - split; [by auto|]. by repeat split.
  - split; [by auto|]. by repeat split.
  - split; [by auto|]. symmetry in Hdisk.
    destruct (pools_of_second input w w' remains Hdisk) as [Hpools Hmembers].
    by repeat split.
  - split; [by auto|]. symmetry in Hdisk.
    destruct (collections_of_third input w w' remains Hdisk) as [Hpools Hacts].
    by repeat split.
  - split; [by auto|]. symmetry in Hdisk.
    rewrite (pools_of_created env input w),
      (activities_of_created env input w) by done.
    by repeat split.
Qed.

(** The writes are not atomic.  On a file system that takes the pools file
    and rejects the activities file, a request that would create a pool is
    answered with a 500, and the new pool is stored all the same, without
    its members. *)
Theorem POST_failed_write_keeps_pool (input : Body.t) (w : World) :
  (forall w1, mkdir_fails w1 = false) ->
  (forall data w1, writeFile_fails _ POOLS_FILE data w1 = None) ->
  (forall data w1, writeFile_fails _ ACTIVITIES_FILE data w1 <> None) ->
  valid_request input -> dates_valid input w ->
  exists w',
    POST env input w
    = (Ok (json (ErrorBody "Internal server error") 500), w')
    /\ pools_of w' = pools_of w ++ [Created.pool env input w]
    /\ members_file (disk w') = members_file (disk w).
Proof.
  intros Hmkdir Hpools Hactivities Hvalid Hdates.
  destruct (POST_outcome input w) as (response & w' & Hpost & Houtcome).
  exists w'.
  inversion Houtcome
    as [Hd Hm Hresponse Hdisk|Hn Hresponse Hdisk|Hv Hn Hresponse Hdisk
        |remains Hv _ H1 Hresponse Hdisk
        |remains Hv _ H1 H2 Hresponse Hdisk
        |remains Hv _ H1 H2 H3 Hresponse Hdisk
        |Hv _ H1 H2 H3 Hresponse Hdisk].
  - by rewrite Hmkdir in Hm.
  - done.
  - done.
  - by rewrite Hpools in H1.
  - subst response. split; [exact Hpost|]. symmetry in Hdisk.
    destruct (pools_of_second input w w' remains Hdisk) as [Hstored _].
    split; [exact Hstored | reflexivity].
  - by apply Hactivities in H2.
  - by apply Hactivities in H2.
Qed.

End OnAnyFileSystem.

(** In this section [POST] and [GET] run on the file system [reliable]. *)
Section StoreAfterPost.

Import PoolsRoute.

Variable env : option string.

(** A created pool is appended: the stored pools and activities keep their
    place and order, and at most one activity is added.  The members kept
    under every other id are untouched; the list under the id of the new
    pool is set when members are supplied, in place of a list that was
    already kept under that id, and is left alone when none are. *)
Theorem POST_appends (input : Body.t) (w w' : World) (p : Pool.t) :
  POST env input w = (Ok (json (PoolRecord p) 201), w') ->
  pools_of w' = pools_of w ++ [p]
  /\ (exists added, activities_of w' = activities_of w ++ added
                    /\ (length added <= 1)%nat)
  /\ (forall id, id <> Pool.id p -> members_of w' !! id = members_of w !! id)
  /\ (supplied_members input = [] -> members_of w' = members_of w)
  /\ (supplied_members input <> [] ->
      exists entries,
        members_of w' = <[Pool.id p := entries]> (members_of w)
        /\ length entries = length (supplied_members input)).
Proof.
  intros (_ & -> & ->)%POST_201.
  rewrite (pools_of_created env input w), (activities_of_created env input w),
    (members_of_created env input w) by done.
  split; [done|]. split; [|split; [|split]].
  - destruct (supplied_members input).
    + exists []. split; [by rewrite app_nil_r | simpl; lia].
    + eexists [_]. split; [reflexivity | simpl; lia].
  - intros id Hid. destruct (supplied_members input); [done|].
    by rewrite lookup_insert_ne.
  - by intros ->.
  - intros Hsome. destruct (supplied_members input) eqn:Hms; [done|].
    eexists. split; [reflexivity|]. by rewrite members_length, Hms.
Qed.

Lemma member_records_lookup (poolId : string) (ca : option string)
    (clk : nat -> Z) (tick index : nat) (ms : list string) (i : nat)
    (addr : string) :
  ms !! i = Some addr ->
  Created.member_records poolId ca clk tick index ms !! i
  = Some {| Member.id := "member_" +:+ poolId +:+ "_" +:+ pretty (index + i)%nat;
            Member.member_address := toLowerCase addr;
            Member.contribution_amount :=
              Some (JsNumber.parseFloat (or_else ca "0"));
            Member.status := Member.pending;
            Member.joined_at := JsDate.iso_string (clk (tick + i)%nat) |}.
Proof.
  revert tick index i. induction ms as [|m ms IH]; intros tick index [|i];
    try done.
  - intros [= ->]. simpl. by rewrite !Nat.add_0_r.
  - intros H. simpl. rewrite (IH _ _ _ H).
    by rewrite !Nat.add_succ_r.
Qed.

Lemma member_records_ids (poolId : string) (ca : option string)
    (clk : nat -> Z) (tick index : nat) (ms : list string) :
  Member.id <$> Created.member_records poolId ca clk tick index ms
  = (fun i : nat => "member_" +:+ poolId +:+ "_" +:+ pretty i)
      <$> seq index (length ms).
Proof.
  revert tick index. induction ms as [|m ms IH]; intros tick index; [done|].
  cbn [Created.member_records length seq]. rewrite !fmap_cons.
  cbn [Member.id]. by rewrite IH.
Qed.

Lemma member_id_inj (poolId : string) :
  Inj (=) (=) (fun i : nat => "member_" +:+ poolId +:+ "_" +:+ pretty i).
Proof.
  intros i j H.
  apply (inj (String.app "member_")) in H.
  apply (inj (String.app poolId)) in H.
  apply (inj (String.app "_")) in H.
  by apply (inj pretty) in H.
Qed.

(** One member record per supplied address, in the order supplied: the
    [i]-th has the id [member_<pool id>_<i>], the address in lower case, the
    status [pending] and a well-formed join date; no two records of the pool
    share an id. *)
Theorem POST_member_records (input : Body.t) (w w' : World) (p : Pool.t) :
  POST env input w = (Ok (json (PoolRecord p) 201), w') ->
  supplied_members input <> [] ->
  exists entries,
    members_of w' !! Pool.id p = Some entries
    /\ length entries = length (supplied_members input)
    /\ (forall i addr,
          supplied_members input !! i = Some addr ->
          exists m,
            entries !! i = Some m
            /\ Member.id m = "member_" +:+ Pool.id p +:+ "_" +:+ pretty i
            /\ Member.member_address m = toLowerCase addr
            /\ Member.status m = Member.pending
            /\ JsDate.is_iso_string (Member.joined_at m) = true)
    /\ NoDup (Member.id <$> entries).
Proof.
  intros (_ & -> & ->)%POST_201 Hsome.
  rewrite (members_of_created env input w) by done.
  destruct (supplied_members input) as [|m0 ms0] eqn:Hms; [done|].
  cbn [Created.pool Pool.id]. rewrite lookup_insert_eq.
  eexists. split; [reflexivity|].
  split; [by rewrite members_length, Hms|].
  unfold Created.members, Created.built_members. rewrite Hms. split.
  - intros i addr Hi. eexists. split.
    + rewrite list_lookup_fmap, (member_records_lookup _ _ _ _ _ _ _ _ Hi).
      reflexivity.
    + cbn [JSON.member Member.id Member.member_address Member.status
           Member.joined_at].
      repeat split. apply iso_string_shape.
  - rewrite <- list_fmap_compose.
    rewrite (list_fmap_ext _ Member.id) by done.
    rewrite member_records_ids. apply NoDup_fmap_2; [apply member_id_inj|].
    apply NoDup_seq.
Qed.

Lemma lower_char_idemp (c : ascii) : lower_char (lower_char c) = lower_char c.
Proof. by destruct c as [[] [] [] [] [] [] [] []]; vm_compute. Qed.

Lemma toLowerCase_idemp (s : string) :
  toLowerCase (toLowerCase s) = toLowerCase s.
Proof.
  induction s as [|c s IH]; [done|].
  by rewrite !toLowerCase_cons, lower_char_idemp, IH.
Qed.

(** A created pool is found under its creator: the query by creator, with
    the address as submitted or in any other letter case, lists it. *)
Theorem POST_then_getPoolsByCreator
    (input : Body.t) (w w' : World) (p : Pool.t) (id : option string)
    (submitted creator : string) :
  POST env input w = (Ok (json (PoolRecord p) 201), w') ->
  Body.creatorAddress input = Some submitted ->
  same_up_to_case creator submitted ->
  missing_or_empty id ->
  exists pools,
    (GET {| Query.id := id; Query.creator := Some creator |} w').1
    = Ok (json (PoolList pools) 200)
    /\ p ∈ pools.
Proof.
  intros ((_ & (c & Hc & Hne) & _) & -> & ->)%POST_201 Hsubmitted Hcase Hid.
  rewrite Hsubmitted in Hc. injection Hc as <-.
  assert (creator <> "") as Hcreator.
  { intros ->. apply same_up_to_case_empty in Hcase. done. }
  rewrite (GET_by_creator id creator _ Hid Hcreator). cbn [fst].
  eexists. split; [reflexivity|].
  rewrite (pools_of_created env input w) by done.
  apply list_elem_of_filter. split.
  - cbn [Created.pool Pool.creator_address]. rewrite Hsubmitted. simpl default.
    rewrite toLowerCase_idemp. symmetry. by apply same_up_to_case_lower.
  - apply elem_of_app. right. apply list_elem_of_singleton. reflexivity.
Qed.

(** The activity of a created pool is the last one stored. It names the
    pool, carries the creator address as submitted (the pool record has it
    in lower case), no amount, the transaction hash as given and the number
    of members in its description. *)
Theorem POST_created_activity (input : Body.t) (w w' : World) (p : Pool.t) :
  POST env input w = (Ok (json (PoolRecord p) 201), w') ->
  supplied_members input <> [] ->
  exists a,
    last (activities_of w') = Some a
    /\ Activity.pool_id a = Pool.id p
    /\ Body.creatorAddress input = Some (Activity.user_address a)
    /\ Pool.creator_address p = toLowerCase (Activity.user_address a)
    /\ Activity.amount a = None
    /\ Activity.tx_hash a = Body.txHash input
    /\ Activity.description a
       = "Pool created with " +:+ pretty (length (supplied_members input))
           +:+ " members"
    /\ JsDate.is_iso_string (Activity.created_at a) = true.
Proof.
  intros ((_ & (c & Hc & _) & _) & -> & ->)%POST_201 Hsome.
  rewrite (activities_of_created env input w) by done.
  destruct (supplied_members input) as [|m0 ms0] eqn:Hms; [done|].
  eexists. split; [apply last_snoc|].
  cbn [Created.activity Created.pool Activity.pool_id Activity.user_address
       Activity.amount Activity.tx_hash Activity.description
       Activity.created_at Pool.id Pool.creator_address].
  rewrite Hc, Hms. repeat split. apply iso_string_shape.
Qed.

End StoreAfterPost.

(** In this section [POST] runs on the file system [reliable]. *)
Section AmountsAndIds.

Import PoolsRoute JsNumber.

Variable env : option string.

Lemma pretty_N_char_digit (y : N) :
  (y < 10)%N ->
  is_digit (pretty_N_char y) = true
  /\ digit_value (pretty_N_char y) = Z.of_N y.
Proof.
  intros Hy.
  assert (y = 0 \/ y = 1 \/ y = 2 \/ y = 3 \/ y = 4 \/ y = 5 \/ y = 6
          \/ y = 7 \/ y = 8 \/ y = 9)%N as Hcases by lia.
  repeat (destruct Hcases as [->|Hcases]; [by vm_compute|]).
  rewrite Hcases. by vm_compute.
Qed.

(** Reading back the digits [pretty_N_go] writes. *)
Lemma read_digits_pretty_N_go (x : N) (s : string) (acc n : Z) :
  exists k,
    read_digits (pretty_N_go x s) acc n
    = read_digits s (acc * 10 ^ k + Z.of_N x) (n + k)
    /\ 0 <= k /\ ((0 < x)%N -> 0 < k).
Proof.
  revert s acc n. induction (N.lt_wf_0 x) as [x _ IH]; intros s acc n.
  destruct (decide (x = 0%N)) as [->|Hx].
  { exists 0. rewrite pretty_N_go_0. split; [|lia]. f_equal; lia. }
  rewrite pretty_N_go_step by lia.
  destruct (IH (x `div` 10)%N) with
    (s := String (pretty_N_char (x `mod` 10)) s) (acc := acc) (n := n)
    as (k & Hk & Hk0 & _).
  { apply N.div_lt; lia. }
  destruct (pretty_N_char_digit (x `mod` 10)%N) as [Hdigit Hvalue].
  { apply N.mod_lt. lia. }
  exists (k + 1). rewrite Hk. split; [|lia].
  cbn [read_digits]. rewrite Hdigit, Hvalue. f_equal; [|lia].
  rewrite Z.pow_add_r, Z.pow_1_r by lia.
  rewrite (N.div_mod x 10) at 3 by lia.
  rewrite N2Z.inj_add, N2Z.inj_mul. change (Z.of_N 10) with 10. lia.
Qed.

Lemma pretty_N_go_head (x : N) (s : string) :
  (0 < x)%N ->
  exists d rest, pretty_N_go x s = String d rest /\ is_digit d = true.
Proof.
  revert s. induction (N.lt_wf_0 x) as [x _ IH]; intros s Hx.
  rewrite pretty_N_go_step by lia.
  destruct (decide (x `div` 10 = 0)%N) as [->|Hdiv].
  - rewrite pretty_N_go_0. eexists _, _. split; [reflexivity|].
    apply pretty_N_char_digit, N.mod_lt. lia.
  - apply IH; [apply N.div_lt; lia | by apply N.neq_0_lt_0].
Qed.

Lemma digit_head (d : ascii) :
  is_digit d = true ->
  is_white_space d = false /\ Ascii.eqb d "-" = false
  /\ Ascii.eqb d "+" = false /\ (code "I" =? code d) = false.
Proof. by destruct d as [[] [] [] [] [] [] [] []]; vm_compute. Qed.

(** [parseFloat] reads a natural number printed in decimal as the double
    of that number. *)
Lemma parseFloat_pretty (x : N) :
  parseFloat (pretty x) = of_Z (Z.of_N x).
Proof.
  unfold pretty, pretty_N. case_decide as Hx; [by subst|].
  destruct (pretty_N_go_head x "") as (d & rest & Hs & Hd); [lia|].
  destruct (read_digits_pretty_N_go x "" 0 0) as (k & Hk & _ & Hk0).
  unfold parseFloat. rewrite Hs in *.
  destruct (digit_head d Hd) as (Hws & Hminus & Hplus & HI).
  cbn [trim_start]. rewrite Hws. cbn [read_sign]. rewrite Hminus, Hplus.
  cbn [starts_with]. rewrite HI. cbn [andb].
  rewrite Hk. cbn [read_digits].
  replace (0 + k =? 0) with false by lia.
  replace (0 + k + 0 =? 0) with false by lia.
  cbn [read_exponent]. destruct x as [|p]; [done|].
  unfold nearest, of_Z, binary_normalize.
  change (0 * 10 ^ k + Z.of_N (N.pos p)) with (Zpos p).
  change (0 - 0) with 0. cbn [Z.leb Z.compare].
  change (Z.to_pos (10 ^ 0)) with 1%positive.
  by rewrite Pos.mul_1_r.
Qed.

Lemma pretty_N_not_empty (x : N) : pretty x <> "".
Proof.
  unfold pretty, pretty_N. case_decide as Hx; [done|].
  destruct (pretty_N_go_head x "") as (d & rest & -> & _); [lia | done].
Qed.

Lemma digits2_pos_bounds (p : positive) :
  2 ^ (Zpos (digits2_pos p) - 1) <= Zpos p < 2 ^ Zpos (digits2_pos p).
Proof.
  induction p as [p IH|p IH|]; cbn [digits2_pos]; [| |by vm_compute].
  - rewrite Pos2Z.inj_succ.
    replace (Z.succ (Zpos (digits2_pos p)) - 1) with (Z.succ (Zpos (digits2_pos p) - 1)) by lia.
    rewrite !Z.pow_succ_r by lia. lia.
  - rewrite Pos2Z.inj_succ.
    replace (Z.succ (Zpos (digits2_pos p)) - 1) with (Z.succ (Zpos (digits2_pos p) - 1)) by lia.
    rewrite !Z.pow_succ_r by lia. lia.
Qed.

Lemma iter_xO_value (p k : positive) :
  Zpos (Pos.iter xO p k) = Zpos p * 2 ^ Zpos k.
Proof.
  revert p. induction k as [|k IH] using Pos.peano_ind; intros p.
  - cbn [Pos.iter]. lia.
  - rewrite Pos.iter_succ, Pos2Z.inj_succ, Z.pow_succ_r by lia.
    rewrite Pos2Z.inj_xO, IH. lia.
Qed.

Lemma iter_xO_digits (p k : positive) :
  digits2_pos (Pos.iter xO p k) = (digits2_pos p + k)%positive.
Proof.
  revert p. induction k as [|k IH] using Pos.peano_ind; intros p.
  - cbn [Pos.iter digits2_pos]. lia.
  - rewrite Pos.iter_succ. cbn [digits2_pos]. rewrite IH. lia.
Qed.

(** A mantissa of exactly 53 bits with an exponent in range is kept as it
    is by the rounding. *)
Lemma binary_round_aux_exact (s : bool) (m : positive) (e : Z) :
  Zpos (digits2_pos m) = 53 -> -1074 <= e <= 971 ->
  binary_round_aux prec emax s (Zpos m) e loc_Exact = S754_finite s m e.
Proof.
  intros Hd He. unfold binary_round_aux, shr_fexp.
  cbn [Zdigits2 shr_record_of_loc]. rewrite Hd.
  assert (fexp prec emax (53 + e) - e = 0) as ->.
  { unfold fexp, emin, prec, emax. lia. }
  cbn [shr shr_m loc_of_shr_record round_nearest_even Zdigits2
       shr_record_of_loc].
  rewrite Hd.
  assert (fexp prec emax (53 + e) - e = 0) as ->.
  { unfold fexp, emin, prec, emax. lia. }
  cbn [shr shr_m].
  assert ((e <=? emax - prec) = true) as -> by (unfold prec, emax; lia).
  reflexivity.
Qed.

Lemma binary_round_exact (s : bool) (p : positive) :
  Zpos p < 2 ^ 53 ->
  exists m e,
    binary_round prec emax s p 0 = S754_finite s m e
    /\ -52 <= e <= 0 /\ Zpos m = Zpos p * 2 ^ (- e).
Proof.
  intros Hp. pose proof (digits2_pos_bounds p) as [Hlow _].
  assert (Zpos (digits2_pos p) <= 53) as Hd.
  { destruct (Z.le_gt_cases (Zpos (digits2_pos p)) 53) as [?|Hgt]; [done|].
    assert (2 ^ 53 <= 2 ^ (Zpos (digits2_pos p) - 1))
      by (apply Z.pow_le_mono_r; lia).
    lia. }
  unfold binary_round, shl_align.
  assert (fexp prec emax (Zpos (digits2_pos p) + 0) = Zpos (digits2_pos p) - 53)
    as -> by (unfold fexp, emin, prec, emax; lia).
  destruct (Zpos (digits2_pos p) - 53 - 0) as [|k|k] eqn:Hk; [|lia|].
  - exists p, 0. split; [|lia]. apply binary_round_aux_exact; lia.
  - exists (Pos.iter xO p k), (Zpos (digits2_pos p) - 53).
    split; [|split; [lia|]].
    + apply binary_round_aux_exact; [|lia].
      rewrite iter_xO_digits. lia.
    + rewrite iter_xO_value. f_equal. f_equal. lia.
Qed.

Lemma to_Z_finite (s : bool) (m : positive) (e : Z) (v : Z) :
  e <= 0 -> (if s then Zneg m else Zpos m) = v * 2 ^ (- e) ->
  to_Z (S754_finite s m e) = Some v.
Proof.
  intros He Hv. unfold to_Z. rewrite Hv.
  assert (0 < 2 ^ (- e)) by (apply Z.pow_pos_nonneg; lia).
  destruct (0 <=? e) eqn:H0.
  - assert (e = 0) as -> by lia. simpl. f_equal. lia.
  - rewrite Z.mod_mul by lia. rewrite Z.eqb_refl.
    by rewrite Z.div_mul by lia.
Qed.

(** Up to [2^53] an integer is its own double. *)
Lemma of_Z_exact (z : Z) : Z.abs z < 2 ^ 53 -> to_Z (of_Z z) = Some z.
Proof.
  intros Hz. unfold of_Z, binary_normalize. destruct z as [|p|p]; [done| |].
  - destruct (binary_round_exact false p) as (m & e & -> & He & Hm); [lia|].
    apply to_Z_finite; [lia | done].
  - destruct (binary_round_exact true p) as (m & e & -> & He & Hm); [lia|].
    apply to_Z_finite; [lia|]. lia.
Qed.


(** A contribution amount given as a natural number [n] in decimal is
    stored, in every member record of the pool, as the double of [n] after
    the round trip through the JSON text; up to [2^53] that is the number
    [n] itself. *)
Theorem POST_integer_amount
    (input : Body.t) (w w' : World) (p : Pool.t) (amount : N) :
  POST env input w = (Ok (json (PoolRecord p) 201), w') ->
  Body.contributionAmount input = Some (pretty amount) ->
  supplied_members input <> [] ->
  exists entries,
    members_of w' !! Pool.id p = Some entries
    /\ forall m, m ∈ entries ->
         Member.contribution_amount m
         = JSON.number (Some (of_Z (Z.of_N amount)))
         /\ ((amount < 2 ^ 53)%N ->
             exists n,
               Member.contribution_amount m = Some n
               /\ to_Z n = Some (Z.of_N amount)
               /\ is_non_negative n = true).
Proof.
  intros (_ & -> & ->)%POST_201 Hamount Hsome.
  rewrite (members_of_created env input w) by done.
  destruct (supplied_members input) as [|m0 ms0] eqn:Hms; [done|].
  cbn [Created.pool Pool.id]. rewrite lookup_insert_eq.
  eexists. split; [reflexivity|].
  intros m Hm. apply members_amount in Hm. rewrite Hm, Hamount.
  assert (or_else (Some (pretty amount)) "0" = pretty amount) as ->.
  { pose proof (pretty_N_not_empty amount). by destruct (pretty amount). }
  rewrite parseFloat_pretty. split; [done|]. intros Hbound.
  assert (Z.abs (Z.of_N amount) < 2 ^ 53) as Hsafe.
  { change (2 ^ 53) with (Z.of_N (2 ^ 53)). lia. }
  pose proof (of_Z_exact _ Hsafe) as Hexact.
  destruct amount as [|a]; [by eexists|].
  unfold of_Z, binary_normalize in *. cbn [Z.of_N] in *.
  destruct (binary_round_exact false a) as (mf & ef & Hround & _ & _);
    [exact Hsafe|].
  rewrite Hround in *. by eexists.
Qed.

(** The id is [pool_], the clock reading in decimal, [_] and a suffix cut
    out of the random string from its third character on: at most nine
    characters, and none when the string has fewer than three. *)
Theorem generatePoolId_suffix (w : World) :
  exists suffix,
    (generatePoolId w).1
    = Ok ("pool_" +:+ pretty (clock w (ticks w)) +:+ "_" +:+ suffix)
    /\ String.length suffix
       = Nat.min 9 (String.length (random w (draws w)) - 2)
    /\ exists before rest,
         String.length before = Nat.min 2 (String.length (random w (draws w)))
         /\ random w (draws w) = before +:+ suffix +:+ rest.
Proof.
  exists (substr 2 9 (random w (draws w))).
  rewrite generatePoolId_run. split; [reflexivity|]. unfold substr. split.
  - by rewrite take_length, drop_length.
  - exists (string_take 2 (random w (draws w))),
      (string_drop 9 (string_drop 2 (random w (draws w)))).
    split; [apply take_length|].
    by rewrite <- take_drop, <- take_drop.
Qed.

End AmountsAndIds.

(** In this section the file system is any. *)
Section JsonFiles.

Import PoolsRoute.

Context {fs : FileSystem}.





End JsonFiles.


(** In this section [GET] runs on the file system [reliable]. *)
Section GetAnswers.

Import PoolsRoute.

(** When nothing fails, the answer is a 200, or a 404 for an id that was
    given and not found. *)
Lemma GET_statuses (request : Query.t) (w : World) :
  exists response,
    GET request w = (Ok response, with_disk (Created.with_data_dir (disk w)) w)
    /\ (status response = 200
        \/ (status response = 404 /\ present (Query.id request)
            /\ forall p, p ∈ pools_of w -> Some (Pool.id p) <> Query.id request)).
Proof.
  destruct request as [id creator].
  destruct (truthy_cases id) as [[Hpresent _]|[Hid _]].
  - pose proof Hpresent as (s & -> & Hs). rewrite GET_by_id by done.
    destruct (List.find _ _) as [pool|] eqn:Hfind.
    + eexists. split; [reflexivity|]. left. cbv zeta.
      by destruct (JsObject.get _ _).
    + eexists. split; [reflexivity|]. right.
      split; [done|]. split; [done|].
      intros p Hp [= Hp']. apply list_elem_of_In in Hp.
      apply (List.find_none _ _ Hfind) in Hp.
      apply bool_decide_eq_false in Hp. done.
  - destruct (truthy_cases creator) as [[(c & -> & Hc) _]|[Hcreator _]].
    + rewrite GET_by_creator by done. eexists. split; [reflexivity|]. by left.
    + rewrite GET_all by done. eexists. split; [reflexivity|]. by left.
Qed.

(** A non-empty id decides the answer: the creator parameter is not looked
    at when an id is given. *)
Theorem GET_id_before_creator
    (id : string) (creator creator' : option string) (w : World) :
  id <> "" ->
  GET {| Query.id := Some id; Query.creator := creator |} w
  = GET {| Query.id := Some id; Query.creator := creator' |} w.
Proof. intros Hid. by rewrite !GET_by_id. Qed.

(** Without an id and without a creator the answer lists every stored pool
    in stored order, and the empty list when the pools file is not there. *)
Theorem GET_lists_all_pools (id creator : option string) (w : World) :
  missing_or_empty id -> missing_or_empty creator ->
  (GET {| Query.id := id; Query.creator := creator |} w).1
  = Ok (json (PoolList (pools_of w)) 200)
  /\ (pools_file (disk w) = None -> pools_of w = []).
Proof.
  intros Hid Hcreator. rewrite GET_all by done. split; [done|].
  unfold pools_of. by intros ->.
Qed.

End GetAnswers.

(** In this section the file system is any. *)
Section GetOnAnyFileSystem.

Import PoolsRoute.

Context {fs : FileSystem}.

(** Whatever the file system does, [GET] answers and only reads: the three
    files are as they were.  The answer is a 200, a 404 or a 500; a 404 is
    given only for an id that was given and that no pool read from the
    store has, and a missing directory that cannot be made is answered
    with a 500. *)
Theorem GET_reads_only (request : Query.t) (w : World) :
  exists response w',
    GET request w = (Ok response, w')
    /\ pools_file (disk w') = pools_file (disk w)
    /\ activities_file (disk w') = activities_file (disk w)
    /\ members_file (disk w') = members_file (disk w)
    /\ (status response = 200 \/ status response = 404
        \/ status response = 500)
    /\ (status response = 404 ->
        present (Query.id request)
        /\ forall p, p ∈ pools_of w -> Some (Pool.id p) <> Query.id request)
    /\ (data_dir (disk w) = false -> mkdir_fails w = true ->
        response = json (ErrorBody "Internal server error") 500).
Proof.
  destruct (ensureDataDir_cases w) as [(Hd & Hm & _)|[Hdir _]].
  - rewrite (GET_without_directory request w Hd Hm).
    eexists _, _. split; [reflexivity|]. repeat split; by auto.
  - rewrite (GET_with_directory request w Hdir).
    destruct (GET_statuses request w) as (response & -> & Hstatus).
    eexists _, _. split; [reflexivity|].
    split; [done|]. split; [done|]. split; [done|].
    split; [|split].
    + destruct Hstatus as [?|(? & _)]; by auto.
    + intros H404. destruct Hstatus as [H200|(_ & Hpresent & Hnone)];
        [congruence | done].
    + intros Hd Hm. destruct Hdir; congruence.
Qed.

End GetOnAnyFileSystem.

(** * The further properties at concrete inputs *)

Section MoreWitnesses.

Import Scanner PoolsRoute Hooks DashboardHeader Fixtures MoreFixtures.

Lemma extractPoolAddress_word32_topic_witness :
  extractPoolAddress factory
    (client (receipt [Some transfer; None; Some pool_created])) "0xfeed"
  = Ok (Some "0xabc1230000000000000000000000000000000def").
Proof.
  pose proof (extractPoolAddress_word32_topic factory
    (client (receipt [Some transfer; None; Some pool_created])) "0xfeed"
    [Some transfer; None] [] pool_created ("0x" +:+ pool_word) pool_word)
    as word32.
  apply word32; clear word32.
  - reflexivity.
  - constructor; [|constructor; [|constructor]].
    + left. apply transfer_not_from_factory.
    + left. apply null_not_from_factory.
  - exists pool_created, "0x5fbdb2315678AFECB367f032d93f642f64180aa3".
    by repeat split.
  - reflexivity.
  - split; [reflexivity|]. split; [reflexivity|].
    unfold IsHexDigit. apply (bool_decide_unpack _). by vm_compute.
Defined.

Lemma extractPoolAddress_factory_case_witness :
  extractPoolAddress factory
    (client (receipt [Some transfer; Some pool_created])) "0xfeed"
  = extractPoolAddress factory_lower
      (client (receipt [Some transfer; Some pool_created])) "0xfeed".
Proof.
  pose proof (extractPoolAddress_factory_case factory factory_lower
    (client (receipt [Some transfer; Some pool_created])) "0xfeed")
    as factory_case.
  apply factory_case. apply same_up_to_case_lower. vm_compute. reflexivity.
Defined.

Lemma extractPoolAddress_other_logs_irrelevant_witness :
  extractPoolAddress factory
    (client (receipt [Some transfer; None; Some pool_created;
                      Some no_topics])) "0xfeed"
  = extractPoolAddress factory
      (client (receipt [Some pool_created; Some no_topics])) "0xfeed".
Proof.
  pose proof (extractPoolAddress_other_logs_irrelevant factory
    (client (receipt [Some transfer; None; Some pool_created;
                      Some no_topics]))
    (client (receipt [Some pool_created; Some no_topics])) "0xfeed"
    [Some transfer; None; Some pool_created; Some no_topics])
    as other_logs.
  apply other_logs; [reflexivity|]. vm_compute. reflexivity.
Defined.

Lemma wallet_label_of_address_witness :
  wallet_label (Some "0x5FbDB2315678afecb367f032d93F642f64180aa3")
  = "0x5FbD...0aa3".
Proof.
  pose proof (wallet_label_of_address
    "0x5FbDB2315678afecb367f032d93F642f64180aa3"
    "0x5FbD" "B2315678afecb367f032d93F642f6418" "0aa3") as label.
  apply label; reflexivity.
Defined.

Lemma POST_payout_out_of_range_witness :
  exists w',
    POST None far_payout world0
    = (Ok (json (ErrorBody "Internal server error") 500), w')
    /\ pools_file (disk w') = pools_file (disk world0)
    /\ activities_file (disk w') = activities_file (disk world0)
    /\ members_file (disk w') = members_file (disk world0).
Proof.
  pose proof (POST_payout_out_of_range None far_payout world0) as out_of_range.
  apply out_of_range; clear out_of_range.
  - repeat split; eexists; by split.
  - unfold ValidTime. vm_compute. intros [_ H]. apply H. reflexivity.
Defined.

Lemma created_after :
  POST None (with_members (Some "10")) world0
  = (Ok (json (PoolRecord created) 201), after (with_members (Some "10")) world0).
Proof. apply after_spec. vm_compute. reflexivity. Qed.

Lemma POST_appends_witness :
  pools_of (after (with_members (Some "10")) world0)
  = pools_of world0 ++ [created]
  /\ (exists added,
        activities_of (after (with_members (Some "10")) world0)
        = activities_of world0 ++ added
        /\ (length added <= 1)%nat)
  /\ (forall id, id <> Pool.id created ->
        members_of (after (with_members (Some "10")) world0) !! id
        = members_of world0 !! id)
  /\ (exists entries,
        members_of (after (with_members (Some "10")) world0)
        = <[Pool.id created := entries]> (members_of world0)
        /\ length entries = 2%nat).
Proof.
  pose proof (POST_appends None (with_members (Some "10")) world0
                (after (with_members (Some "10")) world0) created
                created_after)
    as (Hpools & Hactivities & Hothers & _ & Hmembers).
  split; [exact Hpools|]. split; [exact Hactivities|].
  split; [exact Hothers|]. apply Hmembers. discriminate.
Defined.

Lemma POST_member_records_witness :
  exists entries,
    members_of (after (with_members (Some "10")) world0) !! Pool.id created
    = Some entries
    /\ length entries = 2%nat
    /\ NoDup (Member.id <$> entries).
Proof.
  pose proof (POST_member_records None (with_members (Some "10")) world0
                (after (with_members (Some "10")) world0) created
                created_after) as records.
  destruct records as (entries & Hentries & Hlength & _ & Hids);
    [discriminate|].
  exists entries. split; [exact Hentries|].
  split; [exact Hlength | exact Hids].
Defined.

Lemma POST_then_getPoolsByCreator_witness :
  exists pools,
    (GET {| Query.id := None; Query.creator := Some "0xabc" |}
       (after (with_members (Some "10")) world0)).1
    = Ok (json (PoolList pools) 200)
    /\ created ∈ pools.
Proof.
  assert (same_up_to_case "0xabc" "0xABC") as Hcase
    by (apply same_up_to_case_lower; vm_compute; reflexivity).
  exact (POST_then_getPoolsByCreator None (with_members (Some "10")) world0
           (after (with_members (Some "10")) world0) created None
           "0xABC" "0xabc" created_after eq_refl Hcase (or_introl eq_refl)).
Defined.

Lemma POST_created_activity_witness :
  exists a,
    last (activities_of (after (with_members (Some "10")) world0)) = Some a
    /\ Activity.pool_id a = Pool.id created
    /\ Activity.description a = "Pool created with 2 members".
Proof.
  pose proof (POST_created_activity None (with_members (Some "10")) world0
                (after (with_members (Some "10")) world0) created
                created_after) as activity.
  destruct activity as (a & Hlast & Hpool & _ & _ & _ & _ & Hdescription & _);
    [discriminate|].
  exists a. split; [exact Hlast|]. split; [exact Hpool|].
  exact Hdescription.
Defined.

Lemma POST_integer_amount_witness :
  exists entries,
    members_of (after (with_members (Some "10")) world0) !! Pool.id created
    = Some entries
    /\ forall m, m ∈ entries ->
         exists n,
           Member.contribution_amount m = Some n
           /\ JsNumber.to_Z n = Some 10
           /\ JsNumber.is_non_negative n = true.
Proof.
  pose proof (POST_integer_amount None (with_members (Some "10")) world0
                (after (with_members (Some "10")) world0) created 10%N
                created_after eq_refl) as amounts.
  destruct amounts as (entries & Hentries & Hamounts); [discriminate|].
  exists entries. split; [exact Hentries|].
  intros m Hm. destruct (Hamounts m Hm) as [_ Hexact].
  apply Hexact. reflexivity.
Defined.

Lemma dates_valid_fixture : dates_valid (with_members (Some "10")) world0.
Proof.
  split; [unfold ValidTime; by vm_compute|].
  split; [apply sane_world0|]. intros _. split.
  - intros i _. apply sane_world0.
  - apply sane_world0.
Qed.

Lemma POST_creates_only_if_witness :
  valid_request (with_members (Some "10"))
  /\ dates_valid (with_members (Some "10")) world0
  /\ created = Created.pool None (with_members (Some "10")) world0
  /\ pools_of (after (with_members (Some "10")) world0)
     = pools_of world0 ++ [created]
  /\ is_Some (activities_file (disk (after (with_members (Some "10")) world0)))
  /\ is_Some (members_file (disk (after (with_members (Some "10")) world0))).
Proof.
  exact (POST_creates_only_if None (with_members (Some "10")) world0
           (after (with_members (Some "10")) world0) created created_after).
Defined.

Lemma POST_failed_write_keeps_pool_witness :
  exists w',
    POST (fs := activities_rejected) None (with_members (Some "10")) world0
    = (Ok (json (ErrorBody "Internal server error") 500), w')
    /\ pools_of w' = pools_of world0 ++ [created]
    /\ members_file (disk w') = members_file (disk world0).
Proof.
  pose proof (POST_failed_write_keeps_pool (fs := activities_rejected) None
                (with_members (Some "10")) world0) as failed_write.
  apply failed_write; clear failed_write.
  - intros w1. reflexivity.
  - intros data w1. reflexivity.
  - intros data w1. discriminate.
  - by apply valid_fixture.
  - apply dates_valid_fixture.
Defined.


Lemma GET_id_before_creator_witness :
  GET {| Query.id := Some "pool_0_none"; Query.creator := None |}
    (after without_members world0)
  = GET {| Query.id := Some "pool_0_none"; Query.creator := Some "0xabc" |}
      (after without_members world0).
Proof.
  pose proof (GET_id_before_creator "pool_0_none" None (Some "0xabc")
                (after without_members world0)) as by_id.
  apply by_id. discriminate.
Defined.

Lemma GET_lists_all_pools_witness :
  (GET {| Query.id := Some ""; Query.creator := None |} world0).1
  = Ok (json (PoolList (pools_of world0)) 200)
  /\ (pools_file (disk world0) = None -> pools_of world0 = []).
Proof.
  exact (GET_lists_all_pools (Some "") None world0
           (or_intror eq_refl) (or_introl eq_refl)).
Defined.

End MoreWitnesses.
